(** * Hybrid retrieval and graph re-ranking: a shallow embedding

    The development follows the two TypeScript tools of the repository:
    - [youtube-graph-rag-tool]: the [GraphRAG] class (nodes, bidirectional
      edges, cosine similarity, random walk with restart, [query]) and the
      process-wide [graphCache] used by [youtubeGraphRAGTool.execute];
    - [youtube-hybrid-vector-query-tool]: [buildFilterQuery],
      [calculateHybridScore] and [youtubeHybridVectorQueryTool.execute].

    JavaScript numbers are IEEE 754 binary64 values, modelled by the kernel's
    primitive floats.  Thrown exceptions are values of [result].  Calls to the
    outside (the vector store, the embedding provider, the clock, the random
    source) are fields of a host record. *)

From Stdlib Require Import List String Ascii Bool Arith ZArith Lia.
From Stdlib Require Import DecimalString DecimalNat.
From Stdlib Require Import Floats.
From Stdlib Require Import Reals Lra.
Import ListNotations.

Set Implicit Arguments.
Set Warnings "-register-all,-inexact-float".

Local Open Scope string_scope.
Local Open Scope list_scope.

(* ================================================================== *)
(** * Thrown errors *)

(** The two classes of exception the modelled code raises: [new Error(msg)]
    written in the source, and the [TypeError] the language raises on a
    property access or call on a value that does not support it. *)
Inductive error : Type :=
| Error (message : string)
| TypeError (message : string).

Inductive result (A : Type) : Type :=
| Ok (a : A)
| Throw (e : error).
Arguments Ok {A} a.
Arguments Throw {A} e.

Definition bind {A B : Type} (r : result A) (k : A -> result B) : result B :=
  match r with
  | Ok a => k a
  | Throw e => Throw e
  end.

Notation "x <- r ;; k" := (bind r (fun x => k))
  (at level 61, r at next level, right associativity).
Notation "' p <- r ;; k" := (bind r (fun p => k))
  (at level 61, p pattern, r at next level, right associativity).

(** [forEach]-style loops that may throw: a left fold in the error monad. *)
Section FoldM.
Variables A S : Type.
Variable f : S -> A -> result S.

Fixpoint foldM (l : list A) (s : S) : result S :=
  match l with
  | [] => Ok s
  | a :: l' => s' <- f s a ;; foldM l' s'
  end.
End FoldM.

(* ================================================================== *)
(** * Numbers *)

(** [Number.prototype.toString] of an array index. *)
Definition index_toString (n : nat) : string :=
  NilEmpty.string_of_uint (Nat.to_uint n).

(** The arithmetic the scoring code uses.  The code is written once over this
    signature and read at two instances: [F64], the binary64 arithmetic that
    JavaScript executes, and [Exact], the same expressions over the real
    numbers (no rounding, no NaN), used to state what the formulas compute
    in exact arithmetic. *)
Record Arith (num : Type) : Type := {
  lit0 : num;
  lit1 : num;
  litNeg1 : num;
  plus : num -> num -> num;
  times : num -> num -> num;
  divide : num -> num -> num;
  Math_sqrt : num -> num;
  Math_max : num -> num -> num;
  Math_min : num -> num -> num;
  strictEq : num -> num -> bool;      (* a === b *)
  greater : num -> num -> bool        (* a > b *)
}.

Module F64.
Local Open Scope float_scope.

(** [Math.max]: NaN when an argument is NaN, and [+0] counts as larger
    than [-0]. *)
Definition max (a b : float) : float :=
  if is_nan a || is_nan b then nan
  else if a <? b then b
  else if b <? a then a
  else if is_zero a && get_sign a then b else a.

(** [Math.min]: NaN when an argument is NaN, and [-0] counts as smaller
    than [+0]. *)
Definition min (a b : float) : float :=
  if is_nan a || is_nan b then nan
  else if a <? b then a
  else if b <? a then b
  else if is_zero a && get_sign a then a else b.

Definition arith : Arith float := {|
  lit0 := 0;
  lit1 := 1;
  litNeg1 := -1;
  plus := PrimFloat.add;
  times := PrimFloat.mul;
  divide := PrimFloat.div;
  Math_sqrt := PrimFloat.sqrt;
  Math_max := max;
  Math_min := min;
  strictEq := PrimFloat.eqb;
  greater := fun a b => b <? a
|}.

(** Truthiness of a number: [0], [-0] and NaN are falsy. *)
Definition truthy (x : float) : bool := negb (is_zero x || is_nan x).

(** [x || d] on numbers. *)
Definition orElse (x d : float) : float := if truthy x then x else d.
End F64.

Module Exact.
Local Open Scope R_scope.

Definition arith : Arith R := {|
  lit0 := 0;
  lit1 := 1;
  litNeg1 := -1;
  plus := Rplus;
  times := Rmult;
  divide := Rdiv;
  Math_sqrt := R_sqrt.sqrt;
  Math_max := Rmax;
  Math_min := Rmin;
  strictEq := fun a b => if Req_dec_T a b then true else false;
  greater := fun a b => if Rlt_dec b a then true else false
|}.
End Exact.

(* ================================================================== *)
(** * [Map<string, V>]: insertion-ordered, keys unique *)

Module JsMap.
Section Map.
Variable V : Type.

Definition t : Type := list (string * V).

Definition empty : t := [].

Fixpoint get (k : string) (m : t) : option V :=
  match m with
  | [] => None
  | (k', v) :: m' => if String.eqb k k' then Some v else get k m'
  end.

Definition has (k : string) (m : t) : bool :=
  match get k m with Some _ => true | None => false end.

(** [set] replaces the value of a present key in place and appends an
    absent key at the end. *)
Fixpoint set (k : string) (v : V) (m : t) : t :=
  match m with
  | [] => [(k, v)]
  | (k', v') :: m' =>
      if String.eqb k k' then (k, v) :: m' else (k', v') :: set k v m'
  end.

Definition keys (m : t) : list string := map fst m.
Definition values (m : t) : list V := map snd m.
Definition size (m : t) : nat := List.length m.
End Map.
Arguments empty {V}.
End JsMap.

(* ================================================================== *)
(** * JavaScript values ([any], [Record<string, any>]) *)

Module Js.
(** The values metadata and filters are made of.  An object is the list of
    its own enumerable properties in property order (keys pairwise
    distinct). *)
Inductive value : Type :=
| VUndefined
| VNull
| VBool (b : bool)
| VNum (n : float)
| VStr (s : string)
| VArr (items : list value)
| VObj (props : list (string * value)).

Definition truthy (v : value) : bool :=
  match v with
  | VUndefined | VNull => false
  | VBool b => b
  | VNum n => F64.truthy n
  | VStr s => negb (String.eqb s "")
  | VArr _ | VObj _ => true
  end.

(** [a || b] *)
Definition orElse (a b : value) : value := if truthy a then a else b.

Fixpoint lookup (k : string) (props : list (string * value)) : value :=
  match props with
  | [] => VUndefined
  | (k', v) :: props' => if String.eqb k k' then v else lookup k props'
  end.

(** [v?.k] for a property name [k] that is neither an index nor a member
    of a built-in prototype ([text], [publishedAt], ...). *)
Definition optField (v : value) (k : string) : value :=
  match v with
  | VObj props => lookup k props
  | _ => VUndefined
  end.

(** [v.k]: as [v?.k], but reading a property of [null] or [undefined]
    throws. *)
Definition field (v : value) (k : string) : result value :=
  match v with
  | VUndefined | VNull => Throw (TypeError "Cannot read properties of undefined")
  | _ => Ok (optField v k)
  end.

Fixpoint indexed_from {A : Type} (i : nat) (l : list A) : list (nat * A) :=
  match l with
  | [] => []
  | a :: l' => (i, a) :: indexed_from (S i) l'
  end.

(** The callback arguments of [forEach((x, index) => ...)]. *)
Definition indexed {A : Type} (l : list A) : list (nat * A) := indexed_from 0 l.

Fixpoint chars (s : string) : list value :=
  match s with
  | EmptyString => []
  | String c s' => VStr (String c EmptyString) :: chars s'
  end.

Definition index_entries (l : list value) : list (string * value) :=
  map (fun '(i, v) => (index_toString i, v)) (indexed l).

(** Own enumerable string-keyed properties of a value that is not [null]
    or [undefined]. *)
Definition own_entries (v : value) : list (string * value) :=
  match v with
  | VObj props => props
  | VArr items => index_entries items
  | VStr s => index_entries (chars s)
  | _ => []
  end.

(** [Object.entries(v)] *)
Definition Object_entries (v : value) : result (list (string * value)) :=
  match v with
  | VUndefined | VNull =>
      Throw (TypeError "Cannot convert undefined or null to object")
  | _ => Ok (own_entries v)
  end.

(** [{ ...v }] *)
Definition spread (v : value) : value := VObj (own_entries v).
End Js.
Export Js.

(* ================================================================== *)
(** * Cosine similarity and the weighted sum, over [Arith] *)

(** The weights object of the hybrid scorer: [vector], [freshness],
    [popularity], [tags]. *)
Record Weights (num : Type) : Type := {
  w_vector : num;
  w_freshness : num;
  w_popularity : num;
  w_tags : num
}.

Module Generic.
Section Scoring.
Context {num : Type} (A : Arith num).

(** The accumulating [for] loop of [cosineSimilarity]: the triple is
    [(dotProduct, normVec1, normVec2)]. *)
Fixpoint cosineLoop (vec1 vec2 : list num) (acc : num * num * num)
  : num * num * num :=
  match vec1, vec2 with
  | a :: vec1', b :: vec2' =>
      let '(dotProduct, normVec1, normVec2) := acc in
      cosineLoop vec1' vec2'
        (plus A dotProduct (times A a b),
         plus A normVec1 (times A a a),
         plus A normVec2 (times A b b))
  | _, _ => acc
  end.

Definition cosineSimilarity (vec1 vec2 : option (list num)) : result num :=
  match vec1, vec2 with
  | Some vec1, Some vec2 =>
      if negb (List.length vec1 =? List.length vec2)%nat then
        Throw (Error ("Vector dimensions must match: vec1("
                        ++ index_toString (List.length vec1) ++ ") !== vec2("
                        ++ index_toString (List.length vec2) ++ ")"))
      else
        let '(dotProduct, normVec1, normVec2) :=
          cosineLoop vec1 vec2 (lit0 A, lit0 A, lit0 A) in
        let magnitudeProduct := Math_sqrt A (times A normVec1 normVec2) in
        if strictEq A magnitudeProduct (lit0 A) then Ok (lit0 A)
        else
          let similarity := divide A dotProduct magnitudeProduct in
          Ok (Math_max A (litNeg1 A) (Math_min A (lit1 A) similarity))
  | _, _ => Throw (Error "Vectors must not be null or undefined")
  end.

(** The returned expression of [calculateHybridScore]. *)
Definition weightedSum (weights : Weights num)
    (vectorScore freshnessScore popularityScore tagScore : num) : num :=
  plus A
    (plus A
       (plus A (times A (w_vector weights) vectorScore)
               (times A (w_freshness weights) freshnessScore))
       (times A (w_popularity weights) popularityScore))
    (times A (w_tags weights) tagScore).
End Scoring.
End Generic.

(* ================================================================== *)
(** * Arrays: [sort], [slice], [map] with a throwing callback *)

Module JsArray.
Local Open Scope float_scope.

Section Sort.
Variable A : Type.
(** [comparefn(a, b)]: positive when [a] is to come after [b]; a NaN
    result counts as [0]. *)
Variable comparefn : A -> A -> float.

Fixpoint insert (x : A) (l : list A) : list A :=
  match l with
  | [] => [x]
  | y :: l' => if 0 <? comparefn x y then y :: insert x l' else x :: l
  end.

(** [Array.prototype.sort(comparefn)]: a stable sort, here by insertion.
    For a consistent [comparefn] every stable sort returns this list. *)
Definition sort (l : list A) : list A := fold_right insert [] l.
End Sort.

(** [l.slice(0, k)] for a count [k]. *)
Definition slice0 {A : Type} (k : nat) (l : list A) : list A := firstn k l.

(** [l.map(f)] for a callback that may throw. *)
Section MapM.
Variables A B : Type.
Variable f : A -> result B.

Fixpoint mapM (l : list A) : result (list B) :=
  match l with
  | [] => Ok []
  | a :: l' => b <- f a ;; bs <- mapM l' ;; Ok (b :: bs)
  end.
End MapM.
End JsArray.

(* ================================================================== *)
(** * The [GraphRAG] class *)

Module GraphNode.
Record t : Type := {
  id : string;
  content : value;
  embedding : option (list float);
  metadata : value
}.
End GraphNode.

Module RankedNode.
(** What [query] returns: [id], [content], [metadata] and [score]. *)
Record t : Type := {
  id : string;
  content : value;
  metadata : value;
  score : float
}.
End RankedNode.

Module GraphEdge.
Inductive kind : Type := semantic.

Record t : Type := {
  source : string;
  target : string;
  weight : float;
  type : kind
}.
End GraphEdge.

Module GraphChunk.
Record t : Type := { text : value; metadata : value }.
End GraphChunk.

Module GraphEmbedding.
Record t : Type := { vector : list float }.
End GraphEmbedding.

Module Neighbor.
Record t : Type := { id : string; weight : float }.
End Neighbor.

Module GraphRAG.
Local Open Scope float_scope.

Record t : Type := {
  nodes : JsMap.t GraphNode.t;
  edges : list GraphEdge.t;
  dimension : nat;
  threshold : float
}.

(** [new GraphRAG(dimension, threshold)] *)
Definition new (dimension : nat) (threshold : float) : t :=
  {| nodes := JsMap.empty; edges := []; dimension := dimension;
     threshold := threshold |}.

Definition addNode (g : t) (node : GraphNode.t) : result t :=
  match GraphNode.embedding node with
  | None => Throw (Error "Node must have an embedding")
  | Some embedding =>
      if negb (List.length embedding =? dimension g)%nat then
        Throw (Error ("Embedding dimension must be "
                        ++ index_toString (dimension g)))
      else
        Ok {| nodes := JsMap.set (GraphNode.id node) node (nodes g);
              edges := edges g; dimension := dimension g;
              threshold := threshold g |}
  end.

Definition reverse (edge : GraphEdge.t) : GraphEdge.t :=
  {| GraphEdge.source := GraphEdge.target edge;
     GraphEdge.target := GraphEdge.source edge;
     GraphEdge.weight := GraphEdge.weight edge;
     GraphEdge.type := GraphEdge.type edge |}.

Definition addEdge (g : t) (edge : GraphEdge.t) : result t :=
  if negb (JsMap.has (GraphEdge.source edge) (nodes g))
     || negb (JsMap.has (GraphEdge.target edge) (nodes g)) then
    Throw (Error "Both source and target nodes must exist")
  else
    Ok {| nodes := nodes g;
          edges := edges g ++ [edge; reverse edge];
          dimension := dimension g; threshold := threshold g |}.

Definition getNodeCount (g : t) : nat := JsMap.size (nodes g).

(** [this.edges.length / 2]; the array holds two entries per edge. *)
Definition getEdgeCount (g : t) : nat := Nat.div (List.length (edges g)) 2.

Definition getNeighbors (g : t) (nodeId : string) : list Neighbor.t :=
  map (fun edge => {| Neighbor.id := GraphEdge.target edge;
                      Neighbor.weight := GraphEdge.weight edge |})
      (filter (fun edge => String.eqb (GraphEdge.source edge) nodeId)
              (edges g)).

Definition cosineSimilarity := Generic.cosineSimilarity F64.arith.

(** [embeddings[i]?.vector] *)
Definition vectorAt (embeddings : list GraphEmbedding.t) (i : nat)
  : option (list float) :=
  option_map GraphEmbedding.vector (nth_error embeddings i).

(** Body of the [chunks.forEach] of [createGraph]. *)
Definition createNode (embeddings : list GraphEmbedding.t) (g : t)
    (entry : nat * GraphChunk.t) : result t :=
  let '(index, chunk) := entry in
  addNode g {| GraphNode.id := index_toString index;
               GraphNode.content := GraphChunk.text chunk;
               GraphNode.embedding := vectorAt embeddings index;
               GraphNode.metadata := spread (GraphChunk.metadata chunk) |}.

(** Body of the inner [for (j ...)] loop of [createGraph]. *)
Definition linkPair (embeddings : list GraphEmbedding.t) (i : nat) (g : t)
    (j : nat) : result t :=
  similarity <- cosineSimilarity (vectorAt embeddings i)
                                 (vectorAt embeddings j) ;;
  if greater F64.arith similarity (threshold g) then
    addEdge g {| GraphEdge.source := index_toString i;
                 GraphEdge.target := index_toString j;
                 GraphEdge.weight := similarity;
                 GraphEdge.type := GraphEdge.semantic |}
  else Ok g.

(** Body of the outer [for (i ...)] loop: [j] runs from [i + 1] up to
    [chunks.length - 1]. *)
Definition linkFrom (embeddings : list GraphEmbedding.t) (n : nat) (g : t)
    (i : nat) : result t :=
  foldM (linkPair embeddings i) (seq (S i) (n - S i)) g.

Definition createGraph (g : t) (chunks : list GraphChunk.t)
    (embeddings : list GraphEmbedding.t) : result t :=
  if (List.length chunks =? 0)%nat || (List.length embeddings =? 0)%nat then
    Throw (Error "Chunks and embeddings arrays must not be empty")
  else if negb (List.length chunks =? List.length embeddings)%nat then
    Throw (Error "Chunks and embeddings must have the same length")
  else
    g1 <- foldM (createNode embeddings) (indexed chunks) g ;;
    foldM (linkFrom embeddings (List.length chunks))
          (seq 0 (List.length chunks)) g1.

(** [neighbors[neighbors.length - 1]] *)
Fixpoint lastOf {A : Type} (l : list A) : option A :=
  match l with
  | [] => None
  | [a] => Some a
  | _ :: l' => lastOf l'
  end.

(** The [for (const neighbor of neighbors)] scan of
    [selectWeightedNeighbor]; [None] when it runs to the end. *)
Fixpoint scanNeighbors (neighbors : list Neighbor.t) (remainingWeight : float)
  : option string :=
  match neighbors with
  | [] => None
  | neighbor :: rest =>
      let remainingWeight := remainingWeight - Neighbor.weight neighbor in
      if remainingWeight <=? 0 then Some (Neighbor.id neighbor)
      else scanNeighbors rest remainingWeight
  end.

Section RandomWalk.
(** [Math_random k] is the value of the [k]-th call of [Math.random()];
    the functions below thread the number of calls made so far. *)
Variable Math_random : nat -> float.

(** The result is [undefined] ([None]) only for an empty list. *)
Definition selectWeightedNeighbor (neighbors : list Neighbor.t)
    (calls : nat) : option string * nat :=
  let totalWeight :=
    fold_left (fun sum n => sum + Neighbor.weight n) neighbors 0 in
  let remainingWeight := Math_random calls * totalWeight in
  (match scanNeighbors neighbors remainingWeight with
   | Some id => Some id
   | None => option_map Neighbor.id (lastOf neighbors)
   end, S calls).

(** [(visits.get(id) || 0) + 1] *)
Definition bump (visits : JsMap.t float) (nodeId : string) : float :=
  match JsMap.get nodeId visits with
  | Some count => F64.orElse count 0
  | None => 0
  end + 1.

(** One iteration of the [for (step ...)] loop: the state is
    [(visits, currentNodeId, calls)]. *)
Definition walkStep (g : t) (startNodeId : string) (restartProb : float)
    (st : JsMap.t float * string * nat) : JsMap.t float * string * nat :=
  let '(visits, currentNodeId, calls) := st in
  let visits := JsMap.set currentNodeId (bump visits currentNodeId) visits in
  if Math_random calls <? restartProb then (visits, startNodeId, S calls)
  else
    match getNeighbors g currentNodeId with
    | [] => (visits, startNodeId, S calls)
    | neighbors =>
        let '(next, calls') := selectWeightedNeighbor neighbors (S calls) in
        match next with
        | Some nodeId => (visits, nodeId, calls')
        | None => (visits, startNodeId, calls')   (* not reached *)
        end
    end.

Definition walkLoop (g : t) (startNodeId : string) (steps : nat)
    (restartProb : float) (calls : nat) : JsMap.t float * string * nat :=
  Nat.iter steps (walkStep g startNodeId restartProb)
           (JsMap.empty, startNodeId, calls).

Definition randomWalkWithRestart (g : t) (startNodeId : string)
    (steps : nat) (restartProb : float) (calls : nat)
  : JsMap.t float * nat :=
  let '(visits, _, calls') := walkLoop g startNodeId steps restartProb calls in
  let totalVisits := fold_left PrimFloat.add (JsMap.values visits) 0 in
  (fold_left (fun normalizedVisits '(nodeId, count) =>
                JsMap.set nodeId (count / totalVisits) normalizedVisits)
             visits JsMap.empty,
   calls').
End RandomWalk.

Module Similarity.
Record t : Type := { node : GraphNode.t; similarity : float }.
End Similarity.

Module Reranked.
(** [node] is [this.nodes.get(nodeId)!]: [None] stands for [undefined]. *)
Record t : Type := { node : option GraphNode.t; score : float }.
End Reranked.

Section Query.
Variable Math_random : nat -> float.

(** [rerankedNodes.get(nodeId)?.score || 0] *)
Definition existingScore (rerankedNodes : JsMap.t Reranked.t)
    (nodeId : string) : float :=
  match JsMap.get nodeId rerankedNodes with
  | Some r => F64.orElse (Reranked.score r) 0
  | None => 0
  end.

(** Body of the inner [for (const [nodeId, walkScore] of walkScores)]. *)
Definition accumulate (g : t) (similarity : float)
    (rerankedNodes : JsMap.t Reranked.t) (entry : string * float)
  : JsMap.t Reranked.t :=
  let '(nodeId, walkScore) := entry in
  JsMap.set nodeId
    {| Reranked.node := JsMap.get nodeId (nodes g);
       Reranked.score :=
         existingScore rerankedNodes nodeId + similarity * walkScore |}
    rerankedNodes.

(** Body of the [for (const { node, similarity } of topNodes)]. *)
Definition rerankFrom (g : t) (randomWalkSteps : nat) (restartProb : float)
    (st : JsMap.t Reranked.t * nat) (top : Similarity.t)
  : JsMap.t Reranked.t * nat :=
  let '(rerankedNodes, calls) := st in
  let '(walkScores, calls') :=
    randomWalkWithRestart Math_random g
      (GraphNode.id (Similarity.node top)) randomWalkSteps restartProb calls in
  (fold_left (accumulate g (Similarity.similarity top)) walkScores
             rerankedNodes,
   calls').

Definition toRanked (item : Reranked.t) : result RankedNode.t :=
  match Reranked.node item with
  | None => Throw (TypeError "Cannot read properties of undefined (reading 'id')")
  | Some node =>
      Ok {| RankedNode.id := GraphNode.id node;
            RankedNode.content := GraphNode.content node;
            RankedNode.metadata := GraphNode.metadata node;
            RankedNode.score := Reranked.score item |}
  end.

(** [query({ query, topK, randomWalkSteps, restartProb })]; the second
    component is the number of [Math.random()] calls made so far. *)
Definition query (g : t) (query : list float) (topK randomWalkSteps : nat)
    (restartProb : float) (calls : nat)
  : result (list RankedNode.t) * nat :=
  if negb (List.length query =? dimension g)%nat then
    (Throw (Error ("Query embedding must have dimension "
                     ++ index_toString (dimension g))), calls)
  else
    match JsArray.mapM
            (fun node =>
               similarity <- cosineSimilarity (Some query)
                                              (GraphNode.embedding node) ;;
               Ok {| Similarity.node := node;
                     Similarity.similarity := similarity |})
            (JsMap.values (nodes g)) with
    | Throw e => (Throw e, calls)
    | Ok similarities =>
        let sorted :=
          JsArray.sort
            (fun a b => Similarity.similarity b - Similarity.similarity a)
            similarities in
        let topNodes := JsArray.slice0 topK sorted in
        let '(rerankedNodes, calls') :=
          fold_left (rerankFrom g randomWalkSteps restartProb) topNodes
                    (JsMap.empty, calls) in
        (JsArray.mapM toRanked
           (JsArray.slice0 topK
              (JsArray.sort
                 (fun a b => Reranked.score b - Reranked.score a)
                 (JsMap.values rerankedNodes))),
         calls')
    end.
End Query.
End GraphRAG.

(* ================================================================== *)
(** * Built-ins and external collaborators *)

(** Built-in functions of the language whose results the tools only pass
    along; they are left uninterpreted. *)
Record Builtins : Type := {
  Number_toString : float -> string;     (* String(n), `${n}` *)
  StringToNumber : string -> float;      (* ToNumber of a string *)
  Date_parse : string -> float;          (* time value of new Date(s) *)
  TimeClip : float -> float;             (* time value of new Date(n) *)
  Math_log10 : float -> float
}.

Module QueryArgs.
(** The argument of [pgVector.query]. *)
Record t : Type := {
  indexName : string;
  queryVector : list float;
  filter : value;
  topK : nat;
  includeVector : bool
}.
End QueryArgs.

Module QueryResult.
(** One row returned by [pgVector.query]; [vector] is present when the
    query asked for it. *)
Record t : Type := {
  id : string;
  score : float;
  metadata : value;
  vector : option (list float)
}.
End QueryResult.

(* ================================================================== *)
(** * [youtubeGraphRAGTool] and its [graphCache] *)

Module GraphTool.
Local Open Scope float_scope.

(** A [GraphRAG] object: [address] is its identity (the rank of its
    allocation), [object] its fields. *)
Module GraphObject.
Record t : Type := { address : nat; object : GraphRAG.t }.
End GraphObject.

(** The [GraphCache] interface. *)
Module GraphCache.
Record t : Type := {
  graph : GraphObject.t;
  indexName : string;
  createdAt : float;         (* time value of the [Date] *)
  nodeCount : nat
}.
End GraphCache.

Definition CACHE_TTL_MS : float := 30 * 60 * 1000.

(** Process-wide state: the [graphCache] map, the number of [GraphRAG]
    objects allocated so far and the number of [Math.random()] calls made
    so far. *)
Module World.
Record t : Type := {
  graphCache : JsMap.t GraphCache.t;
  allocations : nat;
  randomCalls : nat
}.
End World.

(** What one invocation gets from outside. *)
Module Host.
Record t : Type := {
  POSTGRES_CONNECTION_STRING : option string;
  embed : string -> result (list float);
  pgVector_query : QueryArgs.t -> result (list QueryResult.t);
  new_Date : float;          (* [new Date()] at the cache check *)
  buildStart : float;        (* first [Date.now()] *)
  buildEnd : float;          (* second [Date.now()] *)
  Math_random : nat -> float
}.
End Host.

(** The tool's [context] with the schema defaults applied. *)
Module Context.
Record t : Type := {
  queryText : string;
  indexName : string;
  topK : nat;
  filter : value;
  randomWalkSteps : nat;
  restartProb : float;
  threshold : float;
  maxGraphNodes : nat;
  rebuildGraph : bool
}.
End Context.

Module Source.
Record t : Type := {
  id : string;
  score : float;
  graphScore : float;
  metadata : value;
  text : value
}.
End Source.

Module GraphStats.
Record t : Type := {
  nodeCount : nat;
  edgeCount : nat;
  cacheHit : bool;
  buildTimeMs : option float
}.
End GraphStats.

Module Output.
Record t : Type := {
  relevantContext : list value;
  sources : list Source.t;
  graphStats : GraphStats.t
}.
End Output.

(** How the graph of an invocation was obtained (lines "Check cache" to
    "Cache the graph"). *)
Inductive Acquired : Type :=
| Cached (graphRAG : GraphObject.t)                       (* cacheHit = true *)
| Built (graphRAG : GraphObject.t) (buildTimeMs : float)  (* stored, cacheHit = false *)
| NoResults.                                              (* early return *)

Section Tool.
Variable B : Builtins.

Definition cacheKey (indexName : string) (threshold : float) : string :=
  indexName ++ "_" ++ Number_toString B threshold.

Definition isCacheValid (cachedGraph : option GraphCache.t)
    (rebuildGraph : bool) (now : float) : bool :=
  match cachedGraph with
  | None => false
  | Some cachedGraph =>
      negb rebuildGraph
      && (now - GraphCache.createdAt cachedGraph <? CACHE_TTL_MS)
  end.

Definition toChunk (r : QueryResult.t) : GraphChunk.t :=
  {| GraphChunk.text :=
       orElse (orElse (optField (QueryResult.metadata r) "text")
                      (optField (QueryResult.metadata r) "chapterText"))
              (VStr "");
     GraphChunk.metadata := orElse (QueryResult.metadata r) (VObj []) |}.

Definition toEmbedding (r : QueryResult.t) : GraphEmbedding.t :=
  {| GraphEmbedding.vector :=
       match QueryResult.vector r with Some v => v | None => [] end |}.

(** The [else] branch of the cache check, "Build new graph": fetch the
    candidates with their vectors, build the graph, store it. *)
Definition build (h : Host.t) (c : Context.t) (queryEmbedding : list float)
    (w : World.t) : result Acquired * World.t :=
  let cacheKey := cacheKey (Context.indexName c) (Context.threshold c) in
  let now := Host.new_Date h in
  match Host.pgVector_query h
          {| QueryArgs.indexName := Context.indexName c;
             QueryArgs.queryVector := queryEmbedding;
             QueryArgs.filter := Context.filter c;
             QueryArgs.topK := Context.maxGraphNodes c;
             QueryArgs.includeVector := true |} with
  | Throw e => (Throw e, w)
  | Ok graphResults =>
      if (List.length graphResults =? 0)%nat then (Ok NoResults, w)
      else
        let chunks := map toChunk graphResults in
        let embeddings := map toEmbedding graphResults in
        let w1 := {| World.graphCache := World.graphCache w;
                     World.allocations := S (World.allocations w);
                     World.randomCalls := World.randomCalls w |} in
        match GraphRAG.createGraph (GraphRAG.new 1536 (Context.threshold c))
                                   chunks embeddings with
        | Throw e => (Throw e, w1)
        | Ok g =>
            let graphRAG := {| GraphObject.address := World.allocations w;
                               GraphObject.object := g |} in
            let buildTimeMs := Host.buildEnd h - Host.buildStart h in
            (Ok (Built graphRAG buildTimeMs),
             {| World.graphCache :=
                  JsMap.set cacheKey
                    {| GraphCache.graph := graphRAG;
                       GraphCache.indexName := Context.indexName c;
                       GraphCache.createdAt := now;
                       GraphCache.nodeCount := GraphRAG.getNodeCount g |}
                    (World.graphCache w);
                World.allocations := S (World.allocations w);
                World.randomCalls := World.randomCalls w |})
        end
  end.

(** The cache check: [if (isCacheValid && cachedGraph) ... else ...]. *)
Definition acquire (h : Host.t) (c : Context.t) (queryEmbedding : list float)
    (w : World.t) : result Acquired * World.t :=
  let cacheKey := cacheKey (Context.indexName c) (Context.threshold c) in
  let now := Host.new_Date h in
  let cachedGraph := JsMap.get cacheKey (World.graphCache w) in
  match isCacheValid cachedGraph (Context.rebuildGraph c) now, cachedGraph with
  | true, Some cachedGraph => (Ok (Cached (GraphCache.graph cachedGraph)), w)
  | _, _ => build h c queryEmbedding w
  end.

Definition toSource (r : RankedNode.t) : Source.t :=
  {| Source.id := RankedNode.id r;
     Source.score := RankedNode.score r;
     Source.graphScore := RankedNode.score r;
     Source.metadata := orElse (RankedNode.metadata r) (VObj []);
     Source.text := RankedNode.content r |}.

(** "Query the graph" and "Format results". *)
Definition answer (h : Host.t) (c : Context.t) (queryEmbedding : list float)
    (graphRAG : GraphObject.t) (cacheHit : bool) (buildTimeMs : option float)
    (w : World.t) : result Output.t * World.t :=
  let g := GraphObject.object graphRAG in
  let '(rerankedResults, calls) :=
    GraphRAG.query (Host.Math_random h) g queryEmbedding (Context.topK c)
      (Context.randomWalkSteps c) (Context.restartProb c)
      (World.randomCalls w) in
  let w' := {| World.graphCache := World.graphCache w;
               World.allocations := World.allocations w;
               World.randomCalls := calls |} in
  match rerankedResults with
  | Throw e => (Throw e, w')
  | Ok rerankedResults =>
      (Ok {| Output.relevantContext :=
               map (fun r => orElse (RankedNode.metadata r) (VObj []))
                   rerankedResults;
             Output.sources := map toSource rerankedResults;
             Output.graphStats :=
               {| GraphStats.nodeCount := GraphRAG.getNodeCount g;
                  GraphStats.edgeCount := GraphRAG.getEdgeCount g;
                  GraphStats.cacheHit := cacheHit;
                  GraphStats.buildTimeMs := buildTimeMs |} |},
       w')
  end.

Definition emptyOutput : Output.t :=
  {| Output.relevantContext := [];
     Output.sources := [];
     Output.graphStats :=
       {| GraphStats.nodeCount := 0; GraphStats.edgeCount := 0;
          GraphStats.cacheHit := false; GraphStats.buildTimeMs := Some 0 |} |}.

(** [execute]: the [catch] block logs and rethrows, so a thrown error is
    the result as it is. *)
Definition execute (h : Host.t) (c : Context.t) (w : World.t)
  : result Output.t * World.t :=
  match Host.POSTGRES_CONNECTION_STRING h with
  | None | Some "" => (Throw (Error "POSTGRES_CONNECTION_STRING is not set"), w)
  | Some _ =>
      match Host.embed h (Context.queryText c) with
      | Throw e => (Throw e, w)
      | Ok queryEmbedding =>
          match acquire h c queryEmbedding w with
          | (Throw e, w') => (Throw e, w')
          | (Ok NoResults, w') => (Ok emptyOutput, w')
          | (Ok (Cached graphRAG), w') =>
              answer h c queryEmbedding graphRAG true None w'
          | (Ok (Built graphRAG buildTimeMs), w') =>
              answer h c queryEmbedding graphRAG false (Some buildTimeMs) w'
          end
      end
  end.

(** [clearGraphCache(indexName?)]; [None] is the call without argument. *)
Definition clearGraphCache (indexName : option string)
    (graphCache : JsMap.t GraphCache.t) : JsMap.t GraphCache.t :=
  match indexName with
  | None | Some "" => JsMap.empty
  | Some indexName =>
      filter (fun entry => negb (String.prefix indexName (fst entry)))
             graphCache
  end.
End Tool.
End GraphTool.

(* ================================================================== *)
(** * Strings and coercions used by the hybrid tool *)

Module JsString.
(** Strings are sequences of 8-bit characters; case mapping and white
    space are those of ASCII. *)
Definition lowerChar (c : ascii) : ascii :=
  let n := nat_of_ascii c in
  if (65 <=? n)%nat && (n <=? 90)%nat then ascii_of_nat (n + 32) else c.

Fixpoint toLowerCase (s : string) : string :=
  match s with
  | EmptyString => EmptyString
  | String c s' => String (lowerChar c) (toLowerCase s')
  end.

(** The class [\s]: tab, line feed, vertical tab, form feed, carriage
    return, space. *)
Definition isSpace (c : ascii) : bool :=
  let n := nat_of_ascii c in
  ((9 <=? n)%nat && (n <=? 13)%nat) || (n =? 32)%nat.

(** [s.split(/\s+/)], scanning [s] with the word read so far; [inRun]
    says that the previous character was white space. *)
Fixpoint splitFrom (inRun : bool) (word : string) (s : string) : list string :=
  match s with
  | EmptyString => [word]
  | String c s' =>
      if isSpace c then
        if inRun then splitFrom true word s'
        else word :: splitFrom true "" s'
      else splitFrom false (word ++ String c "") s'
  end.

Definition splitSpaces (s : string) : list string := splitFrom false "" s.

(** [s.includes(sub)] *)
Fixpoint includes (s sub : string) : bool :=
  String.prefix sub s
  || match s with
     | EmptyString => false
     | String _ s' => includes s' sub
     end.
End JsString.

Module Coerce.
Local Open Scope float_scope.

Section Coerce.
Variable B : Builtins.

(** [String(v)] and [`${v}`] *)
Fixpoint String_ (v : value) : string :=
  match v with
  | VUndefined => "undefined"
  | VNull => "null"
  | VBool true => "true"
  | VBool false => "false"
  | VNum n => Number_toString B n
  | VStr s => s
  | VArr items =>
      String.concat ","
        (map (fun item =>
                match item with
                | VUndefined | VNull => ""
                | _ => String_ item
                end) items)
  | VObj _ => "[object Object]"
  end.

(** [ToNumber(v)] *)
Definition toNumber (v : value) : float :=
  match v with
  | VUndefined => nan
  | VNull => 0
  | VBool true => 1
  | VBool false => 0
  | VNum n => n
  | VStr s => StringToNumber B s
  | VArr _ | VObj _ => StringToNumber B (String_ v)
  end.

(** [v + 1]: concatenation when [v] is, or converts to, a string. *)
Definition plusOne (v : value) : value :=
  match v with
  | VStr s => VStr (s ++ "1")
  | VArr _ | VObj _ => VStr (String_ v ++ "1")
  | _ => VNum (toNumber v + 1)
  end.

(** [new Date(v).getTime()]: NaN for an invalid date. *)
Definition Date_getTime (v : value) : float :=
  match v with
  | VUndefined => nan
  | VNull | VBool _ | VNum _ => TimeClip B (toNumber v)
  | VStr s => Date_parse B s
  | VArr _ | VObj _ => Date_parse B (String_ v)
  end.
End Coerce.

(** A count as a number. *)
Definition ofNat (n : nat) : float := of_uint63 (Uint63.of_Z (Z.of_nat n)).
End Coerce.

(* ================================================================== *)
(** * [youtubeHybridVectorQueryTool] *)

Module HybridTool.
Local Open Scope float_scope.

(** What [buildFilterQuery] returns. *)
Module Compiled.
Record t : Type := {
  query : string;
  params : list value;
  nextIndex : nat
}.
End Compiled.

(** The three variables [buildFilterQuery] updates: [conditions],
    [params] and [currentIndex]. *)
Module Acc.
Record t : Type := {
  conditions : list string;
  params : list value;
  currentIndex : nat
}.
End Acc.

(** [`$${n}`] *)
Definition placeholder (n : nat) : string := "$" ++ index_toString n.

(** [conditions.push(c); params.push(...ps); currentIndex += k] *)
Definition emit (c : string) (ps : list value) (k : nat) (acc : Acc.t) : Acc.t :=
  {| Acc.conditions := Acc.conditions acc ++ [c];
     Acc.params := Acc.params acc ++ ps;
     Acc.currentIndex := Acc.currentIndex acc + k |}.

(** [val[i]] for [i] = 0, 1; reading an index of [null] or [undefined]
    throws. *)
Definition at_ (val : value) (i : nat) : result value :=
  match val with
  | VUndefined | VNull => Throw (TypeError "Cannot read properties of undefined")
  | VArr items => Ok (nth i items VUndefined)
  | VStr s => Ok (nth i (chars s) VUndefined)
  | VObj props => Ok (lookup (index_toString i) props)
  | VBool _ | VNum _ => Ok VUndefined
  end.

Section Filter.
Variable B : Builtins.

Definition jsonPath (key : string) : string := "metadata->>'" ++ key ++ "'".

(** The [switch (op)] of the field-level branch; it has no [default]. *)
Definition processOperator (key : string) (acc : Acc.t)
    (entry : string * value) : result Acc.t :=
  let '(op, val) := entry in
  let jsonPath := jsonPath key in
  let i := Acc.currentIndex acc in
  if String.eqb op "$eq" then
    Ok (emit (jsonPath ++ " = " ++ placeholder i)
             [VStr (Coerce.String_ B val)] 1 acc)
  else if String.eqb op "$ne" then
    Ok (emit (jsonPath ++ " != " ++ placeholder i)
             [VStr (Coerce.String_ B val)] 1 acc)
  else if String.eqb op "$gt" then
    Ok (emit ("CAST(" ++ jsonPath ++ " AS NUMERIC) > " ++ placeholder i)
             [val] 1 acc)
  else if String.eqb op "$gte" then
    Ok (emit ("CAST(" ++ jsonPath ++ " AS NUMERIC) >= " ++ placeholder i)
             [val] 1 acc)
  else if String.eqb op "$lt" then
    Ok (emit ("CAST(" ++ jsonPath ++ " AS NUMERIC) < " ++ placeholder i)
             [val] 1 acc)
  else if String.eqb op "$lte" then
    Ok (emit ("CAST(" ++ jsonPath ++ " AS NUMERIC) <= " ++ placeholder i)
             [val] 1 acc)
  else if String.eqb op "$in" then
    match val with
    | VArr items =>
        let inPlaceholders :=
          map (fun '(k, _) => placeholder (i + k)) (indexed items) in
        Ok (emit (jsonPath ++ " IN (" ++ String.concat ", " inPlaceholders ++ ")")
                 items (List.length items) acc)
    | _ => Throw (TypeError "val.map is not a function")
    end
  else if String.eqb op "$between" then
    lower <- at_ val 0 ;;
    upper <- at_ val 1 ;;
    Ok (emit ("CAST(" ++ jsonPath ++ " AS NUMERIC) BETWEEN " ++ placeholder i
                ++ " AND " ++ placeholder (i + 1))
             [lower; upper] 2 acc)
  else if String.eqb op "$contains" then
    Ok (emit (jsonPath ++ " LIKE " ++ placeholder i)
             [VStr ("%" ++ Coerce.String_ B val ++ "%")] 1 acc)
  else if String.eqb op "$startsWith" then
    Ok (emit (jsonPath ++ " LIKE " ++ placeholder i)
             [VStr (Coerce.String_ B val ++ "%")] 1 acc)
  else if String.eqb op "$endsWith" then
    Ok (emit (jsonPath ++ " LIKE " ++ placeholder i)
             [VStr ("%" ++ Coerce.String_ B val)] 1 acc)
  else Ok acc.

(** The part of [processFilter] below the logical operators: the
    field-level operators of an object value, and simple equality for
    any other value. *)
Definition processField (key : string) (value : value) (acc : Acc.t)
  : result Acc.t :=
  match value with
  | VObj props => foldM (processOperator key) props acc
  | _ =>
      Ok (emit ("metadata->>'" ++ key ++ "' = " ++ placeholder (Acc.currentIndex acc))
               [VStr (Coerce.String_ B value)] 1 acc)
  end.

Section Process.
(** The recursive call [buildFilterQuery(subFilter, currentIndex)]. *)
Variable recur : value -> nat -> result Compiled.t.

(** Callback of [value.map(...)] under [$and] and [$or]: the state is
    the list of parenthesised sub-queries with [params] and
    [currentIndex]. *)
Definition compileSub (st : list string * Acc.t) (subFilter : value)
  : result (list string * Acc.t) :=
  let '(subConditions, acc) := st in
  r <- recur subFilter (Acc.currentIndex acc) ;;
  Ok (subConditions ++ [("(" ++ Compiled.query r ++ ")")%string],
      {| Acc.conditions := Acc.conditions acc;
         Acc.params := Acc.params acc ++ Compiled.params r;
         Acc.currentIndex := Compiled.nextIndex r |}).

Definition processLogical (connective : string) (value : value)
    (acc : Acc.t) : result Acc.t :=
  match value with
  | VArr items =>
      '(subConditions, acc') <- foldM compileSub items ([], acc) ;;
      Ok {| Acc.conditions :=
              Acc.conditions acc'
                ++ [("(" ++ String.concat connective subConditions ++ ")")%string];
            Acc.params := Acc.params acc';
            Acc.currentIndex := Acc.currentIndex acc' |}
  | _ => Throw (TypeError "value.map is not a function")
  end.

Definition processFilter (acc : Acc.t) (entry : string * value)
  : result Acc.t :=
  let '(key, value) := entry in
  if String.eqb key "$and" then processLogical " AND " value acc
  else if String.eqb key "$or" then processLogical " OR " value acc
  else if String.eqb key "$not" then
    r <- recur value (Acc.currentIndex acc) ;;
    Ok {| Acc.conditions :=
            Acc.conditions acc ++ [("NOT (" ++ Compiled.query r ++ ")")%string];
          Acc.params := Acc.params acc ++ Compiled.params r;
          Acc.currentIndex := Compiled.nextIndex r |}
  else processField key value acc.
End Process.

Definition start (paramIndex : nat) : Acc.t :=
  {| Acc.conditions := []; Acc.params := []; Acc.currentIndex := paramIndex |}.

Definition finish (acc : Acc.t) : Compiled.t :=
  {| Compiled.query := String.concat " AND " (Acc.conditions acc);
     Compiled.params := Acc.params acc;
     Compiled.nextIndex := Acc.currentIndex acc |}.

(** [buildFilterQuery(filter, paramIndex)].  The entries of an array or
    of a string have index keys, never a logical operator, so
    [processFilter] is [processField] on them. *)
Fixpoint buildFilterQuery (filter : value) (paramIndex : nat) {struct filter}
  : result Compiled.t :=
  match filter with
  | VUndefined | VNull =>
      Throw (TypeError "Cannot convert undefined or null to object")
  | VObj props =>
      acc <- foldM (processFilter buildFilterQuery) props (start paramIndex) ;;
      Ok (finish acc)
  | _ =>
      acc <- foldM (fun acc '(key, value) => processField key value acc)
                   (own_entries filter) (start paramIndex) ;;
      Ok (finish acc)
  end.
End Filter.

(** What one invocation gets from outside; [new_Date k] is the time value
    of the [k]-th [new Date()] of the invocation ([calculateHybridScore]
    reads the clock once per candidate). *)
Module Host.
Record t : Type := {
  POSTGRES_CONNECTION_STRING : option string;
  embed : string -> result (list float);
  pgVector_query : QueryArgs.t -> result (list QueryResult.t);
  new_Date : nat -> float
}.
End Host.

(** The tool's [context] with the schema defaults applied; [filter] is
    [VUndefined] when absent. *)
Module Context.
Record t : Type := {
  queryText : string;
  indexName : string;
  topK : nat;
  filter : value;
  scoringWeights : Weights float;
  includeScore : bool
}.
End Context.

Definition defaultWeights : Weights float :=
  {| w_vector := 0.6; w_freshness := 0.2; w_popularity := 0.15; w_tags := 0.05 |}.

Module Scored.
(** [{ ...result, hybridScore }] *)
Record t : Type := { result : QueryResult.t; hybridScore : float }.
End Scored.

Module Source.
Record t : Type := {
  id : string;
  score : float;
  hybridScore : option float;
  metadata : value;
  text : value;
  matchedFilters : option (list string)
}.
End Source.

Module QueryMetadata.
Record t : Type := {
  indexName : string;
  totalResults : nat;
  filtersApplied : nat;
  scoringMethod : string
}.
End QueryMetadata.

Module Output.
Record t : Type := {
  relevantContext : list value;
  sources : list Source.t;
  queryMetadata : QueryMetadata.t
}.
End Output.

Section Scorer.
Variable B : Builtins.

Definition MS_PER_DAY : float := 1000 * 60 * 60 * 24.

(** [daysSincePublished] *)
Definition daysSince (now published : float) : float :=
  (now - published) / MS_PER_DAY.

(** [Math.max(0, 1 - (daysSincePublished / 365))] *)
Definition freshness (daysSincePublished : float) : float :=
  F64.max 0 (1 - daysSincePublished / 365).

Definition freshnessScore (now : float) (metadata : value) : result float :=
  publishedAt <- field metadata "publishedAt" ;;
  Ok (freshness (daysSince now (Coerce.Date_getTime B publishedAt))).

Definition popularityScore (metadata : value) : result float :=
  viewCount <- field metadata "viewCount" ;;
  let viewCount := orElse viewCount (VNum 0) in
  if 0 <? Coerce.toNumber B viewCount then
    Ok (F64.min 1
          (Math_log10 B (Coerce.toNumber B (Coerce.plusOne B viewCount)) / 6))
  else Ok 0.

(** [t.toLowerCase()] on an element of [tags]. *)
Definition lowerTag (t : value) : result string :=
  match t with
  | VStr s => Ok (JsString.toLowerCase s)
  | VUndefined | VNull =>
      Throw (TypeError "Cannot read properties of undefined (reading 'toLowerCase')")
  | _ => Throw (TypeError "t.toLowerCase is not a function")
  end.

Definition tagScore (metadata : value) (queryText : string) : result float :=
  let queryWords := JsString.splitSpaces (JsString.toLowerCase queryText) in
  tags <- field metadata "tags" ;;
  tags <- match orElse tags (VArr []) with
          | VArr items => JsArray.mapM lowerTag items
          | _ => Throw (TypeError "(metadata.tags || []).map is not a function")
          end ;;
  let tagMatches :=
    List.length
      (filter (fun word =>
                 existsb (fun tag => JsString.includes tag word
                                     || JsString.includes word tag) tags)
              queryWords) in
  Ok (if (0 <? List.length queryWords)%nat
      then Coerce.ofNat tagMatches / Coerce.ofNat (List.length queryWords)
      else 0).

(** [calculateHybridScore]; [now] is the time value of its [new Date()]. *)
Definition calculateHybridScore (now : float) (vectorScore : float)
    (metadata : value) (queryText : string) (weights : Weights float)
  : result float :=
  freshnessScore <- freshnessScore now metadata ;;
  popularityScore <- popularityScore metadata ;;
  tagScore <- tagScore metadata queryText ;;
  Ok (Generic.weightedSum F64.arith weights vectorScore freshnessScore
                  popularityScore tagScore).

(** Callback of [results.map(...)], with the rank of the candidate. *)
Definition scoreResult (h : Host.t) (c : Context.t)
    (entry : nat * QueryResult.t) : result Scored.t :=
  let '(k, r) := entry in
  hybridScore <- calculateHybridScore (Host.new_Date h k)
                   (QueryResult.score r) (QueryResult.metadata r)
                   (Context.queryText c) (Context.scoringWeights c) ;;
  Ok {| Scored.result := r; Scored.hybridScore := hybridScore |}.

(** [Object.keys(filter)] of a truthy filter. *)
Definition Object_keys (filter : value) : list string :=
  map fst (own_entries filter).

Definition toSource (c : Context.t) (s : Scored.t) : Source.t :=
  let r := Scored.result s in
  {| Source.id := QueryResult.id r;
     Source.score := if Context.includeScore c then QueryResult.score r else 0;
     Source.hybridScore :=
       if Context.includeScore c then Some (Scored.hybridScore s) else None;
     Source.metadata := QueryResult.metadata r;
     Source.text :=
       orElse (orElse (optField (QueryResult.metadata r) "text")
                      (optField (QueryResult.metadata r) "chapterText"))
              (VStr "");
     Source.matchedFilters :=
       if truthy (Context.filter c)
       then Some (Object_keys (Context.filter c)) else None |}.

(** "Build filter conditions": the filter handed to the store and the
    count of filters applied. *)
Definition filterConditions (filter : value) : result (value * nat) :=
  if truthy filter then
    filterResult <- buildFilterQuery B filter 1%nat ;;
    if negb (String.eqb (Compiled.query filterResult) "")
    then Ok (filter, List.length (Object_keys filter))
    else Ok (VObj [], 0%nat)
  else Ok (VObj [], 0%nat).

(** The argument of the tool's one call of [pgVector.query]. *)
Definition storeQuery (c : Context.t) (embedding : list float)
    (filterConditions : value) : QueryArgs.t :=
  {| QueryArgs.indexName := Context.indexName c;
     QueryArgs.queryVector := embedding;
     QueryArgs.filter := filterConditions;
     QueryArgs.topK := (Context.topK c * 2)%nat;
     QueryArgs.includeVector := false |}.

(** "Sort by hybrid score and take top K" *)
Definition rank (topK : nat) (scoredResults : list Scored.t) : list Scored.t :=
  JsArray.slice0 topK
    (JsArray.sort (fun a b => Scored.hybridScore b - Scored.hybridScore a)
                  scoredResults).

(** [execute]: the [catch] block logs and rethrows. *)
Definition execute (h : Host.t) (c : Context.t) : result Output.t :=
  match Host.POSTGRES_CONNECTION_STRING h with
  | None | Some "" => Throw (Error "POSTGRES_CONNECTION_STRING is not set")
  | Some _ =>
      embedding <- Host.embed h (Context.queryText c) ;;
      '(filterConditions, appliedFilters) <- filterConditions (Context.filter c) ;;
      results <- Host.pgVector_query h (storeQuery c embedding filterConditions) ;;
      scoredResults <- JsArray.mapM (scoreResult h c) (indexed results) ;;
      let topResults := rank (Context.topK c) scoredResults in
      let sources := map (toSource c) topResults in
      Ok {| Output.relevantContext :=
              map (fun s => QueryResult.metadata (Scored.result s)) topResults;
            Output.sources := sources;
            Output.queryMetadata :=
              {| QueryMetadata.indexName := Context.indexName c;
                 QueryMetadata.totalResults := List.length sources;
                 QueryMetadata.filtersApplied := appliedFilters;
                 QueryMetadata.scoringMethod := "hybrid" |} |}
  end.
End Scorer.
End HybridTool.

(* ================================================================== *)
(** * [youtubeChapterChunkerTool] *)

Module Chunker.
Local Open Scope float_scope.

(** An element of [chapters]. *)
Module Chapter.
Record t : Type := {
  timestamp : string;
  title : string;
  startTime : float;
  endTime : float;
  transcript : string;
  keywords : list string
}.
End Chapter.

(** The value of [chunkingConfigSchema.parse(config)]; [llm] is
    [VUndefined] when absent. *)
Module Config.
Record t : Type := {
  threshold : float;
  size : float;
  overlap : float;
  extractKeywords : bool;
  extractSummary : bool;
  llm : value
}.
End Config.

(** [llm || openai('gpt-4.1-nano')] *)
Inductive Llm : Type :=
| Configured (llm : value)
| openai_gpt_4_1_nano.

Module SummaryParams.
Record t : Type := {
  summaries : list string;
  promptTemplate : string;
  llm : Llm
}.
End SummaryParams.

(** [extractParams]: [keywords] is [true] or absent, [summary] an object
    or absent. *)
Module ExtractParams.
Record t : Type := {
  keywords : bool;
  summary : option SummaryParams.t
}.
End ExtractParams.

(** The first element of [extracted.getMetadata()], as far as the tool
    reads it. *)
Module Extracted.
Record t : Type := {
  keywords : option (list string);
  sectionSummary : option string
}.
End Extracted.

(** What the tool gets from outside: the schema library, and the document
    library with the language model behind it.  [extractMetadata i text
    params] is the outcome, for the chapter of index [i], of
    [MDocument.fromText(text).extractMetadata(params)] followed by
    [getMetadata()[0]] ([None] for [undefined]). *)
Module Host.
Record t : Type := {
  chunkingConfigSchema_parse : value -> result Config.t;
  extractMetadata :
    nat -> string -> ExtractParams.t -> result (option Extracted.t);
  Math_round : float -> float
}.
End Host.

(** The tool's [context]; [config] is [VUndefined] when absent. *)
Module Context.
Record t : Type := {
  videoTitle : option string;
  chapters : list Chapter.t;
  config : value
}.
End Context.

Module ChunkMetadata.
Record t : Type := {
  videoTitle : string;
  chapterTitle : string;
  isFullChapter : bool;
  totalChunksInChapter : nat;
  originalChapterLength : nat
}.
End ChunkMetadata.

Module Chunk.
Record t : Type := {
  id : string;
  chapterIndex : nat;
  chunkIndex : nat;
  timestamp : string;
  title : string;
  startTime : float;
  endTime : float;
  text : string;
  keywords : list string;
  summary : option string;
  metadata : ChunkMetadata.t
}.
End Chunk.

Module Stats.
Record t : Type := {
  totalChapters : nat;
  totalChunks : nat;
  chaptersChunked : nat;
  averageChunkSize : float
}.
End Stats.

Module Output.
Record t : Type := { chunks : list Chunk.t; stats : Stats.t }.
End Output.

(** The class [[a-z0-9]]. *)
Definition isSlugChar (c : ascii) : bool :=
  let n := nat_of_ascii c in
  ((97 <=? n)%nat && (n <=? 122)%nat) || ((48 <=? n)%nat && (n <=? 57)%nat).

Definition isDash (c : ascii) : bool := Ascii.eqb c "-"%char.

(** [s.replace(/[^a-z0-9]+/g, '-')]: every maximal run of other
    characters becomes one dash; [inRun] says that the previous character
    was in such a run. *)
Fixpoint replaceRuns (inRun : bool) (s : string) : string :=
  match s with
  | EmptyString => EmptyString
  | String c s' =>
      if isSlugChar c then String c (replaceRuns false s')
      else if inRun then replaceRuns true s'
      else String "-"%char (replaceRuns true s')
  end.

Fixpoint dropLeadingDashes (s : string) : string :=
  match s with
  | String c s' => if isDash c then dropLeadingDashes s' else s
  | EmptyString => EmptyString
  end.

Fixpoint allDashes (s : string) : bool :=
  match s with
  | EmptyString => true
  | String c s' => isDash c && allDashes s'
  end.

Fixpoint dropTrailingDashes (s : string) : string :=
  match s with
  | EmptyString => EmptyString
  | String c s' => if allDashes s then EmptyString
                   else String c (dropTrailingDashes s')
  end.

(** [s.replace(/^-+|-+$/g, '')]: the run of dashes at the start and the
    run of dashes at the end are removed. *)
Definition trimDashes (s : string) : string :=
  dropTrailingDashes (dropLeadingDashes s).

(** [title.toLowerCase().replace(...).replace(...).substring(0, 50)] *)
Definition slugify (title : string) : string :=
  String.substring 0 50
    (trimDashes (replaceRuns false (JsString.toLowerCase title))).

(** [arr.indexOf(k)]; [None] stands for [-1]. *)
Fixpoint indexOf (k : string) (arr : list string) : option nat :=
  match arr with
  | [] => None
  | x :: arr' => if String.eqb x k then Some 0%nat
                 else option_map S (indexOf k arr')
  end.

(** [arr.filter((k, i, arr) => arr.indexOf(k) === i)] *)
Definition unique (arr : list string) : list string :=
  map snd
      (filter (fun '(i, k) =>
                 match indexOf k arr with
                 | Some j => (j =? i)%nat
                 | None => false
                 end)
              (indexed arr)).

Definition extractParams (config : Config.t) : ExtractParams.t :=
  {| ExtractParams.keywords := Config.extractKeywords config;
     ExtractParams.summary :=
       if Config.extractSummary config then
         Some {| SummaryParams.summaries := ["self"];
                 SummaryParams.promptTemplate :=
                   "Summarize this text in 150 characters or less: {context}";
                 SummaryParams.llm :=
                   if truthy (Config.llm config)
                   then Configured (Config.llm config)
                   else openai_gpt_4_1_nano |}
       else None |}.

(** "Extract additional metadata if enabled": the pair
    [(additionalKeywords, summary)]. *)
Definition extract (h : Host.t) (config : Config.t) (chapterIndex : nat)
    (chapter : Chapter.t) : result (list string * option string) :=
  if (Config.extractKeywords config || Config.extractSummary config)
     && (100 <? String.length (Chapter.transcript chapter))%nat
  then
    metadata <- Host.extractMetadata h chapterIndex (Chapter.transcript chapter)
                                     (extractParams config) ;;
    match metadata with
    | Some metadata =>
        Ok (match Extracted.keywords metadata with
            | Some keywords => keywords
            | None => []
            end,
            Extracted.sectionSummary metadata)
    | None => Ok ([], None)
    end
  else Ok ([], None).

(** [videoTitle || 'Unknown Video'] *)
Definition titleOrUnknown (videoTitle : option string) : string :=
  match videoTitle with
  | None | Some "" => "Unknown Video"
  | Some videoTitle => videoTitle
  end.

(** One iteration of the [for (chapterIndex ...)] loop: the state is
    [(chunks, totalTextLength)]. *)
Definition chunkChapter (h : Host.t) (videoTitle : option string)
    (config : Config.t) (st : list Chunk.t * nat) (entry : nat * Chapter.t)
  : result (list Chunk.t * nat) :=
  let '(chunks, totalTextLength) := st in
  let '(chapterIndex, chapter) := entry in
  let chapterLength := String.length (Chapter.transcript chapter) in
  let slugifiedTitle := slugify (Chapter.title chapter) in
  '(additionalKeywords, summary) <- extract h config chapterIndex chapter ;;
  Ok (chunks ++
      [{| Chunk.id := slugifiedTitle ++ "-" ++ index_toString chapterIndex;
          Chunk.chapterIndex := chapterIndex;
          Chunk.chunkIndex := 0;
          Chunk.timestamp := Chapter.timestamp chapter;
          Chunk.title := Chapter.title chapter;
          Chunk.startTime := Chapter.startTime chapter;
          Chunk.endTime := Chapter.endTime chapter;
          Chunk.text := Chapter.transcript chapter;
          Chunk.keywords :=
            unique (Chapter.keywords chapter ++ additionalKeywords)%list;
          Chunk.summary := summary;
          Chunk.metadata :=
            {| ChunkMetadata.videoTitle := titleOrUnknown videoTitle;
               ChunkMetadata.chapterTitle := Chapter.title chapter;
               ChunkMetadata.isFullChapter := true;
               ChunkMetadata.totalChunksInChapter := 1;
               ChunkMetadata.originalChapterLength := chapterLength |} |}],
      (totalTextLength + chapterLength)%nat).

(** [execute]; what it writes to the console is left out. *)
Definition execute (h : Host.t) (c : Context.t) : result Output.t :=
  mergedConfig <-
    Host.chunkingConfigSchema_parse h
      (match Context.config c with
       | VUndefined => VObj []
       | config => config
       end) ;;
  '(chunks, totalTextLength) <-
    foldM (chunkChapter h (Context.videoTitle c) mergedConfig)
          (indexed (Context.chapters c)) ([], 0%nat) ;;
  Ok {| Output.chunks := chunks;
        Output.stats :=
          {| Stats.totalChapters := List.length (Context.chapters c);
             Stats.totalChunks := List.length chunks;
             Stats.chaptersChunked := 0;
             Stats.averageChunkSize :=
               Host.Math_round h
                 (Coerce.ofNat totalTextLength
                  / Coerce.ofNat (List.length chunks)) |} |}.
End Chunker.

(* ================================================================== *)
(** * Search presets ([youtube-search-presets.ts]) *)

Module Presets.
Import HybridTool.
Local Open Scope float_scope.

(** [x = d] in a destructuring pattern: the default stands in for an
    absent ([undefined]) property only. *)
Definition withDefault {A : Type} (x : option A) (d : A) : A :=
  match x with
  | Some x => x
  | None => d
  end.

Module TrendingOptions.
Record t : Type := {
  indexName : string;
  topK : option nat;
  days : option float;
  minViews : option float
}.
End TrendingOptions.

Module TagsOptions.
Record t : Type := {
  indexName : string;
  topK : option nat;
  tags : list string
}.
End TagsOptions.

Module ViralOptions.
Record t : Type := {
  indexName : string;
  topK : option nat;
  minViews : option float;
  minEngagementRate : option float
}.
End ViralOptions.

(** The [scoringWeights] option of the custom preset. *)
Module PartialWeights.
Record t : Type := {
  vector : option float;
  freshness : option float;
  popularity : option float;
  tags : option float
}.
End PartialWeights.

(** [filters] is [VUndefined] when absent. *)
Module CustomOptions.
Record t : Type := {
  indexName : string;
  topK : option nat;
  filters : value;
  scoringWeights : option PartialWeights.t
}.
End CustomOptions.

(** The [context] that [searchTrendingVideos] hands to the hybrid tool.
    [dateThreshold], made of [days], is computed and not used. *)
Definition trendingContext (query : string) (options : TrendingOptions.t)
  : Context.t :=
  let topK := withDefault (TrendingOptions.topK options) 10%nat in
  let minViews := withDefault (TrendingOptions.minViews options) 10000 in
  {| Context.queryText := query;
     Context.indexName := TrendingOptions.indexName options;
     Context.topK := topK;
     Context.filter := VObj [("viewCount", VObj [("$gte", VNum minViews)])];
     Context.scoringWeights :=
       {| w_vector := 0.4; w_freshness := 0.3; w_popularity := 0.25;
          w_tags := 0.05 |};
     Context.includeScore := true |}.

Definition tagsContext (query : string) (options : TagsOptions.t) : Context.t :=
  let topK := withDefault (TagsOptions.topK options) 10%nat in
  {| Context.queryText := query;
     Context.indexName := TagsOptions.indexName options;
     Context.topK := topK;
     Context.filter :=
       VObj [("tags", VObj [("$in", VArr (map VStr (TagsOptions.tags options)))])];
     Context.scoringWeights :=
       {| w_vector := 0.5; w_freshness := 0.1; w_popularity := 0.2;
          w_tags := 0.2 |};
     Context.includeScore := true |}.

Definition viralContext (query : string) (options : ViralOptions.t) : Context.t :=
  let topK := withDefault (ViralOptions.topK options) 10%nat in
  let minViews := withDefault (ViralOptions.minViews options) 100000 in
  let minEngagementRate :=
    withDefault (ViralOptions.minEngagementRate options) 10 in
  {| Context.queryText := query;
     Context.indexName := ViralOptions.indexName options;
     Context.topK := topK;
     Context.filter :=
       VObj [("viewCount", VObj [("$gte", VNum minViews)]);
             ("engagementRate", VObj [("$gte", VNum minEngagementRate)])];
     Context.scoringWeights :=
       {| w_vector := 0.5; w_freshness := 0.05; w_popularity := 0.4;
          w_tags := 0.05 |};
     Context.includeScore := true |}.

(** [scoringWeights.w || d] *)
Definition weightOr (w : option float) (d : float) : float :=
  match w with
  | Some w => F64.orElse w d
  | None => d
  end.

(** "Ensure all weights are defined" *)
Definition completeWeights (scoringWeights : PartialWeights.t) : Weights float :=
  {| w_vector := weightOr (PartialWeights.vector scoringWeights) 0.6;
     w_freshness := weightOr (PartialWeights.freshness scoringWeights) 0.2;
     w_popularity := weightOr (PartialWeights.popularity scoringWeights) 0.15;
     w_tags := weightOr (PartialWeights.tags scoringWeights) 0.05 |}.

Definition customContext (query : string) (options : CustomOptions.t)
  : Context.t :=
  let topK := withDefault (CustomOptions.topK options) 10%nat in
  let filters := match CustomOptions.filters options with
                 | VUndefined => VObj []
                 | filters => filters
                 end in
  let scoringWeights :=
    withDefault (CustomOptions.scoringWeights options)
      {| PartialWeights.vector := Some 0.6;
         PartialWeights.freshness := Some 0.2;
         PartialWeights.popularity := Some 0.15;
         PartialWeights.tags := Some 0.05 |} in
  {| Context.queryText := query;
     Context.indexName := CustomOptions.indexName options;
     Context.topK := topK;
     Context.filter := filters;
     Context.scoringWeights := completeWeights scoringWeights;
     Context.includeScore := true |}.

Section Presets.
Variable B : Builtins.
Variable h : Host.t.

Definition searchTrendingVideos (query : string) (options : TrendingOptions.t)
  : result Output.t :=
  execute B h (trendingContext query options).

Definition searchByTags (query : string) (options : TagsOptions.t)
  : result Output.t :=
  execute B h (tagsContext query options).

Definition searchViralContent (query : string) (options : ViralOptions.t)
  : result Output.t :=
  execute B h (viralContext query options).

Definition searchWithCustomPreset (query : string) (options : CustomOptions.t)
  : result Output.t :=
  execute B h (customContext query options).
End Presets.
End Presets.

(* ================================================================== *)
(** * The search step of the workflow ([executeSearches]) *)

Module Workflow.
Import HybridTool.
Local Open Scope float_scope.

(** An element of [searchStrategies]; [filters] is [VUndefined] when
    absent. *)
Module Strategy.
Record t : Type := {
  indexName : string;
  queries : list string;
  rationale : string;
  filters : value
}.
End Strategy.

(** An element of [allResults]. *)
Module SearchResult.
Record t : Type := {
  query : string;
  indexName : string;
  results : list Source.t
}.
End SearchResult.

(** The [context] of the step's call of the hybrid tool. *)
Definition searchContext (strategy : Strategy.t) (query : string) : Context.t :=
  {| Context.queryText := query;
     Context.indexName := Strategy.indexName strategy;
     Context.topK := 5;
     Context.filter := orElse (Strategy.filters strategy) (VObj []);
     Context.scoringWeights :=
       {| w_vector := 0.6; w_freshness := 0.2; w_popularity := 0.15;
          w_tags := 0.05 |};
     Context.includeScore := true |}.

Section ExecuteSearches.
Variable B : Builtins.
(** What the [k]-th call of the hybrid tool in the step, counted from 0,
    gets from outside. *)
Variable host : nat -> Host.t.

(** Body of [for (const query of strategy.queries)]: the state is
    [(allResults, calls)], [calls] the number of calls made so far.  The
    [catch] block logs and goes on. *)
Definition search (strategy : Strategy.t) (st : list SearchResult.t * nat)
    (query : string) : list SearchResult.t * nat :=
  let '(allResults, calls) := st in
  match execute B (host calls) (searchContext strategy query) with
  | Ok searchResult =>
      (allResults ++
       [{| SearchResult.query := query;
           SearchResult.indexName := Strategy.indexName strategy;
           SearchResult.results := Output.sources searchResult |}],
       S calls)
  | Throw _ => (allResults, S calls)
  end.

(** Body of [for (const strategy of searchStrategies)]. *)
Definition searchStrategy (availableIndexes : list string)
    (st : list SearchResult.t * nat) (strategy : Strategy.t)
  : list SearchResult.t * nat :=
  if negb (existsb (String.eqb (Strategy.indexName strategy)) availableIndexes)
  then st
  else fold_left (search strategy) (Strategy.queries strategy) st.

(** [execute] of the step: the value of [allResults]. *)
Definition executeSearches (searchStrategies : list Strategy.t)
    (availableIndexes : list string) : list SearchResult.t :=
  fst (fold_left (searchStrategy availableIndexes) searchStrategies ([], 0%nat)).
End ExecuteSearches.
End Workflow.

(* ================================================================== *)
(** * [youtubeIndexListTool] *)

Module IndexList.

(** What the tool gets from outside: the environment and the vector
    store.  [describeIndex indexName] is the outcome of
    [pgVector.describeIndex({ indexName })]. *)
Module Host.
Record t : Type := {
  POSTGRES_CONNECTION_STRING : option string;
  listIndexes : result (list string);
  describeIndex : string -> result value
}.
End Host.

(** An element of [indexes]; [stats] is [None] for [undefined]. *)
Module Entry.
Record t : Type := {
  name : string;
  category : string;
  stats : option value
}.
End Entry.

Module Output.
Record t : Type := {
  indexes : list Entry.t;
  totalIndexes : nat;
  schemaName : string
}.
End Output.

(** The rest of [s] after [prefix], when [s] starts with it. *)
Fixpoint dropPrefix (prefix s : string) : option string :=
  match prefix, s with
  | EmptyString, _ => Some s
  | String a prefix', String b s' =>
      if Ascii.eqb a b then dropPrefix prefix' s' else None
  | String _ _, EmptyString => None
  end.

(** [s.replace(/^prefix/, '')] for a [prefix] of plain characters. *)
Definition removePrefix (prefix s : string) : string :=
  match dropPrefix prefix s with
  | Some rest => rest
  | None => s
  end.

(** [s.replace(/_/g, ' ')] *)
Fixpoint replaceUnderscores (s : string) : string :=
  match s with
  | EmptyString => EmptyString
  | String c s' =>
      String (if Ascii.eqb c "_"%char then " "%char else c) (replaceUnderscores s')
  end.

(** "Extract category from index name based on common patterns" *)
Definition categoryOf (indexName : string) : string :=
  if JsString.includes indexName "youtube_" then
    replaceUnderscores (removePrefix "youtube_" indexName)
  else if JsString.includes indexName "yt_" then
    replaceUnderscores (removePrefix "yt_" indexName)
  else replaceUnderscores indexName.

(** Callback of [indexes.map(async (indexName) => ...)]; a failure of
    [describeIndex] is logged and leaves [stats] undefined. *)
Definition describe (h : Host.t) (includeStats : bool) (indexName : string)
  : Entry.t :=
  let stats :=
    if includeStats then
      match Host.describeIndex h indexName with
      | Ok stats => Some stats
      | Throw _ => None
      end
    else None in
  {| Entry.name := indexName;
     Entry.category := categoryOf indexName;
     Entry.stats := stats |}.

(** [execute]: the [catch] block rethrows. *)
Definition execute (h : Host.t) (includeStats : bool) : result Output.t :=
  match Host.POSTGRES_CONNECTION_STRING h with
  | None | Some "" =>
      Throw (Error "POSTGRES_CONNECTION_STRING is not set in environment variables")
  | Some _ =>
      indexes <- Host.listIndexes h ;;
      let indexesWithStats := map (describe h includeStats) indexes in
      Ok {| Output.indexes := indexesWithStats;
            Output.totalIndexes := List.length indexesWithStats;
            Output.schemaName := "yt_rag" |}
  end.
End IndexList.

(* ================================================================== *)
(** * Notions used to state the results *)

Module GraphSpec.
Import GraphRAG.
Local Open Scope float_scope.

(** [g] with its edge array replaced. *)
Definition withEdges (g : t) (es : list GraphEdge.t) : t :=
  {| nodes := nodes g; edges := es; dimension := dimension g;
     threshold := threshold g |}.

(** The edge [addEdge] is called with for the pair [(i, j)]. *)
Definition edgeOf (i j : nat) (w : float) : GraphEdge.t :=
  {| GraphEdge.source := index_toString i;
     GraphEdge.target := index_toString j;
     GraphEdge.weight := w;
     GraphEdge.type := GraphEdge.semantic |}.

(** The entries one pair contributes: both directions, or nothing. *)
Definition pairEdges (embeddings : list GraphEmbedding.t) (thr : float)
    (i j : nat) : list GraphEdge.t :=
  match cosineSimilarity (vectorAt embeddings i) (vectorAt embeddings j) with
  | Ok s => if thr <? s then [edgeOf i j s; edgeOf j i s] else []
  | Throw _ => []
  end.

Definition rowEdges (embeddings : list GraphEmbedding.t) (thr : float)
    (n i : nat) : list GraphEdge.t :=
  flat_map (pairEdges embeddings thr i) (seq (S i) (n - S i)).

Definition allEdges (embeddings : list GraphEmbedding.t) (thr : float)
    (n : nat) : list GraphEdge.t :=
  flat_map (rowEdges embeddings thr n) (seq 0 n).

(** The ordered pair of endpoints of an entry of the edge array. *)
Definition endpoints (e : GraphEdge.t) : string * string :=
  (GraphEdge.source e, GraphEdge.target e).

(** Every edge entry joins two nodes of the graph. *)
Definition closed (g : t) : Prop :=
  forall e, In e (edges g) ->
    JsMap.has (GraphEdge.source e) (nodes g) = true
    /\ JsMap.has (GraphEdge.target e) (nodes g) = true.

(** The endpoints of the entries of a pair, as indices. *)
Definition pairKeys (embeddings : list GraphEmbedding.t) (thr : float)
    (i j : nat) : list (nat * nat) :=
  map (fun e => if String.eqb (GraphEdge.source e) (index_toString i)
                then (i, j) else (j, i))
      (pairEdges embeddings thr i j).

Definition keyNames (k : nat * nat) : string * string :=
  (index_toString (fst k), index_toString (snd k)).

(** What the loop keeps true on a graph whose edges join nodes of the
    graph, started from a node of the graph. *)
Definition onGraph (g : t) (st : JsMap.t float * string * nat) : Prop :=
  let '(visits, currentNodeId, _) := st in
  JsMap.has currentNodeId (nodes g) = true
  /\ forall nodeId, In nodeId (JsMap.keys visits) ->
                    JsMap.has nodeId (nodes g) = true.
End GraphSpec.


(** The denominator of [cosineSimilarity]. *)
Definition magnitudeProduct {num : Type} (A : Arith num) (vec1 vec2 : list num)
  : num :=
  let '(_, normVec1, normVec2) :=
    Generic.cosineLoop A vec1 vec2 (lit0 A, lit0 A, lit0 A) in
  Math_sqrt A (times A normVec1 normVec2).

Module ExactSpec.
Local Open Scope R_scope.



(** [cosineSimilarity] read over the real numbers. *)
Definition cosineSimilarity := Generic.cosineSimilarity Exact.arith.
End ExactSpec.

Module CacheSpec.
Import GraphTool.

(** The request [acquire] sends to the store. *)
Definition graphQuery (c : Context.t) (queryEmbedding : list float) : QueryArgs.t :=
  {| QueryArgs.indexName := Context.indexName c;
     QueryArgs.queryVector := queryEmbedding;
     QueryArgs.filter := Context.filter c;
     QueryArgs.topK := Context.maxGraphNodes c;
     QueryArgs.includeVector := true |}.

(** The graph [acquire] builds from the store's rows. *)
Definition buildFrom (c : Context.t) (graphResults : list QueryResult.t)
  : result GraphRAG.t :=
  GraphRAG.createGraph (GraphRAG.new 1536 (Context.threshold c))
                       (map toChunk graphResults) (map toEmbedding graphResults).

(** The entry stored for an object built at time [now]. *)
Definition entryFor (c : Context.t) (now : float) (graphRAG : GraphObject.t)
  : GraphCache.t :=
  {| GraphCache.graph := graphRAG;
     GraphCache.indexName := Context.indexName c;
     GraphCache.createdAt := now;
     GraphCache.nodeCount := GraphRAG.getNodeCount (GraphObject.object graphRAG) |}.
End CacheSpec.

(** The operators of the [filterOperators] enumeration, which are the
    cases of the [switch] in [buildFilterQuery]. *)
Definition filterOperators : list string :=
  ["$eq"; "$ne"; "$gt"; "$gte"; "$lt"; "$lte"; "$in"; "$between";
   "$contains"; "$startsWith"; "$endsWith"].

Definition recognized (op : string) : bool :=
  existsb (String.eqb op) filterOperators.

(** The keys [processFilter] treats as logical operators. *)
Definition logical (key : string) : bool :=
  existsb (String.eqb key) ["$and"; "$or"; "$not"].

(** A list of scores ordered by non-increasing value: each score is at
    least the next one. *)
Fixpoint nonIncreasing (scores : list float) : Prop :=
  match scores with
  | a :: (b :: _) as rest => PrimFloat.leb b a = true /\ nonIncreasing rest
  | _ => True
  end.

(** The graphs a client of the class can hold: a new graph, changed by
    calls of [addNode] and [addEdge] that returned.  ([createGraph] makes
    only such calls.) *)
Module ClassSpec.
Import GraphRAG.

Inductive built : t -> Prop :=
| built_new (dimension : nat) (threshold : float) :
    built (new dimension threshold)
| built_addNode (g g' : t) (node : GraphNode.t) :
    built g -> addNode g node = Ok g' -> built g'
| built_addEdge (g g' : t) (edge : GraphEdge.t) :
    built g -> addEdge g edge = Ok g' -> built g'.

(** The entry [{ id, weight }] of a neighbor list. *)
Definition neighbor (id : string) (weight : float) : Neighbor.t :=
  {| Neighbor.id := id; Neighbor.weight := weight |}.

(** Every stored node sits under its own id and has an embedding of the
    graph's dimension; the keys of the node map are pairwise distinct. *)
Definition nodesWellFormed (g : t) : Prop :=
  NoDup (JsMap.keys (nodes g))
  /\ forall k node,
       JsMap.get k (nodes g) = Some node ->
       GraphNode.id node = k
       /\ exists v, GraphNode.embedding node = Some v
                    /\ List.length v = dimension g.

(** The id of the node of an entry of [rerankedNodes]. *)
Definition rerankedId (r : Reranked.t) : string :=
  match Reranked.node r with
  | Some node => GraphNode.id node
  | None => ""
  end.

(** The node [createGraph] makes of the chunk at [index]. *)
Definition nodeOf (embeddings : list GraphEmbedding.t) (index : nat)
    (chunk : GraphChunk.t) : GraphNode.t :=
  {| GraphNode.id := index_toString index;
     GraphNode.content := GraphChunk.text chunk;
     GraphNode.embedding := vectorAt embeddings index;
     GraphNode.metadata := spread (GraphChunk.metadata chunk) |}.

(** The result [query] makes of a node and a score. *)
Definition ranked (node : GraphNode.t) (score : float) : RankedNode.t :=
  {| RankedNode.id := GraphNode.id node;
     RankedNode.content := GraphNode.content node;
     RankedNode.metadata := GraphNode.metadata node;
     RankedNode.score := score |}.
End ClassSpec.

(** Notions for the filter compiler and the scorer of the hybrid tool. *)
Module HybridSpec.

(** The count [tagMatches] of [calculateHybridScore]: the query words that
    a tag contains or that contain a tag. *)
Definition tagMatches (tags queryWords : list string) : nat :=
  List.length
    (filter (fun word =>
               existsb (fun tag => JsString.includes tag word
                                   || JsString.includes word tag) tags)
            queryWords).


(** A field given as a plain value: anything but an object, under a key
    that is no logical operator. *)
Definition plain (entry : string * value) : Prop :=
  logical (fst entry) = false
  /\ match snd entry with VObj _ => False | _ => True end.

(** The conditions of a filter of plain values, numbered from [i]. *)
Fixpoint equalities (i : nat) (props : list (string * value)) : list string :=
  match props with
  | [] => []
  | (key, _) :: rest =>
      ("metadata->>'" ++ key ++ "' = " ++ HybridTool.placeholder i)%string
        :: equalities (S i) rest
  end.

(** Two lists related element by element. *)
Section All2.
Variable A : Type.
Variable R : A -> A -> Prop.

Fixpoint all2 (l l' : list A) : Prop :=
  match l, l' with
  | [], [] => True
  | x :: l, x' :: l' => R x x' /\ all2 l l'
  | _, _ => False
  end.
End All2.

(** Two operands of an operator that differ in values only: for [$in],
    arrays of the same length. *)
Definition sameOperand (entry entry' : string * value) : Prop :=
  fst entry = fst entry'
  /\ if String.eqb (fst entry) "$in" then
       match snd entry, snd entry' with
       | VArr items, VArr items' => List.length items = List.length items'
       | _, _ => False
       end
     else True.

(** Two values of a field that differ in operand values only. *)
Definition sameField (v v' : value) : Prop :=
  match v, v' with
  | VObj ops, VObj ops' => all2 sameOperand ops ops'
  | VObj _, _ | _, VObj _ => False
  | _, _ => True
  end.

(** Two filter objects of the same shape: the same keys and operators in
    the same order, the same nesting under [$and], [$or] and [$not], and
    any operand values. *)
Fixpoint sameShape (filter filter' : value) {struct filter} : Prop :=
  match filter, filter' with
  | VObj props, VObj props' =>
      all2 (fun entry entry' =>
              fst entry = fst entry'
              /\ if String.eqb (fst entry) "$and" || String.eqb (fst entry) "$or"
                 then match snd entry, snd entry' with
                      | VArr items, VArr items' => all2 sameShape items items'
                      | _, _ => False
                      end
                 else if String.eqb (fst entry) "$not"
                      then sameShape (snd entry) (snd entry')
                      else sameField (snd entry) (snd entry'))
           props props'
  | _, _ => False
  end.

(** The relation [sameShape] puts on the entries of two filter objects. *)
Definition sameEntry (entry entry' : string * value) : Prop :=
  fst entry = fst entry'
  /\ if String.eqb (fst entry) "$and" || String.eqb (fst entry) "$or"
     then match snd entry, snd entry' with
          | VArr items, VArr items' => all2 sameShape items items'
          | _, _ => False
          end
     else if String.eqb (fst entry) "$not"
          then sameShape (snd entry) (snd entry')
          else sameField (snd entry) (snd entry').
End HybridSpec.

(** Notions for the chapter chunker. *)
Module ChunkerSpec.
Import Chunker.

Fixpoint allChars (p : ascii -> bool) (s : string) : bool :=
  match s with
  | EmptyString => true
  | String c s' => p c && allChars p s'
  end.




(** The part of a string after its last dash. *)
Fixpoint afterLastDash (s : string) : string :=
  match s with
  | EmptyString => EmptyString
  | String c s' =>
      if negb (allChars (fun c' => negb (isDash c')) s') then afterLastDash s'
      else if isDash c then s' else s
  end.

(** The elements of [l] in order, without those in [seen] and without
    repetition: [seen] is the part of the array to the left of [l]. *)
Fixpoint firsts (seen l : list string) : list string :=
  match l with
  | [] => []
  | x :: l' =>
      if existsb (String.eqb x) seen then firsts (seen ++ [x]) l'
      else x :: firsts (seen ++ [x]) l'
  end.

(** The chunk the loop pushes for a chapter, given what the extraction
    returned. *)
Definition chunkFor (videoTitle : option string) (chapterIndex : nat)
    (chapter : Chapter.t) (additionalKeywords : list string)
    (summary : option string) : Chunk.t :=
  {| Chunk.id := slugify (Chapter.title chapter) ++ "-"
                 ++ index_toString chapterIndex;
     Chunk.chapterIndex := chapterIndex;
     Chunk.chunkIndex := 0;
     Chunk.timestamp := Chapter.timestamp chapter;
     Chunk.title := Chapter.title chapter;
     Chunk.startTime := Chapter.startTime chapter;
     Chunk.endTime := Chapter.endTime chapter;
     Chunk.text := Chapter.transcript chapter;
     Chunk.keywords := unique (Chapter.keywords chapter ++ additionalKeywords)%list;
     Chunk.summary := summary;
     Chunk.metadata :=
       {| ChunkMetadata.videoTitle := titleOrUnknown videoTitle;
          ChunkMetadata.chapterTitle := Chapter.title chapter;
          ChunkMetadata.isFullChapter := true;
          ChunkMetadata.totalChunksInChapter := 1;
          ChunkMetadata.originalChapterLength :=
            String.length (Chapter.transcript chapter) |} |}.

(** The sum [totalTextLength] of the transcript lengths. *)
Definition totalLength (chapters : list Chapter.t) : nat :=
  fold_right (fun chapter n => (String.length (Chapter.transcript chapter) + n)%nat)
             0%nat chapters.
End ChunkerSpec.

(** Notions for the presets and the search step. *)
Module PresetSpec.
Import HybridTool.

(** [out] comes from one search of the store with [filter], for twice
    [topK] candidates, and counts [keys] as the filters applied. *)
Definition searched (h : Host.t) (query indexName : string) (topK : nat)
    (filter : value) (keys : list string) (out : Output.t) : Prop :=
  exists embedding results,
    Host.embed h query = Ok embedding
    /\ Host.pgVector_query h
         {| QueryArgs.indexName := indexName;
            QueryArgs.queryVector := embedding;
            QueryArgs.filter := filter;
            QueryArgs.topK := (topK * 2)%nat;
            QueryArgs.includeVector := false |} = Ok results
    /\ QueryMetadata.filtersApplied (Output.queryMetadata out) = List.length keys
    /\ (List.length (Output.sources out) <= topK)%nat
    /\ forall s, In s (Output.sources out) ->
         Source.matchedFilters s = Some keys
         /\ exists r, In r results /\ Source.id s = QueryResult.id r.
End PresetSpec.

Module WorkflowSpec.
Import Workflow.

(** [l1] is [l2] with some elements left out. *)
Inductive Subseq {A : Type} : list A -> list A -> Prop :=
| Subseq_nil : Subseq [] []
| Subseq_skip (a : A) (l1 l2 : list A) : Subseq l1 l2 -> Subseq l1 (a :: l2)
| Subseq_keep (a : A) (l1 l2 : list A) : Subseq l1 l2 -> Subseq (a :: l1) (a :: l2).

(** The searches the step sets out to make, in order: every query of
    every strategy whose index is available. *)
Definition planned (searchStrategies : list Strategy.t)
    (availableIndexes : list string) : list (Strategy.t * string) :=
  flat_map (fun strategy =>
              if existsb (String.eqb (Strategy.indexName strategy)) availableIndexes
              then map (pair strategy) (Strategy.queries strategy)
              else [])
           searchStrategies.

(** The query and index of a planned search and of a result entry. *)
Definition planKey (p : Strategy.t * string) : string * string :=
  (snd p, Strategy.indexName (fst p)).

Definition resultKey (r : SearchResult.t) : string * string :=
  (SearchResult.query r, SearchResult.indexName r).
End WorkflowSpec.

(** Notions for the index list. *)
Module IndexListSpec.

Definition noUnderscore (s : string) : bool :=
  ChunkerSpec.allChars (fun c => negb (Ascii.eqb c "_"%char)) s.
End IndexListSpec.

(* ================================================================== *)
(** * Sample data used by the witnesses *)

Module Sample.
Local Open Scope float_scope.

Definition chunk : GraphChunk.t :=
  {| GraphChunk.text := VStr "text"; GraphChunk.metadata := VObj [] |}.

Definition embedding (v : list float) : GraphEmbedding.t :=
  {| GraphEmbedding.vector := v |}.

(** Three items in dimension 2: the first two are close, the third is
    orthogonal to the first. *)
Definition chunks3 : list GraphChunk.t := [chunk; chunk; chunk].
Definition embeddings3 : list GraphEmbedding.t :=
  [embedding [1; 0]; embedding [0.9; 0.1]; embedding [0; 1]].

(** An interpretation of the built-ins for the samples: [TimeClip] is exact
    on the integral time values the samples use; the samples call none of
    the other built-ins on an argument where its value matters. *)
Definition builtins : Builtins :=
  {| Number_toString := fun _ => "NaN";
     StringToNumber := fun _ => nan;
     Date_parse := fun _ => nan;
     TimeClip := fun t => t;
     Math_log10 := fun _ => nan |}.

(** Three candidates as the store returns them: [b] has no [publishedAt]. *)
Definition candidate (id : string) (score : float) (metadata : value)
  : QueryResult.t :=
  {| QueryResult.id := id; QueryResult.score := score;
     QueryResult.metadata := metadata; QueryResult.vector := None |}.

Definition candidates : list QueryResult.t :=
  [candidate "a" 0.2 (VObj [("publishedAt", VNum 1700000000000)]);
   candidate "b" 0.9 (VObj []);
   candidate "c" 0.9 (VObj [("publishedAt", VNum 1700000000000)])].

(** Three scored candidates, none with a NaN hybrid score. *)
Definition scored : list HybridTool.Scored.t :=
  [{| HybridTool.Scored.result := candidate "a" 0.2 (VObj []);
      HybridTool.Scored.hybridScore := 0.32 |};
   {| HybridTool.Scored.result := candidate "b" 0.9 (VObj []);
      HybridTool.Scored.hybridScore := 0.74 |};
   {| HybridTool.Scored.result := candidate "c" 0.5 (VObj []);
      HybridTool.Scored.hybridScore := 0.5 |}].

(** A store that answers a request for six candidates with [candidates]. *)
Definition hybridHost : HybridTool.Host.t :=
  {| HybridTool.Host.POSTGRES_CONNECTION_STRING := Some "postgres://localhost/yt";
     HybridTool.Host.embed := fun _ => Ok [0.1];
     HybridTool.Host.pgVector_query :=
       fun args => if (QueryArgs.topK args =? 6)%nat then Ok candidates else Ok [];
     HybridTool.Host.new_Date := fun _ => 1700000000000 |}.

Definition hybridContext : HybridTool.Context.t :=
  {| HybridTool.Context.queryText := "graph search";
     HybridTool.Context.indexName := "yt_index";
     HybridTool.Context.topK := 3;
     HybridTool.Context.filter := VUndefined;
     HybridTool.Context.scoringWeights := HybridTool.defaultWeights;
     HybridTool.Context.includeScore := true |}.

(** Rows of the store with vectors of the dimension the graph tool fixes. *)
Definition vector1536 (x : float) : list float := repeat x 1536.

Definition row (id : string) (vector : list float) : QueryResult.t :=
  {| QueryResult.id := id; QueryResult.score := 0.9;
     QueryResult.metadata := VObj [("text", VStr "transcript")];
     QueryResult.vector := Some vector |}.

Definition rows : list QueryResult.t :=
  [row "r1" (vector1536 0.1); row "r2" (vector1536 0.2)].

(** A row whose vector has the wrong dimension: [createGraph] throws on it. *)
Definition badRows : list QueryResult.t := [row "r1" [1; 2]].

(** A host whose clock reads [now] and whose store returns [rows]. *)
Definition graphHost (now : float) (rows : list QueryResult.t) : GraphTool.Host.t :=
  {| GraphTool.Host.POSTGRES_CONNECTION_STRING := Some "postgres://localhost/yt";
     GraphTool.Host.embed := fun _ => Ok (vector1536 0.1);
     GraphTool.Host.pgVector_query := fun _ => Ok rows;
     GraphTool.Host.new_Date := now;
     GraphTool.Host.buildStart := now;
     GraphTool.Host.buildEnd := now + 5;
     GraphTool.Host.Math_random := fun _ => 0.5 |}.

Definition graphContext : GraphTool.Context.t :=
  {| GraphTool.Context.queryText := "graph search";
     GraphTool.Context.indexName := "yt_index";
     GraphTool.Context.topK := 2;
     GraphTool.Context.filter := VUndefined;
     GraphTool.Context.randomWalkSteps := 5;
     GraphTool.Context.restartProb := 0.15;
     GraphTool.Context.threshold := 0.7;
     GraphTool.Context.maxGraphNodes := 500;
     GraphTool.Context.rebuildGraph := false |}.

Definition emptyWorld : GraphTool.World.t :=
  {| GraphTool.World.graphCache := JsMap.empty;
     GraphTool.World.allocations := 0;
     GraphTool.World.randomCalls := 0 |}.

(** The graph [createGraph] builds from [rows]. *)
Definition graph : GraphRAG.t :=
  match CacheSpec.buildFrom graphContext rows with
  | Ok g => g
  | Throw _ => GraphRAG.new 1536 0.7
  end.

(** Three clock readings: a first call, one second later, and thirty
    minutes after the first. *)
Definition t1 : float := 1700000000000.
Definition t2 : float := 1700000001000.
Definition t3 : float := 1700001800000.

(** A chunker run: the parser returns the schema defaults, the extraction
    returns one keyword and a summary, and two chapters, the second with a
    transcript of more than 100 characters. *)
Definition chunkerConfig : Chunker.Config.t :=
  {| Chunker.Config.threshold := 300; Chunker.Config.size := 250;
     Chunker.Config.overlap := 50;
     Chunker.Config.extractKeywords := true;
     Chunker.Config.extractSummary := true;
     Chunker.Config.llm := VUndefined |}.

Definition chunkerHost : Chunker.Host.t :=
  {| Chunker.Host.chunkingConfigSchema_parse := fun _ => Ok chunkerConfig;
     Chunker.Host.extractMetadata :=
       fun _ _ _ =>
         Ok (Some {| Chunker.Extracted.keywords := Some ["rag"; "search"];
                     Chunker.Extracted.sectionSummary := Some "About retrieval." |});
     Chunker.Host.Math_round := fun x => x |}.

Definition chapters2 : list Chunker.Chapter.t :=
  [{| Chunker.Chapter.timestamp := "00:00";
      Chunker.Chapter.title := "Intro: What is RAG?";
      Chunker.Chapter.startTime := 0; Chunker.Chapter.endTime := 60;
      Chunker.Chapter.transcript := "Welcome.";
      Chunker.Chapter.keywords := ["rag"; "intro"; "rag"] |};
   {| Chunker.Chapter.timestamp := "01:00";
      Chunker.Chapter.title := "Intro: What is RAG?";
      Chunker.Chapter.startTime := 60; Chunker.Chapter.endTime := 120;
      Chunker.Chapter.transcript :=
        "Retrieval augmented generation looks up passages that are close to the question and hands them to the model.";
      Chunker.Chapter.keywords := ["rag"] |}].

Definition chunkerContext : Chunker.Context.t :=
  {| Chunker.Context.videoTitle := None;
     Chunker.Context.chapters := chapters2;
     Chunker.Context.config := VUndefined |}.



(** Options of the presets: three results asked for, the rest left to the
    defaults. *)
Definition trendingOptions : Presets.TrendingOptions.t :=
  {| Presets.TrendingOptions.indexName := "yt_index";
     Presets.TrendingOptions.topK := Some 3%nat;
     Presets.TrendingOptions.days := Some 7;
     Presets.TrendingOptions.minViews := None |}.

(** Custom options that ask for the vector score alone. *)
Definition customOptions : Presets.CustomOptions.t :=
  {| Presets.CustomOptions.indexName := "yt_index";
     Presets.CustomOptions.topK := Some 3%nat;
     Presets.CustomOptions.filters := VUndefined;
     Presets.CustomOptions.scoringWeights :=
       Some {| Presets.PartialWeights.vector := Some 1;
               Presets.PartialWeights.freshness := Some 0;
               Presets.PartialWeights.popularity := Some 0;
               Presets.PartialWeights.tags := None |} |}.

(** A plan of three searches, the last on an index that does not exist. *)
Definition strategies : list Workflow.Strategy.t :=
  [{| Workflow.Strategy.indexName := "yt_index";
      Workflow.Strategy.queries := ["what is rag"; "graph search"];
      Workflow.Strategy.rationale := "main index";
      Workflow.Strategy.filters := VUndefined |};
   {| Workflow.Strategy.indexName := "yt_missing";
      Workflow.Strategy.queries := ["what is rag"];
      Workflow.Strategy.rationale := "guess";
      Workflow.Strategy.filters := VUndefined |}].

End Sample.

(* ================================================================== *)
(** * Results *)

Unset Implicit Arguments.

(** ** Generic facts *)

Lemma index_toString_inj : forall m n,
  index_toString m = index_toString n -> m = n.
Proof.
  unfold index_toString. intros m n H.
  assert (E : Some (Nat.to_uint m) = Some (Nat.to_uint n)).
  { rewrite <- (NilEmpty.usu (Nat.to_uint m)), <- (NilEmpty.usu (Nat.to_uint n)).
    now rewrite H. }
  injection E as E.
  rewrite <- (Unsigned.of_to m), <- (Unsigned.of_to n). now rewrite E.
Qed.

Lemma append_assoc (s1 s2 s3 : string) :
  ((s1 ++ s2) ++ s3)%string = (s1 ++ (s2 ++ s3))%string.
Proof. induction s1 as [|c s1 IH]; simpl; [reflexivity | now rewrite IH]. Qed.

Lemma bind_ok {A B : Type} (r : result A) (k : A -> result B) (b : B) :
  bind r k = Ok b -> exists a, r = Ok a /\ k a = Ok b.
Proof. destruct r as [a|e]; simpl; [eauto | discriminate]. Qed.

Module JsMapFacts.
Import JsMap.

Lemma get_set_same {V : Type} (k : string) (v : V) (m : t V) :
  get k (set k v m) = Some v.
Proof.
  induction m as [|[k' v'] m IH]; simpl.
  - now rewrite String.eqb_refl.
  - destruct (String.eqb k k') eqn:E; simpl; rewrite ?String.eqb_refl, ?E; auto.
Qed.

Lemma get_set_other {V : Type} (k k' : string) (v : V) (m : t V) :
  k <> k' -> get k' (set k v m) = get k' m.
Proof.
  intros N. induction m as [|[k0 v0] m IH]; simpl.
  - destruct (String.eqb k' k) eqn:E; [apply String.eqb_eq in E; congruence | reflexivity].
  - destruct (String.eqb k k0) eqn:E; simpl.
    + apply String.eqb_eq in E; subst k0.
      destruct (String.eqb k' k) eqn:E'; [apply String.eqb_eq in E'; congruence | reflexivity].
    + destruct (String.eqb k' k0); auto.
Qed.

Lemma has_set {V : Type} (k k' : string) (v : V) (m : t V) :
  has k' (set k v m) = String.eqb k k' || has k' m.
Proof.
  unfold has. destruct (String.eqb k k') eqn:E.
  - apply String.eqb_eq in E; subst. now rewrite get_set_same.
  - apply String.eqb_neq in E. now rewrite get_set_other.
Qed.

Lemma keys_set {V : Type} (k : string) (v : V) (m : t V) :
  keys (set k v m) = if has k m then keys m else keys m ++ [k].
Proof.
  unfold has, keys. induction m as [|[k' v'] m IH]; simpl; [reflexivity|].
  destruct (String.eqb k k') eqn:E; simpl.
  - apply String.eqb_eq in E. now subst.
  - rewrite IH. now destruct (get k m).
Qed.
End JsMapFacts.

(** ** Facts on binary64 arithmetic *)

Module F64Facts.
Local Open Scope float_scope.

Lemma SFmul_comm (prec emax : Z) (x y : spec_float) :
  SFmul prec emax x y = SFmul prec emax y x.
Proof.
  destruct x as [sx|sx| |sx mx ex], y as [sy|sy| |sy my ey]; simpl;
    try reflexivity; try (rewrite xorb_comm; reflexivity).
  now rewrite xorb_comm, Pos.mul_comm, Z.add_comm.
Qed.

Lemma mul_comm (x y : float) : x * y = y * x.
Proof. apply Prim2SF_inj. rewrite !mul_spec. apply SFmul_comm. Qed.

Lemma SFcompare_antisym (x y : spec_float) :
  SFcompare y x = option_map CompOpp (SFcompare x y).
Proof.
  destruct x as [[|]|[|]| |[|] mx ex], y as [[|]|[|]| |[|] my ey];
    try reflexivity; unfold SFcompare; cbn [option_map]; f_equal;
    rewrite (Z.compare_antisym ex ey); destruct (ex ?= ey)%Z; cbn [CompOpp];
    try reflexivity.
  - f_equal. symmetry. apply (Pos.compare_cont_antisym mx my Eq).
  - symmetry. apply (Pos.compare_cont_antisym mx my Eq).
Qed.

Lemma SFcompare_refl (x : spec_float) :
  x <> S754_nan -> SFcompare x x = Some Eq.
Proof.
  destruct x as [[|]|[|]| |[|] m e]; try reflexivity; try congruence; intros _;
    unfold SFcompare; rewrite Z.compare_refl; f_equal.
  - change (Pos.compare_cont Eq m m) with (Pos.compare m m).
    now rewrite Pos.compare_refl.
  - change (Pos.compare_cont Eq m m) with (Pos.compare m m).
    now rewrite Pos.compare_refl.
Qed.

Lemma is_nan_spec (x : float) : is_nan x = false <-> Prim2SF x <> S754_nan.
Proof.
  unfold is_nan. rewrite FloatAxioms.eqb_spec. unfold SFeqb. split.
  - intros H E. rewrite E in H. discriminate.
  - intros H. now rewrite SFcompare_refl.
Qed.

Lemma compare_some (x y : float) :
  is_nan x = false -> is_nan y = false ->
  exists c, SFcompare (Prim2SF x) (Prim2SF y) = Some c.
Proof.
  rewrite !is_nan_spec.
  destruct (Prim2SF x) as [[|]|[|]| |[|] mx ex],
           (Prim2SF y) as [[|]|[|]| |[|] my ey];
    intros Hx Hy; try congruence; unfold SFcompare; eauto.
Qed.

(** On numbers, what is not below is at or above. *)
Lemma ltb_false_leb (x y : float) :
  is_nan x = false -> is_nan y = false -> (x <? y) = false -> (y <=? x) = true.
Proof.
  intros Hx Hy. destruct (compare_some x y Hx Hy) as [c Hc].
  rewrite ltb_spec, leb_spec. unfold SFltb, SFleb.
  rewrite (SFcompare_antisym (Prim2SF x) (Prim2SF y)), Hc.
  destruct c; simpl; congruence.
Qed.

Lemma ltb_leb (x y : float) : (x <? y) = true -> (x <=? y) = true.
Proof.
  rewrite ltb_spec, leb_spec. unfold SFltb, SFleb.
  destruct (SFcompare (Prim2SF x) (Prim2SF y)) as [[| |]|]; auto.
Qed.

(** A comparison with NaN is false. *)
Lemma ltb_not_nan (x y : float) :
  (x <? y) = true -> is_nan x = false /\ is_nan y = false.
Proof.
  rewrite ltb_spec, !is_nan_spec. unfold SFltb.
  destruct (Prim2SF x) as [[|]|[|]| |[|] mx ex],
           (Prim2SF y) as [[|]|[|]| |[|] my ey];
    cbn [SFcompare]; try discriminate; intros _; split; discriminate.
Qed.

Lemma leb_not_nan (x y : float) :
  (x <=? y) = true -> is_nan x = false /\ is_nan y = false.
Proof.
  rewrite leb_spec, !is_nan_spec. unfold SFleb.
  destruct (Prim2SF x) as [[|]|[|]| |[|] mx ex],
           (Prim2SF y) as [[|]|[|]| |[|] my ey];
    cbn [SFcompare]; try discriminate; intros _; split; discriminate.
Qed.

Lemma is_nan_eq (x : float) : is_nan x = true -> x = nan.
Proof.
  intros H. apply Prim2SF_inj. change (Prim2SF nan) with S754_nan.
  destruct (Prim2SF x) as [s|s| |s m e] eqn:E; try reflexivity;
    assert (N : is_nan x = false) by (apply is_nan_spec; rewrite E; discriminate);
    congruence.
Qed.

Lemma add_nan_l (x : float) : nan + x = nan.
Proof. apply Prim2SF_inj. rewrite add_spec. reflexivity. Qed.

Lemma add_nan_r (x : float) : x + nan = nan.
Proof.
  apply Prim2SF_inj. rewrite add_spec. change (Prim2SF nan) with S754_nan.
  now destruct (Prim2SF x) as [[|]|[|]| |[|] m e].
Qed.

Lemma sub_nan_r (x : float) : x - nan = nan.
Proof.
  apply Prim2SF_inj. rewrite sub_spec. change (Prim2SF nan) with S754_nan.
  now destruct (Prim2SF x) as [[|]|[|]| |[|] m e].
Qed.

Lemma sub_nan_l (x : float) : nan - x = nan.
Proof. apply Prim2SF_inj. rewrite sub_spec. reflexivity. Qed.

Lemma mul_nan_r (x : float) : x * nan = nan.
Proof.
  apply Prim2SF_inj. rewrite mul_spec. change (Prim2SF nan) with S754_nan.
  now destruct (Prim2SF x) as [[|]|[|]| |[|] m e].
Qed.

Lemma div_nan_l (x : float) : nan / x = nan.
Proof. apply Prim2SF_inj. rewrite div_spec. reflexivity. Qed.

End F64Facts.

(** ** Rounding of a difference

    The comparator [(a, b) => b.score - a.score] orders by the sign of a
    rounded difference.  The lemmas below follow the rounding of
    [SpecFloat] to show that this sign is the one of the exact
    difference. *)

Module RoundingFacts.
Section Rounding.
Variables prec emax : Z.
Hypothesis prec_pos : (0 < prec)%Z.
Local Open Scope Z_scope.

Local Abbreviation emin := (SpecFloat.emin prec emax).
Local Abbreviation fexp := (SpecFloat.fexp prec emax).

Lemma digits2_pos_bounds (m : positive) :
  2 ^ (Zpos (digits2_pos m) - 1) <= Zpos m < 2 ^ Zpos (digits2_pos m).
Proof.
  induction m as [m IH|m IH|]; simpl digits2_pos.
  - rewrite Pos2Z.inj_succ. replace (Z.succ (Zpos (digits2_pos m)) - 1)
      with (Z.succ (Zpos (digits2_pos m) - 1)) by lia.
    rewrite !Z.pow_succ_r by lia. lia.
  - rewrite Pos2Z.inj_succ. replace (Z.succ (Zpos (digits2_pos m)) - 1)
      with (Z.succ (Zpos (digits2_pos m) - 1)) by lia.
    rewrite !Z.pow_succ_r by lia. lia.
  - simpl. lia.
Qed.

Lemma iter_xO (m d : positive) : Zpos (Pos.iter xO m d) = Zpos m * 2 ^ Zpos d.
Proof.
  induction d as [|d IH] using Pos.peano_ind.
  - simpl. lia.
  - rewrite Pos.iter_succ, Pos2Z.inj_succ, Z.pow_succ_r by lia.
    rewrite Pos2Z.inj_xO, IH. lia.
Qed.

Lemma shl_align_value (m : positive) (e ez : Z) :
  ez <= e ->
  Zpos (fst (shl_align m e ez)) = Zpos m * 2 ^ (e - ez).
Proof.
  intros H. unfold shl_align.
  destruct (ez - e) as [|d|d] eqn:E; try lia.
  - replace (e - ez) with 0 by lia. cbn [fst]. rewrite Z.pow_0_r. lia.
  - cbn [fst]. rewrite iter_xO. f_equal. f_equal.
    pose proof (Pos2Z.opp_pos d). lia.
Qed.

Lemma shr_1_m (mrs : shr_record) :
  0 <= shr_m mrs -> shr_m (shr_1 mrs) = shr_m mrs / 2.
Proof.
  destruct mrs as [m r s]. cbn [shr_m]. intros H.
  destruct m as [|[p|p|]|p]; cbn [shr_1 shr_m]; try lia.
  - reflexivity.
  - apply Z.div_unique with 1; lia.
  - apply Z.div_unique with 0; lia.
  - reflexivity.
Qed.

Lemma iter_shr_1_m (n : positive) :
  forall mrs, 0 <= shr_m mrs ->
    shr_m (SpecFloat.iter_pos shr_1 n mrs) = shr_m mrs / 2 ^ Zpos n.
Proof.
  induction n as [n IH|n IH|]; intros mrs H; cbn [SpecFloat.iter_pos].
  - assert (P : 0 < 2 ^ Zpos n) by (apply Z.pow_pos_nonneg; lia).
    assert (H1 : 0 <= shr_m (shr_1 mrs)) by (rewrite shr_1_m by lia; apply Z.div_pos; lia).
    assert (H2 : 0 <= shr_m (SpecFloat.iter_pos shr_1 n (shr_1 mrs)))
      by (rewrite IH by lia; apply Z.div_pos; lia).
    rewrite IH, IH, shr_1_m by lia.
    rewrite !Z.div_div by lia.
    f_equal.
    replace (Zpos n~1) with (1 + Zpos n + Zpos n) by lia.
    rewrite !Z.pow_add_r, Z.pow_1_r by lia. lia.
  - assert (P : 0 < 2 ^ Zpos n) by (apply Z.pow_pos_nonneg; lia).
    assert (H2 : 0 <= shr_m (SpecFloat.iter_pos shr_1 n mrs))
      by (rewrite IH by lia; apply Z.div_pos; lia).
    rewrite IH, IH by lia.
    rewrite !Z.div_div by lia.
    f_equal.
    replace (Zpos n~0) with (Zpos n + Zpos n) by lia.
    rewrite Z.pow_add_r by lia. lia.
  - rewrite shr_1_m by lia. reflexivity.
Qed.

Lemma shr_fexp_pos (p : positive) (e : Z) (l : location) :
  emin <= e ->
  0 < shr_m (fst (shr_fexp prec emax (Zpos p) e l)) /\
  emin <= snd (shr_fexp prec emax (Zpos p) e l).
Proof.
  intros He. unfold shr_fexp, shr.
  assert (Hm : shr_m (shr_record_of_loc (Zpos p) l) = Zpos p)
    by (destruct l as [|[| |]]; reflexivity).
  pose proof (digits2_pos_bounds p) as [Hlo _].
  unfold Zdigits2, SpecFloat.fexp.
  set (d := Zpos (digits2_pos p)) in *.
  destruct (Z.max (d + e - prec) emin - e) as [|k|k] eqn:E; cbn [fst snd].
  - rewrite Hm. lia.
  - rewrite iter_shr_1_m by (rewrite Hm; lia). rewrite Hm. split; [|lia].
    assert (Hk : Zpos k <= d - 1) by (subst d; lia).
    assert (P : 0 < 2 ^ Zpos k) by (apply Z.pow_pos_nonneg; lia).
    assert (Q : 2 ^ Zpos k <= 2 ^ (d - 1)) by (apply Z.pow_le_mono_r; lia).
    apply Z.div_str_pos. lia.
  - rewrite Hm. lia.
Qed.

Lemma round_nearest_even_pos (m : Z) (l : location) :
  0 < m -> 0 < round_nearest_even m l.
Proof.
  intros H. unfold round_nearest_even.
  destruct l as [|[| |]]; try lia; destruct (Z.even m); lia.
Qed.

(** A nonzero mantissa is never rounded to zero: the result is finite with
    the same sign, or the infinity of that sign. *)
Lemma binary_round_aux_sign (s : bool) (p : positive) (e : Z) (l : location) :
  emin <= e ->
  (exists m' e', binary_round_aux prec emax s (Zpos p) e l = S754_finite s m' e')
  \/ binary_round_aux prec emax s (Zpos p) e l = S754_infinity s.
Proof.
  intros He. unfold binary_round_aux.
  pose proof (shr_fexp_pos p e l He) as [H1 H2].
  destruct (shr_fexp prec emax (Zpos p) e l) as [mrs' e'] eqn:E1.
  cbn [fst snd] in H1, H2. cbv zeta.
  pose proof (round_nearest_even_pos (shr_m mrs') (loc_of_shr_record mrs') H1) as H3.
  destruct (round_nearest_even (shr_m mrs') (loc_of_shr_record mrs')) as [|p1|p1] eqn:E2;
    try lia.
  pose proof (shr_fexp_pos p1 e' loc_Exact H2) as [H4 H5].
  destruct (shr_fexp prec emax (Zpos p1) e' loc_Exact) as [mrs'' e''] eqn:E3.
  cbn [fst snd] in H4, H5.
  destruct (shr_m mrs'') as [|p2|p2]; try lia.
  destruct (e'' <=? emax - prec); [left; eauto | right; reflexivity].
Qed.

Lemma binary_round_sign (s : bool) (p : positive) (e : Z) :
  emin <= e ->
  (exists m' e', binary_round prec emax s p e = S754_finite s m' e')
  \/ binary_round prec emax s p e = S754_infinity s.
Proof.
  intros He. unfold binary_round.
  destruct (shl_align p e (fexp (Zpos (digits2_pos p) + e))) as [mz ez] eqn:E.
  apply binary_round_aux_sign.
  unfold shl_align in E.
  destruct (fexp (Zpos (digits2_pos p) + e) - e) eqn:E';
    inversion E; subst; try lia.
  unfold SpecFloat.fexp. lia.
Qed.

Lemma binary_normalize_pos (m e : Z) :
  emin <= e ->
  SFltb (S754_zero false) (binary_normalize prec emax m e false) = (0 <? m).
Proof.
  intros He. unfold binary_normalize.
  destruct m as [|p|p].
  - reflexivity.
  - destruct (binary_round_sign false p e He) as [(m' & e' & ->) | ->]; reflexivity.
  - destruct (binary_round_sign true p e He) as [(m' & e' & ->) | ->]; reflexivity.
Qed.

Lemma canonical_emin (m : positive) (e : Z) :
  SpecFloat.canonical_mantissa prec emax m e = true -> emin <= e.
Proof.
  unfold SpecFloat.canonical_mantissa, SpecFloat.fexp. intros H%Z.eqb_eq. lia.
Qed.

(** Of two canonical mantissas the one with the larger exponent is the
    larger number. *)
Lemma aligned_lt (mx my : positive) (ex ey : Z) :
  SpecFloat.canonical_mantissa prec emax mx ex = true ->
  SpecFloat.canonical_mantissa prec emax my ey = true ->
  ex < ey ->
  Zpos mx < Zpos my * 2 ^ (ey - ex).
Proof.
  unfold SpecFloat.canonical_mantissa, SpecFloat.fexp. intros Hx%Z.eqb_eq Hy%Z.eqb_eq Hlt.
  pose proof (digits2_pos_bounds mx) as [_ Hxhi].
  pose proof (digits2_pos_bounds my) as [Hylo _].
  set (dx := Zpos (digits2_pos mx)) in *.
  set (dy := Zpos (digits2_pos my)) in *.
  assert (Hdy : dy = prec) by lia.
  assert (Hdx : dx <= prec) by lia.
  assert (H1 : 2 ^ dx <= 2 ^ prec) by (apply Z.pow_le_mono_r; lia).
  assert (H2 : 2 ^ 1 <= 2 ^ (ey - ex)) by (apply Z.pow_le_mono_r; lia).
  rewrite Z.pow_1_r in H2.
  assert (H3 : 2 ^ prec = 2 * 2 ^ (dy - 1)).
  { rewrite <- Hdy. replace dy with (Z.succ (dy - 1)) at 1 by lia.
    apply Z.pow_succ_r. subst dy. lia. }
  nia.
Qed.

Lemma SFsub_pos (X Y : spec_float) :
  SpecFloat.valid_binary prec emax X = true ->
  SpecFloat.valid_binary prec emax Y = true ->
  X <> S754_nan -> Y <> S754_nan ->
  SFltb (S754_zero false) (SFsub prec emax Y X) = SFltb X Y.
Proof.
  intros HX HY NX NY.
  destruct X as [sx|sx| |sx mx ex], Y as [sy|sy| |sy my ey];
    try congruence;
    try (destruct sx, sy; reflexivity);
    try (destruct sx; reflexivity);
    try (destruct sy; reflexivity).
  cbn [SpecFloat.valid_binary] in HX, HY. unfold SpecFloat.bounded in HX, HY.
  apply andb_prop in HX as [HX _]. apply andb_prop in HY as [HY _].
  pose proof (canonical_emin _ _ HX) as Ex.
  pose proof (canonical_emin _ _ HY) as Ey.
  cbn [SFsub]. cbv zeta.
  rewrite binary_normalize_pos by lia.
  rewrite !shl_align_value by lia.
  unfold SFltb, SFcompare.
  assert (Px : 0 < Zpos mx * 2 ^ (ex - Z.min ey ex))
    by (apply Z.mul_pos_pos; [lia | apply Z.pow_pos_nonneg; lia]).
  assert (Py : 0 < Zpos my * 2 ^ (ey - Z.min ey ex))
    by (apply Z.mul_pos_pos; [lia | apply Z.pow_pos_nonneg; lia]).
  destruct sx, sy; cbn [cond_Zopp].
  - destruct (Z.compare_spec ex ey) as [E|E|E].
    + subst ey. rewrite Z.min_id, Z.sub_diag, Z.pow_0_r, !Z.mul_1_r.
      change (Pos.compare_cont Eq mx my) with (Pos.compare mx my).
      destruct (Pos.compare_spec mx my) as [C|C|C]; cbn [CompOpp];
        [apply Z.ltb_ge | apply Z.ltb_ge | apply Z.ltb_lt]; lia.
    + pose proof (aligned_lt _ _ _ _ HX HY E) as L.
      rewrite Z.min_r by lia. rewrite Z.sub_diag, Z.pow_0_r, Z.mul_1_r.
      apply Z.ltb_ge. lia.
    + pose proof (aligned_lt _ _ _ _ HY HX E) as L.
      rewrite Z.min_l by lia. rewrite Z.sub_diag, Z.pow_0_r, Z.mul_1_r.
      apply Z.ltb_lt. lia.
  - apply Z.ltb_lt. lia.
  - apply Z.ltb_ge. lia.
  - destruct (Z.compare_spec ex ey) as [E|E|E].
    + subst ey. rewrite Z.min_id, Z.sub_diag, Z.pow_0_r, !Z.mul_1_r.
      change (Pos.compare_cont Eq mx my) with (Pos.compare mx my).
      destruct (Pos.compare_spec mx my) as [C|C|C];
        [apply Z.ltb_ge | apply Z.ltb_lt | apply Z.ltb_ge]; lia.
    + pose proof (aligned_lt _ _ _ _ HX HY E) as L.
      rewrite Z.min_r by lia. rewrite Z.sub_diag, Z.pow_0_r, Z.mul_1_r.
      apply Z.ltb_lt. lia.
    + pose proof (aligned_lt _ _ _ _ HY HX E) as L.
      rewrite Z.min_l by lia. rewrite Z.sub_diag, Z.pow_0_r, Z.mul_1_r.
      apply Z.ltb_ge. lia.
Qed.

End Rounding.

(** On numbers, [y - x] is positive exactly when [x] is below [y]: the
    difference of two distinct numbers is never rounded to zero. *)
Lemma sub_pos_ltb (x y : float) :
  is_nan x = false -> is_nan y = false ->
  (0 <? y - x)%float = (x <? y)%float.
Proof.
  intros Hx Hy.
  rewrite !ltb_spec, sub_spec.
  change (Prim2SF 0) with (S754_zero false).
  apply SFsub_pos.
  - reflexivity.
  - apply Prim2SF_valid.
  - apply Prim2SF_valid.
  - now apply F64Facts.is_nan_spec.
  - now apply F64Facts.is_nan_spec.
Qed.
End RoundingFacts.

(** ** Cosine similarity: totality and symmetry *)

Lemma cosineSimilarity_total {num : Type} (A : Arith num) (v1 v2 : list num) :
  List.length v1 = List.length v2 ->
  exists s, Generic.cosineSimilarity A (Some v1) (Some v2) = Ok s.
Proof.
  intros L. unfold Generic.cosineSimilarity.
  apply Nat.eqb_eq in L. rewrite L. simpl.
  destruct (Generic.cosineLoop A v1 v2 _) as [[d n1] n2].
  destruct (strictEq A _ _); eauto.
Qed.

Section CosineSymmetry.
Context {num : Type} (A : Arith num).
Hypothesis times_comm : forall a b, times A a b = times A b a.

Lemma cosineLoop_swap :
  forall vec1 vec2 d n1 n2,
    Generic.cosineLoop A vec2 vec1 (d, n2, n1)
    = (let '(d', a, b) := Generic.cosineLoop A vec1 vec2 (d, n1, n2) in (d', b, a)).
Proof.
  induction vec1 as [|a vec1 IH]; intros [|b vec2] d n1 n2; simpl; try reflexivity.
  rewrite (times_comm b a). apply IH.
Qed.

Lemma cosineSimilarity_sym (vec1 vec2 : list num) :
  List.length vec1 = List.length vec2 ->
  Generic.cosineSimilarity A (Some vec1) (Some vec2)
  = Generic.cosineSimilarity A (Some vec2) (Some vec1).
Proof.
  intros L. unfold Generic.cosineSimilarity. rewrite L, Nat.eqb_refl. simpl.
  rewrite (cosineLoop_swap vec1 vec2).
  destruct (Generic.cosineLoop A vec1 vec2 _) as [[d a] b].
  now rewrite (times_comm b a).
Qed.
End CosineSymmetry.

Lemma cosineSimilarity_sym_F64 (vec1 vec2 : list float) :
  List.length vec1 = List.length vec2 ->
  GraphRAG.cosineSimilarity (Some vec1) (Some vec2)
  = GraphRAG.cosineSimilarity (Some vec2) (Some vec1).
Proof. apply cosineSimilarity_sym. exact F64Facts.mul_comm. Qed.

(** ** [createGraph]: the node phase *)

Module CreateGraphFacts.
Import GraphRAG GraphSpec JsMapFacts.
Local Open Scope float_scope.
Local Open Scope nat_scope.

Lemma addNode_ok (g g' : t) (node : GraphNode.t) :
  addNode g node = Ok g' ->
  (exists v, GraphNode.embedding node = Some v /\ List.length v = dimension g)
  /\ nodes g' = JsMap.set (GraphNode.id node) node (nodes g)
  /\ edges g' = edges g /\ dimension g' = dimension g
  /\ threshold g' = threshold g.
Proof.
  unfold addNode. destruct (GraphNode.embedding node) as [v|]; [|discriminate].
  destruct (List.length v =? dimension g) eqn:E; simpl; [|discriminate].
  intros H; injection H as <-. apply Nat.eqb_eq in E. simpl. eauto 10.
Qed.

(** A node phase that completes has found, for every chunk, an embedding
    of the configured dimension; it adds the index keys and nothing else. *)
Lemma createNodes_ok (embeddings : list GraphEmbedding.t) :
  forall chunks k g g',
    foldM (createNode embeddings) (indexed_from k chunks) g = Ok g' ->
    edges g' = edges g /\ dimension g' = dimension g
    /\ threshold g' = threshold g
    /\ (forall i, k <= i < k + List.length chunks ->
          exists v, vectorAt embeddings i = Some v
                    /\ List.length v = dimension g)
    /\ (forall s, JsMap.has s (nodes g') =
                  JsMap.has s (nodes g)
                  || existsb (fun i => String.eqb (index_toString i) s)
                             (seq k (List.length chunks))).
Proof.
  induction chunks as [|chunk chunks IH]; intros k g g' H; simpl in H.
  - injection H as <-. split; [|split; [|split; [|split]]]; auto.
    + intros i Hi. simpl in Hi. lia.
    + intros s. simpl. now rewrite orb_false_r.
  - apply bind_ok in H as (g1 & H1 & H2).
    apply addNode_ok in H1 as ((v & Ev & Lv) & N1 & E1 & D1 & T1). simpl in Ev, N1.
    apply IH in H2 as (E2 & D2 & T2 & V2 & K2).
    split; [|split; [|split; [|split]]]; try congruence.
    + intros i Hi. destruct (Nat.eq_dec i k) as [->|Ne]; [eauto|].
      destruct (V2 i) as (v' & ? & ?); [simpl in Hi; lia|].
      exists v'. split; congruence.
    + intros s. rewrite K2, N1, has_set. simpl.
      destruct (JsMap.has s (nodes g)); simpl; [now rewrite orb_true_r|].
      now rewrite orb_false_r.
Qed.

Lemma createNodes_total (embeddings : list GraphEmbedding.t) :
  forall chunks k g,
    (forall i, k <= i < k + List.length chunks ->
       exists v, vectorAt embeddings i = Some v /\ List.length v = dimension g) ->
    exists g', foldM (createNode embeddings) (indexed_from k chunks) g = Ok g'.
Proof.
  induction chunks as [|chunk chunks IH]; intros k g H; simpl; [eauto|].
  destruct (H k) as (v & Ev & Lv); [simpl; lia|].
  unfold addNode at 1. simpl. rewrite Ev.
  apply Nat.eqb_eq in Lv. rewrite Lv. simpl.
  apply IH. simpl. intros i Hi. apply H. simpl. lia.
Qed.

Lemma has_index_after_nodes (n k i : nat) (b : bool) :
  k <= i < k + n ->
  b || existsb (fun i' => String.eqb (index_toString i') (index_toString i))
               (seq k n) = true.
Proof.
  intros Hi. apply orb_true_iff. right. apply existsb_exists.
  exists i. split; [apply in_seq; lia | apply String.eqb_refl].
Qed.
End CreateGraphFacts.

(** ** [createGraph]: the edge phase *)

Module LinkFacts.
Import GraphRAG GraphSpec JsMapFacts CreateGraphFacts.
Local Open Scope float_scope.
Local Open Scope nat_scope.

Lemma withEdges_same (g : t) : withEdges g (edges g) = g.
Proof. now destruct g. Qed.

Lemma linkPair_spec (embeddings : list GraphEmbedding.t) (i j : nat) (g : t) :
  JsMap.has (index_toString i) (nodes g) = true ->
  JsMap.has (index_toString j) (nodes g) = true ->
  (exists s, cosineSimilarity (vectorAt embeddings i) (vectorAt embeddings j) = Ok s) ->
  linkPair embeddings i g j =
  Ok (withEdges g (edges g ++ pairEdges embeddings (threshold g) i j)).
Proof.
  intros Hi Hj [s Hs]. unfold linkPair, pairEdges. rewrite Hs. simpl.
  destruct (PrimFloat.ltb (threshold g) s).
  - unfold addEdge. simpl. rewrite Hi, Hj. reflexivity.
  - now rewrite app_nil_r, withEdges_same.
Qed.

Lemma linkFrom_spec (embeddings : list GraphEmbedding.t) (i : nat) :
  forall js g,
    JsMap.has (index_toString i) (nodes g) = true ->
    (forall j, In j js ->
       JsMap.has (index_toString j) (nodes g) = true
       /\ exists s, cosineSimilarity (vectorAt embeddings i)
                                     (vectorAt embeddings j) = Ok s) ->
    foldM (linkPair embeddings i) js g =
    Ok (withEdges g (edges g ++ flat_map (pairEdges embeddings (threshold g) i) js)).
Proof.
  induction js as [|j js IH]; intros g Hi Hjs; simpl.
  - now rewrite app_nil_r, withEdges_same.
  - destruct (Hjs j) as [Hj Hs]; [now left|].
    rewrite (linkPair_spec _ _ _ _ Hi Hj Hs). simpl.
    rewrite IH; simpl; auto.
    + unfold withEdges. simpl. now rewrite app_assoc.
    + intros j' Hj'. apply Hjs. now right.
Qed.

Lemma linkAll_spec (embeddings : list GraphEmbedding.t) (n : nat) :
  forall is_ g,
    (forall i, In i is_ -> i < n) ->
    (forall i, i < n -> JsMap.has (index_toString i) (nodes g) = true) ->
    (forall i j, i < n -> j < n ->
       exists s, cosineSimilarity (vectorAt embeddings i)
                                  (vectorAt embeddings j) = Ok s) ->
    foldM (linkFrom embeddings n) is_ g =
    Ok (withEdges g (edges g ++ flat_map (rowEdges embeddings (threshold g) n) is_)).
Proof.
  induction is_ as [|i is_ IH]; intros g Hb Hn Hs; simpl.
  - now rewrite app_nil_r, withEdges_same.
  - unfold linkFrom at 1. rewrite linkFrom_spec.
    + simpl. rewrite IH; simpl; auto.
      * unfold withEdges, rowEdges. simpl. now rewrite app_assoc.
      * intros i' Hi'. apply Hb. now right.
    + apply Hn, Hb. now left.
    + intros j Hj. apply in_seq in Hj.
      assert (i < n) by (apply Hb; now left).
      split; [apply Hn | apply Hs]; lia.
Qed.

(** What a completed [createGraph] on a fresh graph has built. *)
Lemma createGraph_spec (dim : nat) (thr : float)
    (chunks : list GraphChunk.t) (embeddings : list GraphEmbedding.t) (g : t) :
  createGraph (new dim thr) chunks embeddings = Ok g ->
  let n := List.length chunks in
  n <> 0 /\ n = List.length embeddings
  /\ edges g = allEdges embeddings thr n
  /\ dimension g = dim /\ threshold g = thr
  /\ (forall i, i < n ->
        exists v, vectorAt embeddings i = Some v /\ List.length v = dim)
  /\ (forall s, JsMap.has s (nodes g) =
                existsb (fun i => String.eqb (index_toString i) s) (seq 0 n)).
Proof.
  intros H. cbv zeta. unfold createGraph in H.
  set (n := List.length chunks) in *.
  destruct (n =? 0) eqn:E0; simpl in H; [discriminate|].
  destruct (List.length embeddings =? 0) eqn:E1; simpl in H; [discriminate|].
  destruct (n =? List.length embeddings) eqn:E2; simpl in H; [|discriminate].
  apply Nat.eqb_neq in E0. apply Nat.eqb_eq in E2.
  apply bind_ok in H as (g1 & H1 & H2).
  apply createNodes_ok in H1 as (Ed & Di & Th & Ve & Ke). simpl in *.
  assert (Hv : forall i, i < n ->
            exists v, vectorAt embeddings i = Some v /\ List.length v = dim)
    by (intros i Hi; apply Ve; fold n; lia).
  rewrite linkAll_spec in H2.
  - injection H2 as <-. simpl. rewrite Ed, Th. simpl.
    repeat split; auto.
  - intros i Hi. apply in_seq in Hi. lia.
  - intros i Hi. rewrite Ke. apply (has_index_after_nodes n 0 i false). lia.
  - intros i j Hi Hj.
    destruct (Hv i Hi) as (vi & -> & Li), (Hv j Hj) as (vj & -> & Lj).
    apply cosineSimilarity_total. congruence.
Qed.

Lemma createGraph_total (dim : nat) (thr : float)
    (chunks : list GraphChunk.t) (embeddings : list GraphEmbedding.t) :
  chunks <> [] -> List.length chunks = List.length embeddings ->
  (forall e, In e embeddings -> List.length (GraphEmbedding.vector e) = dim) ->
  exists g, createGraph (new dim thr) chunks embeddings = Ok g.
Proof.
  intros Hne Hlen Hdim. unfold createGraph.
  assert (N0 : List.length chunks <> 0) by (destruct chunks; simpl; congruence).
  destruct (List.length chunks =? 0) eqn:E0; [apply Nat.eqb_eq in E0; lia|].
  destruct (List.length embeddings =? 0) eqn:E1; [apply Nat.eqb_eq in E1; lia|].
  rewrite (proj2 (Nat.eqb_eq _ _) Hlen). simpl.
  assert (Hv : forall i, i < List.length chunks ->
            exists v, vectorAt embeddings i = Some v /\ List.length v = dim).
  { intros i Hi. unfold vectorAt.
    destruct (nth_error embeddings i) as [e|] eqn:Ee.
    - exists (GraphEmbedding.vector e). split; [reflexivity|].
      apply Hdim. eapply nth_error_In; eauto.
    - apply nth_error_None in Ee. lia. }
  destruct (createNodes_total embeddings chunks 0 (new dim thr)) as [g1 H1].
  { intros i Hi. apply Hv. lia. }
  unfold indexed. rewrite H1. simpl.
  pose proof (createNodes_ok _ _ _ _ _ H1) as (Ed & Di & Th & Ve & Ke).
  rewrite linkAll_spec; eauto.
  - intros i Hi. apply in_seq in Hi. lia.
  - intros i Hi. rewrite Ke.
    apply (has_index_after_nodes (List.length chunks) 0 i false). lia.
  - intros i j Hi Hj.
    destruct (Hv i Hi) as (vi & -> & Li), (Hv j Hj) as (vj & -> & Lj).
    apply cosineSimilarity_total. congruence.
Qed.
End LinkFacts.

(** ** [createGraph]: the edge array *)

Module EdgeFacts.
Import GraphRAG GraphSpec.
Local Open Scope float_scope.
Local Open Scope nat_scope.

Lemma in_pairEdges (embeddings : list GraphEmbedding.t) (thr : float)
    (i j : nat) (e : GraphEdge.t) :
  In e (pairEdges embeddings thr i j) <->
  exists s, cosineSimilarity (vectorAt embeddings i) (vectorAt embeddings j) = Ok s
            /\ PrimFloat.ltb thr s = true
            /\ (e = edgeOf i j s \/ e = edgeOf j i s).
Proof.
  unfold pairEdges.
  destruct (cosineSimilarity _ _) as [s|err].
  - destruct (PrimFloat.ltb thr s) eqn:L; simpl.
    + split.
      * intros [<- | [<- | []]]; exists s; auto.
      * intros (s' & E & _ & [-> | ->]); injection E as <-; auto.
    + split; [tauto|]. intros (s' & E & L' & _). injection E as <-. congruence.
  - simpl. split; [tauto|]. intros (s' & E & _). discriminate.
Qed.

Lemma in_allEdges (embeddings : list GraphEmbedding.t) (thr : float)
    (n : nat) (e : GraphEdge.t) :
  In e (allEdges embeddings thr n) <->
  exists i j s,
    i < j < n
    /\ cosineSimilarity (vectorAt embeddings i) (vectorAt embeddings j) = Ok s
    /\ PrimFloat.ltb thr s = true
    /\ (e = edgeOf i j s \/ e = edgeOf j i s).
Proof.
  unfold allEdges, rowEdges. rewrite in_flat_map. split.
  - intros (i & Hi & He). apply in_flat_map in He as (j & Hj & He).
    apply in_seq in Hi, Hj. apply in_pairEdges in He as (s & ? & ? & ?).
    exists i, j, s. repeat split; auto; lia.
  - intros (i & j & s & Hij & Hs & Hl & He).
    exists i. split; [apply in_seq; lia|].
    apply in_flat_map. exists j. split; [apply in_seq; lia|].
    apply in_pairEdges. eauto.
Qed.

(** Lists built row by row have no repetition when every element tells
    the row it comes from. *)
Lemma NoDup_flat_map_tagged {A B : Type} (tag : B -> A) (f : A -> list B) :
  forall l : list A,
    NoDup l ->
    (forall a b, In a l -> In b (f a) -> tag b = a) ->
    (forall a, In a l -> NoDup (f a)) ->
    NoDup (flat_map f l).
Proof.
  induction l as [|a l IH]; intros Hl Htag Hf; simpl; [constructor|].
  inversion Hl as [|a' l' Ha Hl']; subst.
  apply NoDup_app.
  - apply Hf. now left.
  - apply IH; auto.
    + intros a' b Ha' Hb. apply Htag; auto. now right.
    + intros a' Ha'. apply Hf. now right.
  - intros b Hb Hb'. apply in_flat_map in Hb' as (a' & Ha' & Hb').
    assert (tag b = a) by (apply Htag; auto; now left).
    assert (tag b = a') by (apply Htag; auto; now right).
    congruence.
Qed.

Lemma keyNames_inj : forall k k', keyNames k = keyNames k' -> k = k'.
Proof.
  intros [a b] [c d]. unfold keyNames. simpl. intros H. injection H as H1 H2.
  apply index_toString_inj in H1, H2. congruence.
Qed.

Lemma pairKeys_cases (embeddings : list GraphEmbedding.t) (thr : float)
    (i j : nat) :
  i <> j ->
  (pairKeys embeddings thr i j = [(i, j); (j, i)]
   \/ pairKeys embeddings thr i j = [])
  /\ map endpoints (pairEdges embeddings thr i j)
     = map keyNames (pairKeys embeddings thr i j).
Proof.
  intros Hij. unfold pairKeys, pairEdges.
  destruct (cosineSimilarity _ _) as [s|err]; [|simpl; auto].
  destruct (PrimFloat.ltb thr s); [|simpl; auto].
  cbn [map edgeOf GraphEdge.source]. rewrite String.eqb_refl.
  destruct (String.eqb (index_toString j) (index_toString i)) eqn:E.
  - apply String.eqb_eq, index_toString_inj in E. congruence.
  - split; [now left | reflexivity].
Qed.

Lemma endpoints_allEdges (embeddings : list GraphEmbedding.t) (thr : float)
    (n : nat) :
  map endpoints (allEdges embeddings thr n)
  = map keyNames
      (flat_map (fun i => flat_map (pairKeys embeddings thr i)
                                   (seq (S i) (n - S i)))
                (seq 0 n)).
Proof.
  unfold allEdges, rowEdges.
  rewrite !flat_map_concat_map, !concat_map, !map_map. f_equal.
  apply map_ext_in. intros i _.
  rewrite !flat_map_concat_map, !concat_map, !map_map. f_equal.
  apply map_ext_in. intros j Hj. apply in_seq in Hj.
  apply pairKeys_cases. lia.
Qed.

Lemma NoDup_keys (embeddings : list GraphEmbedding.t) (thr : float) (n : nat) :
  NoDup (flat_map (fun i => flat_map (pairKeys embeddings thr i)
                                     (seq (S i) (n - S i)))
                  (seq 0 n)).
Proof.
  apply (NoDup_flat_map_tagged (fun k => Nat.min (fst k) (snd k))).
  - apply seq_NoDup.
  - intros i k _ Hk. apply in_flat_map in Hk as (j & Hj & Hk).
    apply in_seq in Hj.
    destruct (pairKeys_cases embeddings thr i j) as [[E|E] _]; [lia| |];
      rewrite E in Hk; simpl in Hk;
      [destruct Hk as [<- | [<- | []]]; simpl; lia | tauto].
  - intros i _.
    apply (NoDup_flat_map_tagged (fun k => Nat.max (fst k) (snd k))).
    + apply seq_NoDup.
    + intros j k Hj Hk. apply in_seq in Hj.
      destruct (pairKeys_cases embeddings thr i j) as [[E|E] _]; [lia| |];
        rewrite E in Hk; simpl in Hk;
        [destruct Hk as [<- | [<- | []]]; simpl; lia | tauto].
    + intros j Hj. apply in_seq in Hj.
      destruct (pairKeys_cases embeddings thr i j) as [[E|E] _]; [lia| |];
        rewrite E; [|constructor].
      constructor; [|constructor; [tauto|constructor]].
      simpl. intros [H|[]]. injection H as H. lia.
Qed.

Lemma NoDup_endpoints (embeddings : list GraphEmbedding.t) (thr : float)
    (n : nat) :
  NoDup (map endpoints (allEdges embeddings thr n)).
Proof.
  rewrite endpoints_allEdges.
  apply NoDup_map_NoDup_ForallPairs; [|apply NoDup_keys].
  intros k k' _ _. apply keyNames_inj.
Qed.
End EdgeFacts.

(** ** C1: the edges [createGraph] builds *)

Module CreateGraphEdges.
Import GraphRAG GraphSpec LinkFacts EdgeFacts.
Local Open Scope nat_scope.

(** Entries of the edge array, told by their ordered endpoints: for any
    two distinct indices, in either order. *)
Lemma in_allEdges_sym (embeddings : list GraphEmbedding.t) (thr : float)
    (n dim : nat) (e : GraphEdge.t) :
  (forall i, i < n ->
     exists v, vectorAt embeddings i = Some v /\ List.length v = dim) ->
  In e (allEdges embeddings thr n) <->
  exists i j s,
    i < n /\ j < n /\ i <> j
    /\ cosineSimilarity (vectorAt embeddings i) (vectorAt embeddings j) = Ok s
    /\ PrimFloat.ltb thr s = true
    /\ e = edgeOf i j s.
Proof.
  intros Hv.
  assert (Sym : forall i j, i < n -> j < n ->
            cosineSimilarity (vectorAt embeddings i) (vectorAt embeddings j)
            = cosineSimilarity (vectorAt embeddings j) (vectorAt embeddings i)).
  { intros i j Hi Hj.
    destruct (Hv i Hi) as (vi & -> & Li), (Hv j Hj) as (vj & -> & Lj).
    apply cosineSimilarity_sym_F64. congruence. }
  rewrite in_allEdges. split.
  - intros (i & j & s & Hij & Hs & Hl & [-> | ->]).
    + exists i, j, s. repeat split; auto; lia.
    + exists j, i, s. rewrite Sym by lia. repeat split; auto; lia.
  - intros (i & j & s & Hi & Hj & Hij & Hs & Hl & ->).
    destruct (Nat.lt_ge_cases i j) as [Lt|Ge].
    + exists i, j, s. repeat split; auto.
    + exists j, i, s. rewrite Sym by lia. repeat split; auto; lia.
Qed.
End CreateGraphEdges.

(** C1.  [createGraph], called on a fresh graph with non-empty chunk and
    embedding arrays of equal length, returns a graph when every embedding
    has the configured dimension; and in every graph it returns: two distinct
    nodes [i] and [j] are joined by an entry [i -> j] exactly when the cosine
    similarity of their embeddings is strictly above the threshold, in which
    case both [i -> j] and [j -> i] are stored with that similarity as
    weight; every entry is of this kind and has its reverse entry stored;
    no entry joins a node to itself; and no ordered pair of endpoints
    occurs twice in the edge array. *)
Theorem createGraph_edges :
  forall (dim : nat) (thr : float)
         (chunks : list GraphChunk.t) (embeddings : list GraphEmbedding.t),
    chunks <> [] ->
    List.length chunks = List.length embeddings ->
    let n := List.length chunks in
    let similarity i j :=
      GraphRAG.cosineSimilarity (GraphRAG.vectorAt embeddings i)
                                (GraphRAG.vectorAt embeddings j) in
    ((forall e, In e embeddings -> List.length (GraphEmbedding.vector e) = dim) ->
     exists g, GraphRAG.createGraph (GraphRAG.new dim thr) chunks embeddings = Ok g)
    /\ forall g,
        GraphRAG.createGraph (GraphRAG.new dim thr) chunks embeddings = Ok g ->
        (forall i j, (i < n)%nat -> (j < n)%nat -> i <> j ->
           exists s,
             similarity i j = Ok s
             /\ ((exists e, In e (GraphRAG.edges g)
                            /\ GraphEdge.source e = index_toString i
                            /\ GraphEdge.target e = index_toString j)
                 <-> PrimFloat.ltb thr s = true)
             /\ (PrimFloat.ltb thr s = true ->
                 In (GraphSpec.edgeOf i j s) (GraphRAG.edges g)
                 /\ In (GraphSpec.edgeOf j i s) (GraphRAG.edges g)))
        /\ (forall e, In e (GraphRAG.edges g) ->
              exists i j,
                (i < n)%nat /\ (j < n)%nat /\ i <> j
                /\ e = GraphSpec.edgeOf i j (GraphEdge.weight e)
                /\ similarity i j = Ok (GraphEdge.weight e)
                /\ PrimFloat.ltb thr (GraphEdge.weight e) = true
                /\ In (GraphRAG.reverse e) (GraphRAG.edges g))
        /\ (forall e, In e (GraphRAG.edges g) ->
              GraphEdge.source e <> GraphEdge.target e)
        /\ NoDup (map GraphSpec.endpoints (GraphRAG.edges g)).
Proof.
  intros dim thr chunks embeddings Hne Hlen n similarity. split.
  { intros Hdim. now apply LinkFacts.createGraph_total. }
  intros g Hg.
  apply LinkFacts.createGraph_spec in Hg as (_ & _ & Ed & _ & _ & Hv & _).
  fold n in Ed, Hv. rewrite Ed.
  pose proof (fun e => CreateGraphEdges.in_allEdges_sym embeddings thr n dim e Hv) as In_iff.
  assert (Sym : forall i j, (i < n)%nat -> (j < n)%nat ->
            similarity i j = similarity j i).
  { intros i j Hi Hj. unfold similarity.
    destruct (Hv i Hi) as (vi & -> & Li), (Hv j Hj) as (vj & -> & Lj).
    apply cosineSimilarity_sym_F64. congruence. }
  assert (Tot : forall i j, (i < n)%nat -> (j < n)%nat ->
            exists s, similarity i j = Ok s).
  { intros i j Hi Hj. unfold similarity.
    destruct (Hv i Hi) as (vi & -> & Li), (Hv j Hj) as (vj & -> & Lj).
    apply cosineSimilarity_total. congruence. }
  split; [|split; [|split]].
  - intros i j Hi Hj Hij. destruct (Tot i j Hi Hj) as [s Hs].
    exists s. split; [exact Hs|]. split; [split|].
    + intros (e & He & Hsrc & Htgt).
      apply In_iff in He as (i' & j' & s' & _ & _ & _ & Hs' & Hl & ->).
      simpl in Hsrc, Htgt.
      apply index_toString_inj in Hsrc, Htgt. subst i' j'.
      fold (similarity i j) in Hs'. congruence.
    + intros Hl. exists (GraphSpec.edgeOf i j s). split; [|split; reflexivity].
      apply In_iff. exists i, j, s. repeat split; auto.
    + intros Hl. split; apply In_iff.
      * exists i, j, s. repeat split; auto.
      * exists j, i, s. fold (similarity j i). rewrite <- Sym by auto.
        repeat split; auto.
  - intros e He.
    apply In_iff in He as (i & j & s & Hi & Hj & Hij & Hs & Hl & ->).
    exists i, j. simpl. repeat split; auto.
    apply In_iff. exists j, i, s. fold (similarity j i). rewrite <- Sym by auto.
    repeat split; auto.
  - intros e He.
    apply In_iff in He as (i & j & s & Hi & Hj & Hij & Hs & Hl & ->).
    simpl. intros E. apply index_toString_inj in E. contradiction.
  - apply EdgeFacts.NoDup_endpoints.
Qed.

Lemma createGraph_edges_witness :
  exists g,
    GraphRAG.createGraph (GraphRAG.new 2 0.7%float) Sample.chunks3 Sample.embeddings3
    = Ok g
    /\ NoDup (map GraphSpec.endpoints (GraphRAG.edges g)).
Proof.
  pose proof (createGraph_edges 2 0.7%float Sample.chunks3 Sample.embeddings3
                ltac:(discriminate) eq_refl) as [_ H].
  eexists. split; [reflexivity|]. apply (H _ eq_refl).
Defined.

(** ** C5: cosine similarity *)

Module CosineFacts.
Local Open Scope float_scope.


End CosineFacts.

Module ExactFacts.
Import ExactSpec.
Local Open Scope R_scope.









End ExactFacts.




(** ** C3: freshness *)

Module FreshnessFacts.
Import HybridTool.
Local Open Scope float_scope.

(** The formula at its two ends: published now, and published 365 days or
    400 days ago. *)
Example freshness_today : freshness (daysSince 1700000000000 1700000000000) = 1.
Proof. reflexivity. Qed.

Example freshness_one_year :
  freshness (daysSince (1700000000000 + 365 * MS_PER_DAY) 1700000000000) = 0
  /\ freshness (daysSince (1700000000000 + 400 * MS_PER_DAY) 1700000000000) = 0.
Proof. split; reflexivity. Qed.

Lemma freshness_nan : freshness nan = nan.
Proof. reflexivity. Qed.

(** Without a [publishedAt] the freshness is NaN, and so is the score. *)
Lemma freshnessScore_without_publishedAt (B : Builtins) (now : float)
    (props : list (string * value)) :
  lookup "publishedAt" props = VUndefined ->
  freshnessScore B now (VObj props) = Ok nan.
Proof.
  intros H. unfold freshnessScore, field, optField. simpl bind. rewrite H.
  unfold Coerce.Date_getTime, daysSince. now rewrite F64Facts.sub_nan_r, F64Facts.div_nan_l.
Qed.

Lemma weightedSum_nan_freshness (weights : Weights float) (v p t : float) :
  Generic.weightedSum F64.arith weights v nan p t = nan.
Proof.
  unfold Generic.weightedSum. cbn [plus times F64.arith].
  now rewrite F64Facts.mul_nan_r, F64Facts.add_nan_r, !F64Facts.add_nan_l.
Qed.

Lemma calculateHybridScore_without_publishedAt (B : Builtins) (now vectorScore : float)
    (props : list (string * value)) (queryText : string)
    (weights : Weights float) (s : float) :
  lookup "publishedAt" props = VUndefined ->
  calculateHybridScore B now vectorScore (VObj props) queryText weights = Ok s ->
  s = nan.
Proof.
  intros H. unfold calculateHybridScore.
  rewrite (freshnessScore_without_publishedAt B now props H). cbn [bind].
  destruct (popularityScore B (VObj props)) as [p|]; [|discriminate]. cbn [bind].
  destruct (tagScore (VObj props) queryText) as [t|]; [|discriminate]. cbn [bind].
  rewrite weightedSum_nan_freshness. congruence.
Qed.
End FreshnessFacts.

(** C3, at the failing input.  For an item whose metadata has no
    [publishedAt] (here: no field at all) the freshness component is NaN,
    not 0, and [calculateHybridScore] returns NaN, whatever the evaluation
    time, the vector score, the query text and the weights. *)
Theorem freshness_missing_publishedAt :
  forall (B : Builtins) (now vectorScore : float) (queryText : string)
         (weights : Weights float),
    HybridTool.freshnessScore B now (VObj []) = Ok nan
    /\ HybridTool.calculateHybridScore B now vectorScore (VObj []) queryText weights
       = Ok nan.
Proof.
  intros B now vectorScore queryText weights. split.
  - now apply FreshnessFacts.freshnessScore_without_publishedAt.
  - destruct (HybridTool.calculateHybridScore B now vectorScore (VObj []) queryText weights)
      as [s|e] eqn:E.
    + f_equal.
      exact (FreshnessFacts.calculateHybridScore_without_publishedAt
               B now vectorScore [] queryText weights s eq_refl E).
    + exfalso. revert E. unfold HybridTool.calculateHybridScore.
      rewrite (FreshnessFacts.freshnessScore_without_publishedAt B now [] eq_refl).
      discriminate.
Qed.

(** ** C7: monotonicity of the weighted sum *)




(** ** C9: re-ranking by hybrid score *)

Module RankFacts.
Import HybridTool.
Local Open Scope float_scope.

(** A list of two or more scores that is ordered holds no NaN. *)
Lemma nonIncreasing_no_nan :
  forall scores, (2 <= List.length scores)%nat -> nonIncreasing scores ->
                 Forall (fun s => is_nan s = false) scores.
Proof.
  induction scores as [|a [|b rest] IH]; simpl; intros L H; try lia.
  destruct H as [Hab H].
  apply F64Facts.leb_not_nan in Hab as [Nb Na].
  constructor; [exact Na|].
  destruct rest as [|c rest]; [repeat constructor; exact Nb|].
  apply IH; [simpl; lia | exact H].
Qed.

Lemma slice0_length {A : Type} (k : nat) (l : list A) :
  (List.length (JsArray.slice0 k l) <= k)%nat.
Proof. unfold JsArray.slice0. apply firstn_le_length. Qed.

Lemma rank_length (topK : nat) (scoredResults : list Scored.t) :
  (List.length (rank topK scoredResults) <= topK)%nat.
Proof. apply slice0_length. Qed.
End RankFacts.

(** C9, at a failing input.  The store, asked for [topK * 2 = 6] candidates,
    returns three, of which ["b"] has no [publishedAt]; its hybrid score is
    NaN, the comparator of the sort returns NaN against it, and the sources
    come back as [a, b, c] with scores [0.32, NaN, 0.74]: not ordered by
    non-increasing hybrid score (["c"], with the highest score, is last),
    and no reordering of these three scores would be. *)
Theorem hybrid_rank_with_missing_date :
  exists out,
    HybridTool.execute Sample.builtins Sample.hybridHost Sample.hybridContext = Ok out
    /\ map HybridTool.Source.id (HybridTool.Output.sources out) = ["a"; "b"; "c"]
    /\ map HybridTool.Source.hybridScore (HybridTool.Output.sources out)
       = [Some 0.32; Some nan; Some 0.74]%float
    /\ ~ nonIncreasing [0.32; nan; 0.74]%float
    /\ PrimFloat.ltb 0.32 0.74 = true
    /\ (forall scores, In nan scores -> (2 <= List.length scores)%nat ->
                      ~ nonIncreasing scores).
Proof.
  eexists. split; [reflexivity|]. split; [reflexivity|]. split; [reflexivity|].
  assert (G : forall scores, In nan scores -> (2 <= List.length scores)%nat ->
                             ~ nonIncreasing scores).
  { intros scores Hin L H.
    pose proof (RankFacts.nonIncreasing_no_nan scores L H) as F.
    rewrite Forall_forall in F. specialize (F nan Hin). discriminate. }
  split; [|split; [reflexivity | exact G]].
  apply G; simpl; auto.
Qed.

(** ** C6: [query] on a wrong dimension and on an empty graph *)

(** C6.  [query] throws (the code's [new Error("Query embedding must have
    dimension ...")], before any other step) when the length of the query
    embedding differs from the graph's dimension; on a graph without nodes
    and with a query of the right length it returns the empty list and
    throws nothing. *)
Theorem query_dimension_and_empty :
  forall (Math_random : nat -> float) (g : GraphRAG.t) (query : list float)
         (topK randomWalkSteps : nat) (restartProb : float) (calls : nat),
    (List.length query <> GraphRAG.dimension g ->
     GraphRAG.query Math_random g query topK randomWalkSteps restartProb calls
     = (Throw (Error ("Query embedding must have dimension "
                        ++ index_toString (GraphRAG.dimension g))), calls))
    /\ (List.length query = GraphRAG.dimension g ->
        GraphRAG.nodes g = [] ->
        GraphRAG.query Math_random g query topK randomWalkSteps restartProb calls
        = (Ok [], calls)).
Proof.
  intros rnd g q topK steps rp calls. unfold GraphRAG.query. split.
  - intros N. apply Nat.eqb_neq in N. now rewrite N.
  - intros E Hn. apply Nat.eqb_eq in E. rewrite E, Hn. simpl.
    unfold JsArray.slice0. rewrite firstn_nil. simpl. now rewrite firstn_nil.
Qed.

Lemma query_dimension_and_empty_witness :
  GraphRAG.query (fun _ => 0.5%float) (GraphRAG.new 2 0.7%float) [1%float] 10 100 0.15%float 0
  = (Throw (Error "Query embedding must have dimension 2"), 0%nat)
  /\ GraphRAG.query (fun _ => 0.5%float) (GraphRAG.new 2 0.7%float) [1; 0]%float 10 100 0.15%float 0
     = (Ok [], 0%nat).
Proof.
  destruct (query_dimension_and_empty (fun _ => 0.5%float) (GraphRAG.new 2 0.7%float)
              [1%float] 10 100 0.15%float 0) as [H1 _].
  destruct (query_dimension_and_empty (fun _ => 0.5%float) (GraphRAG.new 2 0.7%float)
              [1; 0]%float 10 100 0.15%float 0) as [_ H2].
  split; [apply H1; discriminate | apply H2; reflexivity].
Defined.

(** ** C10: the random walk stays on the graph *)

Module WalkFacts.
Import GraphRAG GraphSpec JsMapFacts.
Local Open Scope float_scope.

Lemma lastOf_In {A : Type} (l : list A) (a : A) : lastOf l = Some a -> In a l.
Proof.
  induction l as [|b [|c l] IH]; simpl; intros H; try discriminate.
  - injection H as ->. now left.
  - right. apply IH. exact H.
Qed.

Lemma lastOf_nonempty {A : Type} (l : list A) : l <> [] -> exists a, lastOf l = Some a.
Proof.
  induction l as [|b [|c l] IH]; intros H; [congruence | simpl; eauto |].
  destruct IH as [a Ha]; [discriminate|]. exists a. exact Ha.
Qed.

Lemma scanNeighbors_In (neighbors : list Neighbor.t) :
  forall remainingWeight nodeId,
    scanNeighbors neighbors remainingWeight = Some nodeId ->
    exists n, In n neighbors /\ Neighbor.id n = nodeId.
Proof.
  induction neighbors as [|n rest IH]; simpl; intros r nodeId H; [discriminate|].
  destruct (r - Neighbor.weight n <=? 0).
  - injection H as <-. exists n. auto.
  - apply IH in H as (n' & Hn' & E). exists n'. auto.
Qed.

(** [selectWeightedNeighbor] on a non-empty list: the id of a listed
    neighbor, the last one when the scan runs to the end. *)
Lemma selectWeightedNeighbor_In (Math_random : nat -> float)
    (neighbors : list Neighbor.t) (calls : nat) :
  neighbors <> [] ->
  exists n,
    In n neighbors
    /\ selectWeightedNeighbor Math_random neighbors calls
       = (Some (Neighbor.id n), S calls)
    /\ (scanNeighbors neighbors
          (Math_random calls
           * fold_left (fun sum n => sum + Neighbor.weight n) neighbors 0) = None ->
        lastOf neighbors = Some n).
Proof.
  intros Hne. unfold selectWeightedNeighbor.
  destruct (scanNeighbors neighbors _) as [nodeId|] eqn:E.
  - apply scanNeighbors_In in E as (n & Hn & <-). exists n.
    repeat split; auto. discriminate.
  - destruct (lastOf_nonempty neighbors Hne) as [n Hn]. exists n.
    rewrite Hn. simpl. repeat split; auto. now apply lastOf_In.
Qed.

Lemma getNeighbors_In (g : t) (nodeId : string) (n : Neighbor.t) :
  In n (getNeighbors g nodeId) ->
  exists e, In e (edges g) /\ GraphEdge.source e = nodeId
            /\ GraphEdge.target e = Neighbor.id n.
Proof.
  unfold getNeighbors. intros H. apply in_map_iff in H as (e & <- & He).
  apply filter_In in He as [He Hs]. apply String.eqb_eq in Hs.
  exists e. auto.
Qed.

(** One step of the walk: the next node is the seed or a neighbor of the
    current node, and the only visit recorded is that of the current node. *)
Lemma walkStep_moves (Math_random : nat -> float) (g : t) (startNodeId : string)
    (restartProb : float) (visits : JsMap.t float) (currentNodeId : string)
    (calls : nat) :
  exists visits' next calls',
    walkStep Math_random g startNodeId restartProb (visits, currentNodeId, calls)
    = (visits', next, calls')
    /\ visits' = JsMap.set currentNodeId (bump visits currentNodeId) visits
    /\ (next = startNodeId
        \/ exists n, In n (getNeighbors g currentNodeId) /\ next = Neighbor.id n).
Proof.
  unfold walkStep.
  destruct (Math_random calls <? restartProb); [eauto 10|].
  destruct (getNeighbors g currentNodeId) as [|n0 rest] eqn:E; [eauto 10|].
  destruct (selectWeightedNeighbor_In Math_random (n0 :: rest) (S calls))
    as (n & Hn & Hsel & _); [discriminate|].
  rewrite Hsel. eauto 10.
Qed.

Lemma walkStep_onGraph (Math_random : nat -> float) (g : t) (startNodeId : string)
    (restartProb : float) (st : JsMap.t float * string * nat) :
  closed g -> JsMap.has startNodeId (nodes g) = true ->
  onGraph g st -> onGraph g (walkStep Math_random g startNodeId restartProb st).
Proof.
  intros Hc Hs. destruct st as [[visits cur] calls]. intros [Hcur Hvis].
  destruct (walkStep_moves Math_random g startNodeId restartProb visits cur calls)
    as (visits' & next & calls' & -> & -> & Hnext).
  split.
  - destruct Hnext as [-> | (n & Hn & ->)]; [exact Hs|].
    apply getNeighbors_In in Hn as (e & He & _ & <-). now apply Hc.
  - intros nodeId Hin. rewrite keys_set in Hin.
    destruct (JsMap.has cur visits); [now apply Hvis|].
    apply in_app_or in Hin as [Hin | [<- | []]]; [now apply Hvis | exact Hcur].
Qed.

Lemma walkLoop_onGraph (Math_random : nat -> float) (g : t) (startNodeId : string)
    (steps : nat) (restartProb : float) (calls : nat) :
  closed g -> JsMap.has startNodeId (nodes g) = true ->
  onGraph g (walkLoop Math_random g startNodeId steps restartProb calls).
Proof.
  intros Hc Hs. unfold walkLoop. induction steps as [|steps IH]; simpl.
  - split; [exact Hs | intros ? []].
  - now apply walkStep_onGraph.
Qed.

Lemma keys_normalized (total : float) (visits : JsMap.t float) :
  forall (acc : JsMap.t float) (nodeId : string),
    In nodeId
       (JsMap.keys
          (fold_left (fun normalizedVisits '(nodeId, count) =>
                        JsMap.set nodeId (count / total) normalizedVisits)
                     visits acc)) ->
    In nodeId (JsMap.keys acc) \/ In nodeId (JsMap.keys visits).
Proof.
  induction visits as [|[k c] visits IH]; simpl; intros acc nodeId H; [auto|].
  apply IH in H as [H|H]; [|auto].
  rewrite keys_set in H. destruct (JsMap.has k acc); [auto|].
  apply in_app_or in H as [H | [<- | []]]; auto.
Qed.

Lemma randomWalk_onGraph (Math_random : nat -> float) (g : t) (startNodeId : string)
    (steps : nat) (restartProb : float) (calls : nat) :
  closed g -> JsMap.has startNodeId (nodes g) = true ->
  forall nodeId,
    In nodeId (JsMap.keys (fst (randomWalkWithRestart Math_random g startNodeId
                                                      steps restartProb calls))) ->
    JsMap.has nodeId (nodes g) = true.
Proof.
  intros Hc Hs nodeId. unfold randomWalkWithRestart.
  pose proof (walkLoop_onGraph Math_random g startNodeId steps restartProb calls Hc Hs) as H.
  destruct (walkLoop Math_random g startNodeId steps restartProb calls)
    as [[visits cur] calls'].
  destruct H as [_ Hvis]. simpl. intros Hin.
  apply keys_normalized in Hin as [[] | Hin]. now apply Hvis.
Qed.

(** The graphs [createGraph] builds are closed. *)
Lemma createGraph_closed (dim : nat) (thr : float)
    (chunks : list GraphChunk.t) (embeddings : list GraphEmbedding.t) (g : t) :
  createGraph (new dim thr) chunks embeddings = Ok g -> closed g.
Proof.
  intros Hg.
  apply LinkFacts.createGraph_spec in Hg as (_ & _ & Ed & _ & _ & Hv & Hk).
  intros e He. rewrite Ed in He.
  apply EdgeFacts.in_allEdges in He as (i & j & s & Hij & _ & _ & He).
  assert (Hi : JsMap.has (index_toString i) (nodes g) = true).
  { rewrite Hk. apply (CreateGraphFacts.has_index_after_nodes _ 0 i false). lia. }
  assert (Hj : JsMap.has (index_toString j) (nodes g) = true).
  { rewrite Hk. apply (CreateGraphFacts.has_index_after_nodes _ 0 j false). lia. }
  destruct He as [-> | ->]; simpl; auto.
Qed.
End WalkFacts.

(** C10.  On a non-empty neighbor list [selectWeightedNeighbor] returns the
    id of one of the listed neighbors, the last one when the weighted scan
    runs to the end.  So a step of [randomWalkWithRestart] moves from the
    current node to the seed or to a neighbor of the current node; and on a
    graph whose edges join nodes of the graph (every graph [createGraph]
    builds is one), started from a node of the graph, every id the walk
    records a visit for is a key of the graph's node map. *)
Theorem random_walk_stays_on_graph :
  forall Math_random : nat -> float,
    (forall (neighbors : list Neighbor.t) (calls : nat),
        neighbors <> [] ->
        exists n,
          In n neighbors
          /\ GraphRAG.selectWeightedNeighbor Math_random neighbors calls
             = (Some (Neighbor.id n), S calls)
          /\ (GraphRAG.scanNeighbors neighbors
                (Math_random calls
                 * fold_left (fun sum n => sum + Neighbor.weight n) neighbors 0)%float
              = None ->
              GraphRAG.lastOf neighbors = Some n))
    /\ (forall (g : GraphRAG.t) (startNodeId : string) (restartProb : float)
               (visits : JsMap.t float) (currentNodeId : string) (calls : nat),
          exists visits' next calls',
            GraphRAG.walkStep Math_random g startNodeId restartProb
                              (visits, currentNodeId, calls)
            = (visits', next, calls')
            /\ (next = startNodeId
                \/ exists n, In n (GraphRAG.getNeighbors g currentNodeId)
                             /\ next = Neighbor.id n))
    /\ (forall (g : GraphRAG.t) (startNodeId : string) (steps : nat)
               (restartProb : float) (calls : nat),
          GraphSpec.closed g ->
          JsMap.has startNodeId (GraphRAG.nodes g) = true ->
          forall nodeId,
            In nodeId
               (JsMap.keys (fst (GraphRAG.randomWalkWithRestart
                                   Math_random g startNodeId steps restartProb calls))) ->
            JsMap.has nodeId (GraphRAG.nodes g) = true)
    /\ (forall (dim : nat) (thr : float) (chunks : list GraphChunk.t)
               (embeddings : list GraphEmbedding.t) (g : GraphRAG.t),
          GraphRAG.createGraph (GraphRAG.new dim thr) chunks embeddings = Ok g ->
          GraphSpec.closed g).
Proof.
  intros Math_random. split; [|split; [|split]].
  - intros neighbors calls. apply WalkFacts.selectWeightedNeighbor_In.
  - intros g startNodeId restartProb visits currentNodeId calls.
    destruct (WalkFacts.walkStep_moves Math_random g startNodeId restartProb
                                       visits currentNodeId calls)
      as (visits' & next & calls' & E & _ & H).
    exists visits', next, calls'. auto.
  - intros g startNodeId steps restartProb calls.
    apply WalkFacts.randomWalk_onGraph.
  - exact WalkFacts.createGraph_closed.
Qed.

Lemma random_walk_stays_on_graph_witness :
  let neighbors := [ {| Neighbor.id := "1"; Neighbor.weight := 0.9%float |};
                     {| Neighbor.id := "2"; Neighbor.weight := 0.8%float |} ] in
  (exists n,
      In n neighbors
      /\ GraphRAG.selectWeightedNeighbor (fun _ => 0.5%float) neighbors 0
         = (Some (Neighbor.id n), 1%nat))
  /\ (exists g,
        GraphRAG.createGraph (GraphRAG.new 2 0.7%float) Sample.chunks3 Sample.embeddings3
        = Ok g
        /\ forall nodeId,
             In nodeId
                (JsMap.keys (fst (GraphRAG.randomWalkWithRestart
                                    (fun _ => 0.5%float) g "0" 10 0.15%float 0))) ->
             JsMap.has nodeId (GraphRAG.nodes g) = true).
Proof.
  intros neighbors.
  destruct (random_walk_stays_on_graph (fun _ => 0.5%float)) as (H1 & _ & H3 & H4).
  split.
  - destruct (H1 neighbors 0%nat ltac:(discriminate)) as (n & Hn & Hs & _).
    exists n. split; [exact Hn | exact Hs].
  - eexists. split; [reflexivity|].
    apply H3; [|reflexivity].
    apply (H4 2%nat 0.7%float Sample.chunks3 Sample.embeddings3). reflexivity.
Defined.

(** ** C4 and C8: the graph cache *)

Module CacheFacts.
Import GraphTool CacheSpec.
Local Open Scope float_scope.

(** A valid entry is returned as it is: no store request, no allocation,
    no change of the cache. *)
Lemma acquire_hit (B : Builtins) (h : Host.t) (c : Context.t)
    (queryEmbedding : list float) (w : World.t) (entry : GraphCache.t) :
  JsMap.get (cacheKey B (Context.indexName c) (Context.threshold c))
            (World.graphCache w) = Some entry ->
  Context.rebuildGraph c = false ->
  (Host.new_Date h - GraphCache.createdAt entry <? CACHE_TTL_MS) = true ->
  acquire B h c queryEmbedding w = (Ok (Cached (GraphCache.graph entry)), w).
Proof.
  intros Hget Hre Hage. unfold acquire. rewrite Hget. unfold isCacheValid.
  now rewrite Hre, Hage.
Qed.

Lemma acquire_invalid (B : Builtins) (h : Host.t) (c : Context.t)
    (queryEmbedding : list float) (w : World.t) :
  isCacheValid (JsMap.get (cacheKey B (Context.indexName c) (Context.threshold c))
                          (World.graphCache w))
               (Context.rebuildGraph c) (Host.new_Date h) = false ->
  acquire B h c queryEmbedding w = build B h c queryEmbedding w.
Proof. intros H. unfold acquire. now rewrite H. Qed.

(** A build that completes stores the new object under the key, stamped
    with the time of the cache check. *)
Lemma build_ok (B : Builtins) (h : Host.t) (c : Context.t)
    (queryEmbedding : list float) (w : World.t)
    (graphResults : list QueryResult.t) (g : GraphRAG.t) :
  Host.pgVector_query h (graphQuery c queryEmbedding) = Ok graphResults ->
  graphResults <> [] ->
  buildFrom c graphResults = Ok g ->
  let graphRAG := {| GraphObject.address := World.allocations w;
                     GraphObject.object := g |} in
  build B h c queryEmbedding w
  = (Ok (Built graphRAG (Host.buildEnd h - Host.buildStart h)),
     {| World.graphCache :=
          JsMap.set (cacheKey B (Context.indexName c) (Context.threshold c))
                    (entryFor c (Host.new_Date h) graphRAG) (World.graphCache w);
        World.allocations := S (World.allocations w);
        World.randomCalls := World.randomCalls w |}).
Proof.
  intros Hq Hne Hg graphRAG. unfold build.
  fold (graphQuery c queryEmbedding). rewrite Hq.
  destruct graphResults as [|r rest]; [congruence|].
  unfold buildFrom in Hg. cbn [List.length Nat.eqb]. now rewrite Hg.
Qed.

(** When the build throws, the cache map is what it was. *)
Lemma build_throw (B : Builtins) (h : Host.t) (c : Context.t)
    (queryEmbedding : list float) (w w' : World.t) (e : error) :
  build B h c queryEmbedding w = (Throw e, w') ->
  World.graphCache w' = World.graphCache w.
Proof.
  unfold build.
  destruct (Host.pgVector_query h _) as [graphResults|e0].
  - destruct (List.length graphResults =? 0)%nat; [discriminate|].
    destruct (GraphRAG.createGraph _ _ _); [discriminate|].
    intros H. injection H as _ <-. reflexivity.
  - intros H. injection H as _ <-. reflexivity.
Qed.

Lemma acquire_throw (B : Builtins) (h : Host.t) (c : Context.t)
    (queryEmbedding : list float) (w w' : World.t) (e : error) :
  acquire B h c queryEmbedding w = (Throw e, w') ->
  World.graphCache w' = World.graphCache w.
Proof.
  unfold acquire.
  destruct (isCacheValid _ _ _); [destruct (JsMap.get _ _); [discriminate|]|];
    apply build_throw.
Qed.

(** [answer] never touches the cache map or the allocation count. *)
Lemma answer_cache (h : Host.t) (c : Context.t)
    (queryEmbedding : list float) (graphRAG : GraphObject.t) (cacheHit : bool)
    (buildTimeMs : option float) (w w' : World.t) (r : result Output.t) :
  answer h c queryEmbedding graphRAG cacheHit buildTimeMs w = (r, w') ->
  World.graphCache w' = World.graphCache w
  /\ World.allocations w' = World.allocations w
  /\ (forall out, r = Ok out ->
        GraphStats.cacheHit (Output.graphStats out) = cacheHit
        /\ GraphStats.buildTimeMs (Output.graphStats out) = buildTimeMs).
Proof.
  unfold answer.
  destruct (GraphRAG.query _ _ _ _ _ _ _) as [[ranked|e] calls]; intros H;
    injection H as <- <-; simpl; (split; [reflexivity | split; [reflexivity|]]);
    intros out E; [injection E as <-; split; reflexivity | discriminate].
Qed.

(** [execute] once the connection string is set and the query is embedded. *)
Lemma execute_steps (B : Builtins) (h : Host.t) (c : Context.t) (w : World.t)
    (connectionString : string) (queryEmbedding : list float) :
  Host.POSTGRES_CONNECTION_STRING h = Some connectionString ->
  connectionString <> "" ->
  Host.embed h (Context.queryText c) = Ok queryEmbedding ->
  execute B h c w
  = match acquire B h c queryEmbedding w with
    | (Throw e, w') => (Throw e, w')
    | (Ok NoResults, w') => (Ok emptyOutput, w')
    | (Ok (Cached graphRAG), w') =>
        answer h c queryEmbedding graphRAG true None w'
    | (Ok (Built graphRAG buildTimeMs), w') =>
        answer h c queryEmbedding graphRAG false (Some buildTimeMs) w'
    end.
Proof.
  intros Hc Hne He. unfold execute. rewrite Hc.
  destruct connectionString as [|ch rest]; [congruence|]. now rewrite He.
Qed.

(** An invocation that builds: what it stores and what it reports. *)
Lemma execute_build (B : Builtins) (h : Host.t) (c : Context.t) (w w' : World.t)
    (connectionString : string) (queryEmbedding : list float)
    (graphResults : list QueryResult.t) (g : GraphRAG.t) (r : result Output.t) :
  Host.POSTGRES_CONNECTION_STRING h = Some connectionString ->
  connectionString <> "" ->
  Host.embed h (Context.queryText c) = Ok queryEmbedding ->
  isCacheValid (JsMap.get (cacheKey B (Context.indexName c) (Context.threshold c))
                          (World.graphCache w))
               (Context.rebuildGraph c) (Host.new_Date h) = false ->
  Host.pgVector_query h (graphQuery c queryEmbedding) = Ok graphResults ->
  graphResults <> [] ->
  buildFrom c graphResults = Ok g ->
  execute B h c w = (r, w') ->
  let graphRAG := {| GraphObject.address := World.allocations w;
                     GraphObject.object := g |} in
  fst (acquire B h c queryEmbedding w)
  = Ok (Built graphRAG (Host.buildEnd h - Host.buildStart h))
  /\ World.graphCache w'
     = JsMap.set (cacheKey B (Context.indexName c) (Context.threshold c))
                 (entryFor c (Host.new_Date h) graphRAG) (World.graphCache w)
  /\ World.allocations w' = S (World.allocations w)
  /\ (forall out, r = Ok out ->
        GraphStats.cacheHit (Output.graphStats out) = false
        /\ GraphStats.buildTimeMs (Output.graphStats out)
           = Some (Host.buildEnd h - Host.buildStart h)).
Proof.
  intros Hc Hne He Hinv Hq Hres Hg Hex graphRAG.
  rewrite (execute_steps B h c w connectionString queryEmbedding Hc Hne He) in Hex.
  rewrite (acquire_invalid B h c queryEmbedding w Hinv) in *.
  rewrite (build_ok B h c queryEmbedding w graphResults g Hq Hres Hg) in *.
  cbv iota in Hex. apply answer_cache in Hex as (Hcache & Halloc & Hout).
  simpl in Hcache, Halloc. repeat split; auto; now apply Hout.
Qed.

(** An invocation that finds a valid entry: it uses the stored object,
    stores nothing and allocates nothing. *)
Lemma execute_hit (B : Builtins) (h : Host.t) (c : Context.t) (w w' : World.t)
    (connectionString : string) (queryEmbedding : list float)
    (entry : GraphCache.t) (r : result Output.t) :
  Host.POSTGRES_CONNECTION_STRING h = Some connectionString ->
  connectionString <> "" ->
  Host.embed h (Context.queryText c) = Ok queryEmbedding ->
  JsMap.get (cacheKey B (Context.indexName c) (Context.threshold c))
            (World.graphCache w) = Some entry ->
  Context.rebuildGraph c = false ->
  (Host.new_Date h - GraphCache.createdAt entry <? CACHE_TTL_MS) = true ->
  execute B h c w = (r, w') ->
  acquire B h c queryEmbedding w = (Ok (Cached (GraphCache.graph entry)), w)
  /\ World.graphCache w' = World.graphCache w
  /\ World.allocations w' = World.allocations w
  /\ (forall out, r = Ok out ->
        GraphStats.cacheHit (Output.graphStats out) = true
        /\ GraphStats.buildTimeMs (Output.graphStats out) = None).
Proof.
  intros Hc Hne He Hget Hre Hage Hex.
  rewrite (execute_steps B h c w connectionString queryEmbedding Hc Hne He) in Hex.
  rewrite (acquire_hit B h c queryEmbedding w entry Hget Hre Hage) in *.
  cbv iota in Hex. apply answer_cache in Hex as (Hcache & Halloc & Hout).
  repeat split; auto; now apply Hout.
Qed.
End CacheFacts.

(** C4, as amended.  Three invocations with the same index name and
    threshold (so the same cache key), without forced rebuild, the first on
    a cache without entry for the key.  Provided the candidate fetch of the
    first returns at least one row and its graph construction completes:
    the first builds a graph, stores it under the key stamped with its
    [now], and reports [cacheHit = false] with the build time.  The second,
    with [now2 - now1 < CACHE_TTL_MS], takes the stored object itself (same
    address, same fields), stores nothing, allocates nothing and reports
    [cacheHit = true] without build time.  The third, with
    [now3 - now1 < CACHE_TTL_MS] false, and again a fetch with at least one
    row and a construction that completes, builds a new object (another
    address), overwrites the entry of the key and reports [cacheHit = false]. *)
Theorem cache_lifecycle :
  forall (B : Builtins) (c : GraphTool.Context.t)
         (h1 h2 h3 : GraphTool.Host.t) (s1 s2 s3 : string)
         (qe1 qe2 qe3 : list float)
         (rows1 rows3 : list QueryResult.t) (g1 g3 : GraphRAG.t)
         (w0 w1 w2 w3 : GraphTool.World.t)
         (r1 r2 r3 : result GraphTool.Output.t),
    let key := GraphTool.cacheKey B (GraphTool.Context.indexName c)
                                  (GraphTool.Context.threshold c) in
    GraphTool.Context.rebuildGraph c = false ->
    (* each invocation has its connection string and its query embedding *)
    GraphTool.Host.POSTGRES_CONNECTION_STRING h1 = Some s1 -> s1 <> "" ->
    GraphTool.Host.POSTGRES_CONNECTION_STRING h2 = Some s2 -> s2 <> "" ->
    GraphTool.Host.POSTGRES_CONNECTION_STRING h3 = Some s3 -> s3 <> "" ->
    GraphTool.Host.embed h1 (GraphTool.Context.queryText c) = Ok qe1 ->
    GraphTool.Host.embed h2 (GraphTool.Context.queryText c) = Ok qe2 ->
    GraphTool.Host.embed h3 (GraphTool.Context.queryText c) = Ok qe3 ->
    (* first: a fresh key, a fetch with rows, a construction that completes *)
    JsMap.get key (GraphTool.World.graphCache w0) = None ->
    GraphTool.Host.pgVector_query h1 (CacheSpec.graphQuery c qe1) = Ok rows1 ->
    rows1 <> [] ->
    CacheSpec.buildFrom c rows1 = Ok g1 ->
    GraphTool.execute B h1 c w0 = (r1, w1) ->
    (* second: within the time to live *)
    PrimFloat.ltb (GraphTool.Host.new_Date h2 - GraphTool.Host.new_Date h1)%float
                  GraphTool.CACHE_TTL_MS = true ->
    GraphTool.execute B h2 c w1 = (r2, w2) ->
    (* third: the time to live has elapsed *)
    PrimFloat.ltb (GraphTool.Host.new_Date h3 - GraphTool.Host.new_Date h1)%float
                  GraphTool.CACHE_TTL_MS = false ->
    GraphTool.Host.pgVector_query h3 (CacheSpec.graphQuery c qe3) = Ok rows3 ->
    rows3 <> [] ->
    CacheSpec.buildFrom c rows3 = Ok g3 ->
    GraphTool.execute B h3 c w2 = (r3, w3) ->
    let graph1 := {| GraphTool.GraphObject.address := GraphTool.World.allocations w0;
                     GraphTool.GraphObject.object := g1 |} in
    let graph3 := {| GraphTool.GraphObject.address := GraphTool.World.allocations w2;
                     GraphTool.GraphObject.object := g3 |} in
    (fst (GraphTool.acquire B h1 c qe1 w0)
     = Ok (GraphTool.Built graph1 (GraphTool.Host.buildEnd h1
                                   - GraphTool.Host.buildStart h1)%float)
     /\ JsMap.get key (GraphTool.World.graphCache w1)
        = Some (CacheSpec.entryFor c (GraphTool.Host.new_Date h1) graph1)
     /\ forall out, r1 = Ok out ->
          GraphTool.GraphStats.cacheHit (GraphTool.Output.graphStats out) = false
          /\ GraphTool.GraphStats.buildTimeMs (GraphTool.Output.graphStats out)
             = Some (GraphTool.Host.buildEnd h1 - GraphTool.Host.buildStart h1)%float)
    /\ (GraphTool.acquire B h2 c qe2 w1 = (Ok (GraphTool.Cached graph1), w1)
        /\ GraphTool.World.graphCache w2 = GraphTool.World.graphCache w1
        /\ GraphTool.World.allocations w2 = GraphTool.World.allocations w1
        /\ forall out, r2 = Ok out ->
             GraphTool.GraphStats.cacheHit (GraphTool.Output.graphStats out) = true
             /\ GraphTool.GraphStats.buildTimeMs (GraphTool.Output.graphStats out) = None)
    /\ (fst (GraphTool.acquire B h3 c qe3 w2)
        = Ok (GraphTool.Built graph3 (GraphTool.Host.buildEnd h3
                                      - GraphTool.Host.buildStart h3)%float)
        /\ JsMap.get key (GraphTool.World.graphCache w3)
           = Some (CacheSpec.entryFor c (GraphTool.Host.new_Date h3) graph3)
        /\ GraphTool.GraphObject.address graph3 <> GraphTool.GraphObject.address graph1
        /\ forall out, r3 = Ok out ->
             GraphTool.GraphStats.cacheHit (GraphTool.Output.graphStats out) = false).
Proof.
  intros B c h1 h2 h3 s1 s2 s3 qe1 qe2 qe3 rows1 rows3 g1 g3 w0 w1 w2 w3 r1 r2 r3 key
         Hre Hc1 Hn1 Hc2 Hn2 Hc3 Hn3 He1 He2 He3
         Hfresh Hq1 Hrows1 Hg1 Hx1 Hage2 Hx2 Hage3 Hq3 Hrows3 Hg3 Hx3
         graph1 graph3.
  (* first invocation *)
  assert (Hinv1 : GraphTool.isCacheValid
                    (JsMap.get key (GraphTool.World.graphCache w0))
                    (GraphTool.Context.rebuildGraph c) (GraphTool.Host.new_Date h1)
                  = false)
    by (rewrite Hfresh; reflexivity).
  destruct (CacheFacts.execute_build B h1 c w0 w1 s1 qe1 rows1 g1 r1
              Hc1 Hn1 He1 Hinv1 Hq1 Hrows1 Hg1 Hx1) as (A1 & C1 & L1 & O1).
  fold graph1 in A1, C1. fold key in C1.
  assert (Hget1 : JsMap.get key (GraphTool.World.graphCache w1)
                  = Some (CacheSpec.entryFor c (GraphTool.Host.new_Date h1) graph1))
    by (rewrite C1; apply JsMapFacts.get_set_same).
  (* second invocation *)
  destruct (CacheFacts.execute_hit B h2 c w1 w2 s2 qe2
              (CacheSpec.entryFor c (GraphTool.Host.new_Date h1) graph1) r2
              Hc2 Hn2 He2 Hget1 Hre Hage2 Hx2) as (A2 & C2 & L2 & O2).
  (* third invocation *)
  assert (Hinv3 : GraphTool.isCacheValid
                    (JsMap.get key (GraphTool.World.graphCache w2))
                    (GraphTool.Context.rebuildGraph c) (GraphTool.Host.new_Date h3)
                  = false).
  { rewrite C2, Hget1. unfold GraphTool.isCacheValid. simpl.
    rewrite Hage3. now rewrite andb_false_r. }
  destruct (CacheFacts.execute_build B h3 c w2 w3 s3 qe3 rows3 g3 r3
              Hc3 Hn3 He3 Hinv3 Hq3 Hrows3 Hg3 Hx3) as (A3 & C3 & L3 & O3).
  fold graph3 in A3, C3. fold key in C3.
  split; [|split].
  - split; [exact A1|]. split; [exact Hget1 | exact O1].
  - split; [exact A2|]. split; [exact C2|]. split; [exact L2 | exact O2].
  - split; [exact A3|]. split; [rewrite C3; apply JsMapFacts.get_set_same|].
    split; [simpl; rewrite L2, L1; lia|].
    intros out E. now apply O3.
Qed.

Lemma cache_lifecycle_witness :
  let B := Sample.builtins in
  let c := Sample.graphContext in
  let w1 := snd (GraphTool.execute B (Sample.graphHost Sample.t1 Sample.rows) c
                                   Sample.emptyWorld) in
  GraphTool.acquire B (Sample.graphHost Sample.t2 Sample.rows) c
                    (Sample.vector1536 0.1%float) w1
  = (Ok (GraphTool.Cached {| GraphTool.GraphObject.address := 0;
                             GraphTool.GraphObject.object := Sample.graph |}), w1).
Proof.
  intros B c w1.
  set (h1 := Sample.graphHost Sample.t1 Sample.rows).
  set (h2 := Sample.graphHost Sample.t2 Sample.rows).
  set (h3 := Sample.graphHost Sample.t3 Sample.rows).
  set (qe := Sample.vector1536 0.1%float).
  set (w2 := snd (GraphTool.execute B h2 c w1)).
  assert (Hg : CacheSpec.buildFrom c Sample.rows = Ok Sample.graph)
    by (vm_compute; reflexivity).
  destruct (cache_lifecycle B c h1 h2 h3
              "postgres://localhost/yt" "postgres://localhost/yt" "postgres://localhost/yt"
              qe qe qe Sample.rows Sample.rows Sample.graph Sample.graph
              Sample.emptyWorld w1 w2 (snd (GraphTool.execute B h3 c w2))
              (fst (GraphTool.execute B h1 c Sample.emptyWorld))
              (fst (GraphTool.execute B h2 c w1))
              (fst (GraphTool.execute B h3 c w2))
              eq_refl eq_refl ltac:(discriminate) eq_refl ltac:(discriminate)
              eq_refl ltac:(discriminate) eq_refl eq_refl eq_refl
              eq_refl eq_refl ltac:(discriminate) Hg
              (surjective_pairing _) eq_refl (surjective_pairing _)
              eq_refl eq_refl ltac:(discriminate) Hg (surjective_pairing _))
    as (_ & (H2 & _) & _).
  exact H2.
Defined.

(** C4 as stated fails when the candidate fetch returns no row: the first
    lookup with a fresh key builds and stores nothing (it returns early with
    [cacheHit = false] and build time 0), and the lookup that follows one
    second later with the same key finds no entry: it reports
    [cacheHit = false] again. *)
Lemma cache_miss_after_empty_fetch :
  let B := Sample.builtins in
  let c := Sample.graphContext in
  let key := GraphTool.cacheKey B (GraphTool.Context.indexName c)
                                (GraphTool.Context.threshold c) in
  JsMap.get key (GraphTool.World.graphCache Sample.emptyWorld) = None
  /\ GraphTool.execute B (Sample.graphHost Sample.t1 []) c Sample.emptyWorld
     = (Ok GraphTool.emptyOutput, Sample.emptyWorld)
  /\ GraphTool.execute B (Sample.graphHost Sample.t2 []) c Sample.emptyWorld
     = (Ok GraphTool.emptyOutput, Sample.emptyWorld)
  /\ GraphTool.GraphStats.cacheHit (GraphTool.Output.graphStats GraphTool.emptyOutput)
     = false.
Proof. cbv zeta. repeat split; reflexivity. Qed.

(** C8.  On a cache miss, an expired entry or a forced rebuild, when the
    build throws (the candidate fetch, or [createGraph] on the rows it
    returned), [execute] throws that error and the cache map is what it was
    before the call: [graphCache.set] comes after the construction.  More
    generally the cache check and build leave the cache map unchanged
    whenever they throw. *)
Theorem build_failure_keeps_cache :
  forall (B : Builtins) (h : GraphTool.Host.t) (c : GraphTool.Context.t)
         (w : GraphTool.World.t) (connectionString : string)
         (queryEmbedding : list float),
    GraphTool.Host.POSTGRES_CONNECTION_STRING h = Some connectionString ->
    connectionString <> "" ->
    GraphTool.Host.embed h (GraphTool.Context.queryText c) = Ok queryEmbedding ->
    GraphTool.isCacheValid
      (JsMap.get (GraphTool.cacheKey B (GraphTool.Context.indexName c)
                                     (GraphTool.Context.threshold c))
                 (GraphTool.World.graphCache w))
      (GraphTool.Context.rebuildGraph c) (GraphTool.Host.new_Date h) = false ->
    (forall (graphResults : list QueryResult.t) (e : error),
        GraphTool.Host.pgVector_query h (CacheSpec.graphQuery c queryEmbedding)
        = Ok graphResults ->
        graphResults <> [] ->
        CacheSpec.buildFrom c graphResults = Throw e ->
        exists w',
          GraphTool.execute B h c w = (Throw e, w')
          /\ GraphTool.World.graphCache w' = GraphTool.World.graphCache w)
    /\ (forall e : error,
          GraphTool.Host.pgVector_query h (CacheSpec.graphQuery c queryEmbedding)
          = Throw e ->
          GraphTool.execute B h c w = (Throw e, w))
    /\ (forall (e : error) (w' : GraphTool.World.t),
          GraphTool.acquire B h c queryEmbedding w = (Throw e, w') ->
          GraphTool.World.graphCache w' = GraphTool.World.graphCache w).
Proof.
  intros B h c w connectionString queryEmbedding Hc Hne He Hinv.
  pose proof (CacheFacts.execute_steps B h c w connectionString queryEmbedding Hc Hne He)
    as Hsteps.
  rewrite (CacheFacts.acquire_invalid B h c queryEmbedding w Hinv) in Hsteps.
  split; [|split].
  - intros graphResults e Hq Hrows Hg.
    rewrite Hsteps. unfold GraphTool.build.
    fold (CacheSpec.graphQuery c queryEmbedding). rewrite Hq.
    destruct graphResults as [|r rest]; [congruence|].
    unfold CacheSpec.buildFrom in Hg. cbn [List.length Nat.eqb]. rewrite Hg.
    eexists. split; reflexivity.
  - intros e Hq. rewrite Hsteps. unfold GraphTool.build.
    fold (CacheSpec.graphQuery c queryEmbedding). now rewrite Hq.
  - intros e w'. apply CacheFacts.acquire_throw.
Qed.

Lemma build_failure_keeps_cache_witness :
  exists w',
    GraphTool.execute Sample.builtins (Sample.graphHost Sample.t1 Sample.badRows)
                      Sample.graphContext Sample.emptyWorld
    = (Throw (Error "Embedding dimension must be 1536"), w')
    /\ GraphTool.World.graphCache w' = GraphTool.World.graphCache Sample.emptyWorld.
Proof.
  destruct (build_failure_keeps_cache Sample.builtins
              (Sample.graphHost Sample.t1 Sample.badRows) Sample.graphContext
              Sample.emptyWorld "postgres://localhost/yt" (Sample.vector1536 0.1%float)
              eq_refl ltac:(discriminate) eq_refl eq_refl) as (H & _ & _).
  apply (H Sample.badRows (Error "Embedding dimension must be 1536") eq_refl
           ltac:(discriminate) eq_refl).
Defined.

(** ** C2: the filter compiler has no validation *)

Module FilterFacts.
Import HybridTool.

(** An operator outside the enumeration falls through the [switch]. *)
Lemma processOperator_unrecognized (B : Builtins) (key : string) (acc : Acc.t)
    (op : string) (val : value) :
  recognized op = false ->
  processOperator B key acc (op, val) = Ok acc.
Proof.
  unfold recognized, filterOperators. cbn [existsb]. intros H.
  repeat (apply orb_false_elim in H as [?E H]).
  unfold processOperator.
  repeat match goal with
         | E : String.eqb op _ = false |- _ => rewrite E; clear E
         end.
  reflexivity.
Qed.

Lemma processFilter_field (B : Builtins)
    (recur : value -> nat -> result Compiled.t) (key : string) (v : value)
    (acc : Acc.t) :
  logical key = false ->
  processFilter B recur acc (key, v) = processField B key v acc.
Proof.
  unfold logical. cbn [existsb]. intros H.
  repeat (apply orb_false_elim in H as [?E H]).
  unfold processFilter. now rewrite E, E0, E1.
Qed.
End FilterFacts.

(** C2, as amended.  [buildFilterQuery] has no validation and no error for
    either case.  For a field (a key that is not [$and], [$or], [$not]):
    an operator outside the recognized set is skipped, so a filter made of
    that one constraint compiles to the empty query with no parameter; and
    [$between] with a bound array of any length compiles to the [BETWEEN]
    condition over two placeholders, with the first two elements of the
    array as parameters ([undefined] where the array is shorter; elements
    beyond the second are dropped). *)
Theorem buildFilterQuery_no_validation :
  forall (B : Builtins) (key : string) (paramIndex : nat),
    logical key = false ->
    (forall (op : string) (val : value),
        recognized op = false ->
        HybridTool.buildFilterQuery B (VObj [(key, VObj [(op, val)])]) paramIndex
        = Ok {| HybridTool.Compiled.query := "";
                HybridTool.Compiled.params := [];
                HybridTool.Compiled.nextIndex := paramIndex |})
    /\ (forall bounds : list value,
          HybridTool.buildFilterQuery B
            (VObj [(key, VObj [("$between", VArr bounds)])]) paramIndex
          = Ok {| HybridTool.Compiled.query :=
                    "CAST(metadata->>'" ++ key ++ "' AS NUMERIC) BETWEEN "
                    ++ HybridTool.placeholder paramIndex ++ " AND "
                    ++ HybridTool.placeholder (paramIndex + 1);
                  HybridTool.Compiled.params :=
                    [nth 0 bounds VUndefined; nth 1 bounds VUndefined];
                  HybridTool.Compiled.nextIndex := paramIndex + 2 |}).
Proof.
  intros B key paramIndex Hkey. split.
  - intros op val Hop. cbn [HybridTool.buildFilterQuery foldM].
    rewrite (FilterFacts.processFilter_field B _ key _ _ Hkey).
    cbn [HybridTool.processField foldM].
    rewrite (FilterFacts.processOperator_unrecognized B key _ op val Hop).
    reflexivity.
  - intros bounds. cbn [HybridTool.buildFilterQuery foldM].
    rewrite (FilterFacts.processFilter_field B _ key _ _ Hkey).
    cbn [HybridTool.processField foldM].
    unfold HybridTool.processOperator. simpl String.eqb. cbv iota.
    unfold HybridTool.jsonPath. simpl. now rewrite append_assoc.
Qed.

Lemma buildFilterQuery_no_validation_witness :
  HybridTool.buildFilterQuery Sample.builtins
    (VObj [("viewCount", VObj [("$regex", VStr "^1")])]) 1
  = Ok {| HybridTool.Compiled.query := "";
          HybridTool.Compiled.params := [];
          HybridTool.Compiled.nextIndex := 1 |}.
Proof.
  destruct (buildFilterQuery_no_validation Sample.builtins "viewCount" 1 eq_refl)
    as [H _].
  apply (H "$regex" (VStr "^1") eq_refl).
Defined.

(** C2 as stated fails: an unrecognized operator and [$between] arrays of
    one and of three elements all compile without error. *)
Lemma buildFilterQuery_accepts_malformed :
  HybridTool.buildFilterQuery Sample.builtins
    (VObj [("viewCount", VObj [("$regex", VStr "^1")])]) 1
  = Ok {| HybridTool.Compiled.query := "";
          HybridTool.Compiled.params := [];
          HybridTool.Compiled.nextIndex := 1 |}
  /\ HybridTool.buildFilterQuery Sample.builtins
       (VObj [("viewCount", VObj [("$between", VArr [VNum 1000])])]) 1
     = Ok {| HybridTool.Compiled.query :=
               "CAST(metadata->>'viewCount' AS NUMERIC) BETWEEN $1 AND $2";
             HybridTool.Compiled.params := [VNum 1000; VUndefined];
             HybridTool.Compiled.nextIndex := 3 |}
  /\ HybridTool.buildFilterQuery Sample.builtins
       (VObj [("viewCount",
               VObj [("$between", VArr [VNum 1000; VNum 2000; VNum 3000])])]) 1
     = Ok {| HybridTool.Compiled.query :=
               "CAST(metadata->>'viewCount' AS NUMERIC) BETWEEN $1 AND $2";
             HybridTool.Compiled.params := [VNum 1000; VNum 2000];
             HybridTool.Compiled.nextIndex := 3 |}.
Proof. repeat split; reflexivity. Qed.

(** ** Further properties of the hybrid tool *)

Module HybridFacts.
Import HybridTool.
Local Open Scope nat_scope.

Lemma insert_In {A : Type} (comparefn : A -> A -> float) (x a : A) (l : list A) :
  In a (JsArray.insert comparefn x l) <-> a = x \/ In a l.
Proof.
  induction l as [|y l IH]; simpl.
  - split; [intros [H|[]]; auto | intros [H|[]]; auto].
  - destruct (PrimFloat.ltb 0 (comparefn x y)); simpl; [rewrite IH|]; intuition congruence.
Qed.

(** Sorting keeps the elements. *)
Lemma sort_In {A : Type} (comparefn : A -> A -> float) (a : A) (l : list A) :
  In a (JsArray.sort comparefn l) <-> In a l.
Proof.
  unfold JsArray.sort. induction l as [|x l IH]; simpl; [tauto|].
  rewrite insert_In, IH. intuition congruence.
Qed.

Lemma sort_length {A : Type} (comparefn : A -> A -> float) (l : list A) :
  List.length (JsArray.sort comparefn l) = List.length l.
Proof.
  unfold JsArray.sort. induction l as [|x l IH]; simpl; [reflexivity|].
  rewrite <- IH. generalize (fold_right (JsArray.insert comparefn) [] l).
  intros s. induction s as [|y s IHs]; simpl; [reflexivity|].
  destruct (PrimFloat.ltb 0 (comparefn x y)); simpl; [now rewrite IHs | reflexivity].
Qed.

Lemma mapM_In {A B : Type} (f : A -> result B) :
  forall (l : list A) (bs : list B),
    JsArray.mapM f l = Ok bs ->
    forall b, In b bs -> exists a, In a l /\ f a = Ok b.
Proof.
  induction l as [|a l IH]; simpl; intros bs H b Hb.
  - injection H as <-. destruct Hb.
  - apply bind_ok in H as (b0 & Hb0 & H).
    apply bind_ok in H as (bs0 & Hbs0 & H). injection H as <-.
    destruct Hb as [<-|Hb]; [eauto|].
    destruct (IH bs0 Hbs0 b Hb) as (a' & Ha' & Hf). eauto.
Qed.

Lemma indexed_from_In {A : Type} (l : list A) :
  forall (i k : nat) (a : A), In (k, a) (indexed_from i l) -> In a l.
Proof.
  induction l as [|x l IH]; simpl; intros i k a H; [destruct H|].
  destruct H as [H|H]; [injection H as _ <-; auto | eauto].
Qed.

Lemma slice0_In {A : Type} (a : A) :
  forall (k : nat) (l : list A), In a (JsArray.slice0 k l) -> In a l.
Proof.
  unfold JsArray.slice0. induction k as [|k IH]; intros [|x l]; simpl;
    try tauto.
  intros [H|H]; auto.
Qed.

(** Every ranked item is one of the scored candidates. *)
Lemma rank_In (topK : nat) (scoredResults : list Scored.t) (s : Scored.t) :
  In s (rank topK scoredResults) -> In s scoredResults.
Proof.
  unfold rank. intros H. apply slice0_In in H. now apply sort_In in H.
Qed.
End HybridFacts.

(** X1.  Whenever the hybrid tool returns: the query was embedded, the
    store was asked once, for [topK * 2] candidates without vectors; at most
    [topK] sources are returned; and each source carries the id, score and
    metadata of one of the candidates the store returned. *)
Theorem hybrid_execute_candidates :
  forall (B : Builtins) (h : HybridTool.Host.t) (c : HybridTool.Context.t)
         (out : HybridTool.Output.t),
    HybridTool.Context.includeScore c = true ->
    HybridTool.execute B h c = Ok out ->
    exists embedding filterConditions appliedFilters results,
      HybridTool.Host.embed h (HybridTool.Context.queryText c) = Ok embedding
      /\ HybridTool.filterConditions B (HybridTool.Context.filter c)
         = Ok (filterConditions, appliedFilters)
      /\ HybridTool.Host.pgVector_query h
           (HybridTool.storeQuery c embedding filterConditions) = Ok results
      /\ QueryArgs.topK (HybridTool.storeQuery c embedding filterConditions)
         = (HybridTool.Context.topK c * 2)%nat
      /\ QueryArgs.includeVector (HybridTool.storeQuery c embedding filterConditions)
         = false
      /\ (List.length (HybridTool.Output.sources out) <= HybridTool.Context.topK c)%nat
      /\ forall s, In s (HybridTool.Output.sources out) ->
           exists r, In r results
                     /\ HybridTool.Source.id s = QueryResult.id r
                     /\ HybridTool.Source.score s = QueryResult.score r
                     /\ HybridTool.Source.metadata s = QueryResult.metadata r.
Proof.
  intros B h c out Hinc. unfold HybridTool.execute.
  destruct (HybridTool.Host.POSTGRES_CONNECTION_STRING h) as [[|ch cs]|];
    try discriminate.
  intros H.
  apply bind_ok in H as (embedding & He & H).
  apply bind_ok in H as ([fc applied] & Hf & H).
  apply bind_ok in H as (results & Hq & H).
  apply bind_ok in H as (scored & Hs & H).
  injection H as <-. cbn [HybridTool.Output.sources].
  exists embedding, fc, applied, results.
  repeat (split; [first [assumption | reflexivity]|]).
  split.
  - rewrite length_map. apply RankFacts.rank_length.
  - intros s Hin. apply in_map_iff in Hin as (sc & <- & Hsc).
    apply HybridFacts.rank_In in Hsc.
    destruct (HybridFacts.mapM_In _ _ _ Hs sc Hsc) as ([k r] & Hkr & Hscore).
    apply HybridFacts.indexed_from_In in Hkr.
    unfold HybridTool.scoreResult in Hscore.
    apply bind_ok in Hscore as (hs & _ & Hscore). injection Hscore as <-.
    exists r. unfold HybridTool.toSource. cbn. rewrite Hinc. auto.
Qed.

Lemma hybrid_execute_candidates_witness :
  exists results,
    HybridTool.Host.pgVector_query Sample.hybridHost
      (HybridTool.storeQuery Sample.hybridContext [0.1%float] (VObj [])) = Ok results
    /\ List.length results = 3.
Proof.
  destruct (hybrid_execute_candidates Sample.builtins Sample.hybridHost
              Sample.hybridContext _ eq_refl eq_refl)
    as (embedding & fc & applied & results & He & Hf & Hq & _).
  injection He as <-. injection Hf as <- _.
  exists results. split; [exact Hq|].
  change (HybridTool.Host.pgVector_query Sample.hybridHost
            (HybridTool.storeQuery Sample.hybridContext [0.1%float] (VObj [])))
    with (Ok Sample.candidates) in Hq.
  injection Hq as <-. reflexivity.
Defined.

(** ** Further properties of the filter compiler *)

Module PlaceholderFacts.
Import HybridTool.
Local Open Scope nat_scope.

(** Induction on values, through arrays and objects. *)
Section ValueInduction.
Variable P : value -> Prop.
Hypothesis HUndefined : P VUndefined.
Hypothesis HNull : P VNull.
Hypothesis HBool : forall b, P (VBool b).
Hypothesis HNum : forall n, P (VNum n).
Hypothesis HStr : forall s, P (VStr s).
Hypothesis HArr : forall items, Forall P items -> P (VArr items).
Hypothesis HObj : forall props, Forall (fun kv => P (snd kv)) props -> P (VObj props).

Fixpoint value_induction (v : value) : P v :=
  match v with
  | VUndefined => HUndefined
  | VNull => HNull
  | VBool b => HBool b
  | VNum n => HNum n
  | VStr s => HStr s
  | VArr items =>
      HArr items
        ((fix all (l : list value) : Forall P l :=
            match l with
            | [] => Forall_nil P
            | x :: l' => Forall_cons x (value_induction x) (all l')
            end) items)
  | VObj props =>
      HObj props
        ((fix all (l : list (string * value)) : Forall (fun kv => P (snd kv)) l :=
            match l with
            | [] => Forall_nil _
            | kv :: l' => Forall_cons kv (value_induction (snd kv)) (all l')
            end) props)
  end.
End ValueInduction.

(** The index is ahead of [paramIndex] by the number of parameters. *)
Definition numbered (paramIndex : nat) (acc : Acc.t) : Prop :=
  Acc.currentIndex acc = paramIndex + List.length (Acc.params acc).

(** A compiled filter numbers its parameters from [paramIndex] on. *)
Definition wellNumbered (B : Builtins) (filter : value) : Prop :=
  forall paramIndex r,
    buildFilterQuery B filter paramIndex = Ok r ->
    Compiled.nextIndex r = paramIndex + List.length (Compiled.params r).

Lemma foldM_invariant {A S : Type} (f : S -> A -> result S) (I : S -> Prop) :
  forall (l : list A),
    (forall a, In a l -> forall s s', f s a = Ok s' -> I s -> I s') ->
    forall s s', foldM f l s = Ok s' -> I s -> I s'.
Proof.
  induction l as [|a l IH]; simpl; intros Hf s s' H Hs.
  - now injection H as <-.
  - apply bind_ok in H as (s1 & H1 & H).
    apply (IH (fun a' Ha' => Hf a' (or_intror Ha')) s1 s' H).
    apply (Hf a (or_introl eq_refl) s s1 H1 Hs).
Qed.

Lemma emit_numbered (paramIndex : nat) (c : string) (ps : list value) (acc : Acc.t) :
  numbered paramIndex acc -> numbered paramIndex (emit c ps (List.length ps) acc).
Proof.
  unfold numbered, emit. simpl. intros ->. rewrite length_app. lia.
Qed.

Lemma processOperator_numbered (B : Builtins) (paramIndex : nat) (key : string)
    (acc acc' : Acc.t) (entry : string * value) :
  processOperator B key acc entry = Ok acc' ->
  numbered paramIndex acc -> numbered paramIndex acc'.
Proof.
  destruct entry as [op val]. unfold processOperator. intros H Hn.
  repeat match type of H with
         | (if ?b then _ else _) = _ => destruct b
         end;
    try (injection H as <-;
         first [exact Hn
               | apply (emit_numbered paramIndex _ [_] acc Hn)]).
  - destruct val; try discriminate. injection H as <-.
    now apply emit_numbered.
  - apply bind_ok in H as (lower & _ & H). apply bind_ok in H as (upper & _ & H).
    injection H as <-. apply (emit_numbered paramIndex _ [lower; upper] acc Hn).
Qed.

Lemma processField_numbered (B : Builtins) (paramIndex : nat) (key : string)
    (v : value) (acc acc' : Acc.t) :
  processField B key v acc = Ok acc' ->
  numbered paramIndex acc -> numbered paramIndex acc'.
Proof.
  unfold processField. intros H Hn.
  destruct v;
    try (injection H as <-; apply (emit_numbered paramIndex _ [_] acc Hn)).
  revert H Hn. apply foldM_invariant.
  intros entry _ s s'. apply processOperator_numbered.
Qed.

Lemma compileSub_numbered (paramIndex : nat)
    (recur : value -> nat -> result Compiled.t) (subFilter : value)
    (st st' : list string * Acc.t) :
  (forall i r, recur subFilter i = Ok r ->
               Compiled.nextIndex r = i + List.length (Compiled.params r)) ->
  compileSub recur st subFilter = Ok st' ->
  numbered paramIndex (snd st) -> numbered paramIndex (snd st').
Proof.
  destruct st as [subConditions acc]. unfold compileSub, numbered. simpl.
  intros Hr H Hn. apply bind_ok in H as (r & Hrec & H). injection H as <-.
  simpl. rewrite (Hr _ _ Hrec), Hn, length_app. lia.
Qed.

Lemma processLogical_numbered (paramIndex : nat)
    (recur : value -> nat -> result Compiled.t) (connective : string)
    (v : value) (acc acc' : Acc.t) :
  (forall items, v = VArr items ->
     Forall (fun subFilter =>
               forall i r, recur subFilter i = Ok r ->
                 Compiled.nextIndex r = i + List.length (Compiled.params r)) items) ->
  processLogical recur connective v acc = Ok acc' ->
  numbered paramIndex acc -> numbered paramIndex acc'.
Proof.
  intros Hv H Hn. unfold processLogical in H.
  destruct v as [| | | | |items|]; try discriminate.
  apply bind_ok in H as ([subConditions acc1] & Hfold & H). injection H as <-.
  specialize (Hv items eq_refl). rewrite Forall_forall in Hv.
  refine (foldM_invariant (compileSub recur)
            (fun st => numbered paramIndex (snd st)) items _
            ([], acc) (subConditions, acc1) Hfold Hn).
  intros subFilter Hin s s'. apply compileSub_numbered. now apply Hv.
Qed.

Lemma processFilter_numbered (B : Builtins) (paramIndex : nat)
    (recur : value -> nat -> result Compiled.t) (key : string) (v : value)
    (acc acc' : Acc.t) :
  (forall i r, recur v i = Ok r ->
               Compiled.nextIndex r = i + List.length (Compiled.params r)) ->
  (forall items, v = VArr items ->
     Forall (fun subFilter =>
               forall i r, recur subFilter i = Ok r ->
                 Compiled.nextIndex r = i + List.length (Compiled.params r)) items) ->
  processFilter B recur acc (key, v) = Ok acc' ->
  numbered paramIndex acc -> numbered paramIndex acc'.
Proof.
  intros Hrec Hitems H Hn. unfold processFilter in H.
  destruct (String.eqb key "$and");
    [now apply (processLogical_numbered paramIndex recur " AND " v acc acc')|].
  destruct (String.eqb key "$or");
    [now apply (processLogical_numbered paramIndex recur " OR " v acc acc')|].
  destruct (String.eqb key "$not").
  - apply bind_ok in H as (r & Hr & H). injection H as <-.
    unfold numbered in *. simpl. rewrite (Hrec _ _ Hr), Hn, length_app. lia.
  - now apply (processField_numbered B paramIndex key v acc acc').
Qed.

(** Every value compiles to a well-numbered query, and so do the elements
    of an array. *)
Lemma buildFilterQuery_numbered (B : Builtins) (filter : value) :
  wellNumbered B filter
  /\ forall items, filter = VArr items -> Forall (wellNumbered B) items.
Proof.
  induction filter as [| | | | |items IH|props IH] using value_induction;
    (split; [|intros items' E; try discriminate]).
  1-2: intros paramIndex r H; discriminate.
  1-4: intros paramIndex r H; cbn [buildFilterQuery] in H;
       apply bind_ok in H as (acc & Hfold & H); injection H as <-;
       refine (foldM_invariant _ (numbered paramIndex) _ _
                 (start paramIndex) acc Hfold _);
       [intros [k v] _ acc0 acc1; apply processField_numbered
       | unfold numbered, start; simpl; lia].
  - injection E as <-. rewrite Forall_forall in *.
    intros x Hx. now apply IH.
  - intros paramIndex r H. cbn [buildFilterQuery] in H.
    apply bind_ok in H as (acc & Hfold & H). injection H as <-.
    refine (foldM_invariant _ (numbered paramIndex) _ _
              (start paramIndex) acc Hfold _).
    + intros [k v] Hin acc0 acc1. rewrite Forall_forall in IH.
      destruct (IH (k, v) Hin) as [Hv Hitems].
      apply processFilter_numbered; [exact Hv | exact Hitems].
    + unfold numbered, start. simpl. lia.
Qed.
End PlaceholderFacts.



(** ** Explicit invalidation *)



(** ** Order of the re-ranked results *)

Module OrderFacts.
Import HybridTool.
Local Open Scope float_scope.

Definition headLe (a : float) (l : list float) : Prop :=
  match l with
  | [] => True
  | b :: _ => (b <=? a) = true
  end.

Lemma nonIncreasing_cons (a : float) (l : list float) :
  nonIncreasing (a :: l) <-> headLe a l /\ nonIncreasing l.
Proof. destruct l; simpl; tauto. Qed.

Section ByScore.
Variable A : Type.
Variable score : A -> float.

Definition byScore (a b : A) : float := score b - score a.

Lemma insert_head (x y : A) (l : list A) :
  (score x <=? score y) = true ->
  headLe (score y) (map score l) ->
  headLe (score y) (map score (JsArray.insert byScore x l)).
Proof.
  intros Hx Hl. destruct l as [|z l]; cbn [JsArray.insert map headLe]; [exact Hx|].
  destruct (0 <? byScore x z); cbn [map headLe]; assumption.
Qed.

Lemma insert_nonIncreasing (x : A) (l : list A) :
  is_nan (score x) = false ->
  Forall (fun a => is_nan (score a) = false) l ->
  nonIncreasing (map score l) ->
  nonIncreasing (map score (JsArray.insert byScore x l)).
Proof.
  intros Nx. induction l as [|y l IH]; intros Nl Hl.
  - exact I.
  - inversion Nl as [|y' l' Ny Nl']; subst.
    cbn [map] in Hl. apply nonIncreasing_cons in Hl as [Hh Hl].
    cbn [JsArray.insert]. unfold byScore at 1.
    rewrite RoundingFacts.sub_pos_ltb by assumption.
    destruct (score x <? score y) eqn:E; cbn [map].
    + apply nonIncreasing_cons. split.
      * apply insert_head; [now apply F64Facts.ltb_leb | exact Hh].
      * now apply IH.
    + apply nonIncreasing_cons. split.
      * now apply F64Facts.ltb_false_leb.
      * apply nonIncreasing_cons. split; assumption.
Qed.

Lemma sort_nonIncreasing (l : list A) :
  Forall (fun a => is_nan (score a) = false) l ->
  nonIncreasing (map score (JsArray.sort byScore l)).
Proof.
  unfold JsArray.sort. induction l as [|x l IH]; intros N; [exact I|].
  inversion N as [|x' l' Nx Nl]; subst. cbn [fold_right].
  apply insert_nonIncreasing; [exact Nx | | now apply IH].
  apply Forall_forall. intros a Ha.
  apply (HybridFacts.sort_In byScore a l) in Ha.
  rewrite Forall_forall in Nl. now apply Nl.
Qed.
End ByScore.

Lemma slice0_nonIncreasing (k : nat) :
  forall l, nonIncreasing l -> nonIncreasing (JsArray.slice0 k l).
Proof.
  unfold JsArray.slice0. induction k as [|k IH]; intros l H; [exact I|].
  destruct l as [|a l]; [exact I|]. cbn [firstn].
  apply nonIncreasing_cons in H as [Hh H].
  apply nonIncreasing_cons. split; [|now apply IH].
  destruct l as [|b l]; [now rewrite firstn_nil|]. destruct k; [exact I | exact Hh].
Qed.
End OrderFacts.

(** X4.  When none of the candidates has a NaN hybrid score, the re-ranked
    results are ordered by non-increasing hybrid score. *)
Theorem rank_nonIncreasing :
  forall (topK : nat) (scoredResults : list HybridTool.Scored.t),
    Forall (fun r => is_nan (HybridTool.Scored.hybridScore r) = false) scoredResults ->
    nonIncreasing (map HybridTool.Scored.hybridScore
                       (HybridTool.rank topK scoredResults)).
Proof.
  intros topK scoredResults N. unfold HybridTool.rank.
  unfold JsArray.slice0. rewrite <- firstn_map.
  apply OrderFacts.slice0_nonIncreasing.
  exact (OrderFacts.sort_nonIncreasing _ HybridTool.Scored.hybridScore scoredResults N).
Qed.

Lemma rank_nonIncreasing_witness :
  Forall (fun r => is_nan (HybridTool.Scored.hybridScore r) = false) Sample.scored
  /\ nonIncreasing (map HybridTool.Scored.hybridScore
                        (HybridTool.rank 2 Sample.scored))
  /\ map (fun r => QueryResult.id (HybridTool.Scored.result r))
         (HybridTool.rank 2 Sample.scored) = ["b"; "c"].
Proof.
  assert (N : Forall (fun r => is_nan (HybridTool.Scored.hybridScore r) = false)
                     Sample.scored)
    by (repeat constructor).
  split; [exact N|]. split; [|reflexivity].
  apply (rank_nonIncreasing 2 Sample.scored N).
Defined.

(* ================================================================== *)
(** * The [GraphRAG] class: nodes, edges and what the class keeps true *)

Module ClassFacts.
Import GraphRAG GraphSpec ClassSpec JsMapFacts.
Local Open Scope nat_scope.

Lemma has_keys {V : Type} (k : string) (m : JsMap.t V) :
  JsMap.has k m = true <-> In k (JsMap.keys m).
Proof.
  unfold JsMap.has, JsMap.keys. induction m as [|[k' v] m IH]; simpl.
  - split; [discriminate | tauto].
  - destruct (String.eqb k k') eqn:E.
    + apply String.eqb_eq in E. subst. split; auto.
    + apply String.eqb_neq in E. rewrite IH.
      split; [auto | intros [H|H]; [congruence | exact H]].
Qed.

Lemma has_false_keys {V : Type} (k : string) (m : JsMap.t V) :
  JsMap.has k m = false <-> ~ In k (JsMap.keys m).
Proof.
  rewrite <- has_keys. destruct (JsMap.has k m); split; congruence.
Qed.

Lemma NoDup_snoc {A : Type} (l : list A) (a : A) :
  NoDup l -> ~ In a l -> NoDup (l ++ [a]).
Proof.
  induction l as [|b l IH]; simpl; intros H N.
  - constructor; [tauto | constructor].
  - inversion H as [|b' l' Hb Hl]; subst. constructor.
    + intros Hin. apply in_app_or in Hin as [Hin | [-> | []]]; tauto.
    + apply IH; tauto.
Qed.

Lemma keys_set_NoDup {V : Type} (k : string) (v : V) (m : JsMap.t V) :
  NoDup (JsMap.keys m) -> NoDup (JsMap.keys (JsMap.set k v m)).
Proof.
  intros H. rewrite keys_set. destruct (JsMap.has k m) eqn:E; [exact H|].
  apply NoDup_snoc; [exact H | now apply has_false_keys].
Qed.

Lemma size_set {V : Type} (k : string) (v : V) (m : JsMap.t V) :
  JsMap.size (JsMap.set k v m)
  = if JsMap.has k m then JsMap.size m else S (JsMap.size m).
Proof.
  unfold JsMap.size. rewrite <- !(length_map fst).
  change (map fst (JsMap.set k v m)) with (JsMap.keys (JsMap.set k v m)).
  change (map fst m) with (JsMap.keys m).
  rewrite keys_set. destruct (JsMap.has k m); [reflexivity|].
  rewrite length_app. simpl. lia.
Qed.

Lemma get_In {V : Type} (k : string) (v : V) (m : JsMap.t V) :
  JsMap.get k m = Some v -> In (k, v) m.
Proof.
  induction m as [|[k' v'] m IH]; simpl; [discriminate|].
  destruct (String.eqb k k') eqn:E.
  - apply String.eqb_eq in E. intros H. injection H as <-. subst. now left.
  - intros H. right. now apply IH.
Qed.

Lemma In_get {V : Type} (k : string) (v : V) (m : JsMap.t V) :
  NoDup (JsMap.keys m) -> In (k, v) m -> JsMap.get k m = Some v.
Proof.
  unfold JsMap.keys. induction m as [|[k' v'] m IH]; simpl; intros N H; [tauto|].
  inversion N as [|x l Hx Hl]; subst.
  destruct H as [H|H].
  - injection H as -> ->. now rewrite String.eqb_refl.
  - destruct (String.eqb k k') eqn:E.
    + apply String.eqb_eq in E. subst k'. exfalso. apply Hx.
      apply in_map_iff. exists (k, v). auto.
    + now apply IH.
Qed.

Lemma In_set {V : Type} (k : string) (v : V) (m : JsMap.t V) (x : string * V) :
  In x (JsMap.set k v m) -> x = (k, v) \/ In x m.
Proof.
  induction m as [|[k' v'] m IH]; simpl.
  - intros [H|[]]; auto.
  - destruct (String.eqb k k'); simpl; intros [H|H]; auto.
    apply IH in H as [H|H]; auto.
Qed.

Lemma reverse_involutive (e : GraphEdge.t) : reverse (reverse e) = e.
Proof. now destruct e. Qed.

Lemma addEdge_ok (g g' : t) (edge : GraphEdge.t) :
  addEdge g edge = Ok g' ->
  JsMap.has (GraphEdge.source edge) (nodes g) = true
  /\ JsMap.has (GraphEdge.target edge) (nodes g) = true
  /\ g' = withEdges g (edges g ++ [edge; reverse edge]).
Proof.
  unfold addEdge.
  destruct (JsMap.has (GraphEdge.source edge) (nodes g)),
           (JsMap.has (GraphEdge.target edge) (nodes g));
    simpl; intros H; try discriminate.
  injection H as <-. auto.
Qed.

(** Neighbors are read off the edge array. *)
Lemma In_getNeighbors (g : t) (a b : string) (w : float) :
  In (neighbor b w) (getNeighbors g a)
  <-> exists e, In e (edges g) /\ GraphEdge.source e = a
                /\ GraphEdge.target e = b /\ GraphEdge.weight e = w.
Proof.
  unfold getNeighbors, neighbor. rewrite in_map_iff. split.
  - intros (e & E & He). apply filter_In in He as [He Hs].
    apply String.eqb_eq in Hs. injection E as <- <-. exists e. auto.
  - intros (e & He & <- & <- & <-). exists e. split; [reflexivity|].
    apply filter_In. split; [exact He | apply String.eqb_refl].
Qed.

Lemma linkPair_built (embeddings : list GraphEmbedding.t) (i j : nat) (g g' : t) :
  linkPair embeddings i g j = Ok g' -> built g -> built g'.
Proof.
  unfold linkPair. intros H Hb. apply bind_ok in H as (s & _ & H).
  destruct (greater F64.arith s (threshold g)).
  - eapply built_addEdge; eauto.
  - now injection H as <-.
Qed.

Lemma createNode_built (embeddings : list GraphEmbedding.t)
    (entry : nat * GraphChunk.t) (g g' : t) :
  createNode embeddings g entry = Ok g' -> built g -> built g'.
Proof.
  destruct entry as [index chunk]. unfold createNode. intros H Hb.
  eapply built_addNode; eauto.
Qed.

Lemma createGraph_built (g g' : t) (chunks : list GraphChunk.t)
    (embeddings : list GraphEmbedding.t) :
  createGraph g chunks embeddings = Ok g' -> built g -> built g'.
Proof.
  unfold createGraph.
  destruct (_ || _); [discriminate|]. destruct (negb _); [discriminate|].
  intros H Hb. apply bind_ok in H as (g1 & H1 & H2).
  assert (Hb1 : built g1).
  { refine (PlaceholderFacts.foldM_invariant _ built _ _ g g1 H1 Hb).
    intros a _ s s'. apply createNode_built. }
  refine (PlaceholderFacts.foldM_invariant _ built _ _ g1 g' H2 Hb1).
  intros i _ s s' Hl. unfold linkFrom in Hl.
  refine (PlaceholderFacts.foldM_invariant _ built _ _ s s' Hl).
  intros j _ s0 s0'. apply linkPair_built.
Qed.

(** What [addNode] and [addEdge] keep true. *)
Definition invariant (g : t) : Prop :=
  closed g
  /\ (forall e, In e (edges g) -> In (reverse e) (edges g))
  /\ (exists k, List.length (edges g) = 2 * k)
  /\ nodesWellFormed g.

Lemma built_invariant (g : t) : built g -> invariant g.
Proof.
  induction 1 as [dim thr | g g' node Hb IH Ha | g g' edge Hb IH Ha].
  - split; [|split; [|split; [|split]]]; simpl.
    + intros e [].
    + intros e [].
    + exists 0. reflexivity.
    + constructor.
    + intros k node H. discriminate.
  - destruct IH as (Hc & Hr & Hev & Hnd & Hn).
    apply CreateGraphFacts.addNode_ok in Ha as ((v & Ev & Lv) & N & E & D & T).
    split; [|split; [|split; [|split]]].
    + intros e He. rewrite E in He. rewrite N, !has_set.
      destruct (Hc e He) as [-> ->]. now rewrite !orb_true_r.
    + now rewrite E.
    + now rewrite E.
    + rewrite N. now apply keys_set_NoDup.
    + intros k node' Hg. rewrite N in Hg. rewrite D.
      destruct (String.eqb (GraphNode.id node) k) eqn:Ek.
      * apply String.eqb_eq in Ek. subst k. rewrite get_set_same in Hg.
        injection Hg as <-. eauto.
      * apply String.eqb_neq in Ek. rewrite get_set_other in Hg by exact Ek.
        now apply Hn.
  - destruct IH as (Hc & Hr & (k & Hev) & Hnd & Hn).
    apply addEdge_ok in Ha as (Hs & Ht & ->).
    split; [|split; [|split; [|split]]]; simpl.
    + intros e He. simpl in He.
      apply in_app_or in He as [He | [<- | [<- | []]]]; simpl; auto.
    + intros e He. apply in_app_or in He as [He | [<- | [<- | []]]];
        apply in_or_app.
      * left. now apply Hr.
      * right. simpl. auto.
      * right. rewrite reverse_involutive. simpl. auto.
    + exists (S k). rewrite length_app. simpl. lia.
    + exact Hnd.
    + exact Hn.
Qed.
End ClassFacts.

(** X5.  [addNode] throws when the node has no embedding and when the
    embedding has not the graph's dimension; otherwise the node is stored
    under its id: a lookup of the id returns it, every other key keeps its
    node, the count grows by one for a new id and stays for an id that was
    present (the node is replaced), and the edges are untouched. *)
Theorem addNode_stores_node :
  forall (g : GraphRAG.t) (node : GraphNode.t),
    (GraphNode.embedding node = None ->
     GraphRAG.addNode g node = Throw (Error "Node must have an embedding"))
    /\ (forall v, GraphNode.embedding node = Some v ->
          List.length v <> GraphRAG.dimension g ->
          GraphRAG.addNode g node
          = Throw (Error ("Embedding dimension must be "
                            ++ index_toString (GraphRAG.dimension g))))
    /\ (forall v, GraphNode.embedding node = Some v ->
          List.length v = GraphRAG.dimension g ->
          exists g',
            GraphRAG.addNode g node = Ok g'
            /\ JsMap.get (GraphNode.id node) (GraphRAG.nodes g') = Some node
            /\ (forall k, k <> GraphNode.id node ->
                  JsMap.get k (GraphRAG.nodes g') = JsMap.get k (GraphRAG.nodes g))
            /\ GraphRAG.getNodeCount g'
               = (if JsMap.has (GraphNode.id node) (GraphRAG.nodes g)
                  then GraphRAG.getNodeCount g
                  else S (GraphRAG.getNodeCount g))
            /\ GraphRAG.edges g' = GraphRAG.edges g).
Proof.
  intros g node. unfold GraphRAG.addNode. split; [|split].
  - now intros ->.
  - intros v -> N. apply Nat.eqb_neq in N. now rewrite N.
  - intros v -> L. apply Nat.eqb_eq in L. rewrite L. simpl.
    eexists. split; [reflexivity|]. simpl.
    split; [apply JsMapFacts.get_set_same|].
    split; [|split; [apply ClassFacts.size_set | reflexivity]].
    intros k Hk. apply JsMapFacts.get_set_other. congruence.
Qed.

Lemma addNode_stores_node_witness :
  let node := {| GraphNode.id := "a"; GraphNode.content := VStr "text";
                 GraphNode.embedding := Some [1; 0]%float;
                 GraphNode.metadata := VObj [] |} in
  exists g',
    GraphRAG.addNode (GraphRAG.new 2 0.7%float) node = Ok g'
    /\ JsMap.get "a" (GraphRAG.nodes g') = Some node
    /\ GraphRAG.getNodeCount g' = 1%nat.
Proof.
  intros node.
  destruct (addNode_stores_node (GraphRAG.new 2 0.7%float) node) as (_ & _ & H).
  destruct (H [1; 0]%float eq_refl eq_refl) as (g' & Ha & Hg & _ & Hn & _).
  exists g'. split; [exact Ha|]. split; [exact Hg | exact Hn].
Defined.

(** X6.  [addEdge] throws when the source or the target is not a node of
    the graph; otherwise it appends the edge and its reverse, and does
    nothing else: the neighbors of a node are those it had, plus the target
    for the source and the source for the target, with the edge's weight.
    It has no check for a self-loop or for an edge that is already there. *)
Theorem addEdge_adds_both_directions :
  forall (g : GraphRAG.t) (edge : GraphEdge.t),
    (JsMap.has (GraphEdge.source edge) (GraphRAG.nodes g) = false
     \/ JsMap.has (GraphEdge.target edge) (GraphRAG.nodes g) = false ->
     GraphRAG.addEdge g edge
     = Throw (Error "Both source and target nodes must exist"))
    /\ (JsMap.has (GraphEdge.source edge) (GraphRAG.nodes g) = true ->
        JsMap.has (GraphEdge.target edge) (GraphRAG.nodes g) = true ->
        exists g',
          GraphRAG.addEdge g edge = Ok g'
          /\ GraphRAG.nodes g' = GraphRAG.nodes g
          /\ GraphRAG.edges g'
             = GraphRAG.edges g ++ [edge; GraphRAG.reverse edge]
          /\ forall a b w,
               In (ClassSpec.neighbor b w) (GraphRAG.getNeighbors g' a)
               <-> In (ClassSpec.neighbor b w) (GraphRAG.getNeighbors g a)
                   \/ (a = GraphEdge.source edge /\ b = GraphEdge.target edge
                       /\ w = GraphEdge.weight edge)
                   \/ (a = GraphEdge.target edge /\ b = GraphEdge.source edge
                       /\ w = GraphEdge.weight edge)).
Proof.
  intros g edge. unfold GraphRAG.addEdge. split.
  - intros [-> | ->]; simpl; [reflexivity | now rewrite orb_true_r].
  - intros -> ->. simpl. eexists. split; [reflexivity|]. simpl.
    split; [reflexivity|]. split; [reflexivity|].
    intros a b w. rewrite !ClassFacts.In_getNeighbors. simpl. split.
    + intros (e & He & Hs & Ht & Hw).
      apply in_app_or in He as [He | [<- | [<- | []]]]; simpl in *; eauto 10.
    + intros [(e & He & H) | [(-> & -> & ->) | (-> & -> & ->)]].
      * exists e. split; [apply in_or_app; now left | exact H].
      * exists edge. split; [apply in_or_app; right; simpl; auto | auto].
      * exists (GraphRAG.reverse edge).
        split; [apply in_or_app; right; simpl; auto | auto].
Qed.

Lemma addEdge_adds_both_directions_witness :
  GraphRAG.addEdge (GraphRAG.new 2 0.7%float)
    {| GraphEdge.source := "0"; GraphEdge.target := "1";
       GraphEdge.weight := 0.9%float; GraphEdge.type := GraphEdge.semantic |}
  = Throw (Error "Both source and target nodes must exist").
Proof.
  destruct (addEdge_adds_both_directions (GraphRAG.new 2 0.7%float)
              {| GraphEdge.source := "0"; GraphEdge.target := "1";
                 GraphEdge.weight := 0.9%float;
                 GraphEdge.type := GraphEdge.semantic |}) as [H _].
  apply H. left. reflexivity.
Defined.

(** X7.  What the class keeps true of every graph obtained from a new one
    by [addNode] and [addEdge] calls that returned, so also by
    [createGraph]: each edge entry joins two nodes of the graph and has its
    reverse entry stored, so that [b] is a neighbor of [a] with weight [w]
    exactly when [a] is one of [b] with that weight; the edge array holds
    twice [getEdgeCount()] entries; and each node sits under its own id,
    with an embedding of the graph's dimension. *)
Theorem built_graph_invariants :
  forall g : GraphRAG.t,
    ClassSpec.built g ->
    GraphSpec.closed g
    /\ (forall e, In e (GraphRAG.edges g) ->
                  In (GraphRAG.reverse e) (GraphRAG.edges g))
    /\ (forall a b w,
          In (ClassSpec.neighbor b w) (GraphRAG.getNeighbors g a)
          <-> In (ClassSpec.neighbor a w) (GraphRAG.getNeighbors g b))
    /\ List.length (GraphRAG.edges g) = (2 * GraphRAG.getEdgeCount g)%nat
    /\ ClassSpec.nodesWellFormed g
    /\ (forall chunks embeddings g',
          GraphRAG.createGraph g chunks embeddings = Ok g' ->
          ClassSpec.built g').
Proof.
  intros g Hb.
  destruct (ClassFacts.built_invariant g Hb) as (Hc & Hr & (k & Hev) & Hn).
  split; [exact Hc|]. split; [exact Hr|]. split; [|split; [|split]].
  - assert (Half : forall a b w,
              In (ClassSpec.neighbor b w) (GraphRAG.getNeighbors g a) ->
              In (ClassSpec.neighbor a w) (GraphRAG.getNeighbors g b)).
    { intros a b w. rewrite !ClassFacts.In_getNeighbors.
      intros (e & He & Hs & Ht & Hw). exists (GraphRAG.reverse e).
      split; [now apply Hr | simpl; auto]. }
    intros a b w. split; apply Half.
  - unfold GraphRAG.getEdgeCount. rewrite Hev.
    rewrite Nat.mul_comm, Nat.div_mul by discriminate. lia.
  - exact Hn.
  - intros chunks embeddings g' H. exact (ClassFacts.createGraph_built g g' chunks embeddings H Hb).
Qed.

Lemma built_graph_invariants_witness :
  exists g,
    GraphRAG.createGraph (GraphRAG.new 2 0.7%float) Sample.chunks3 Sample.embeddings3
    = Ok g
    /\ List.length (GraphRAG.edges g) = (2 * GraphRAG.getEdgeCount g)%nat
    /\ (forall a b w,
          In (ClassSpec.neighbor b w) (GraphRAG.getNeighbors g a)
          <-> In (ClassSpec.neighbor a w) (GraphRAG.getNeighbors g b)).
Proof.
  destruct (built_graph_invariants (GraphRAG.new 2 0.7%float)
              (ClassSpec.built_new 2 0.7%float)) as (_ & _ & _ & _ & _ & Hcg).
  eexists. split; [reflexivity|].
  destruct (built_graph_invariants _
              (Hcg Sample.chunks3 Sample.embeddings3 _ eq_refl))
    as (_ & _ & Hsym & Hlen & _).
  split; [exact Hlen | exact Hsym].
Defined.

(** ** [createGraph]: what it rejects and the nodes it stores *)

Module NodeFacts.
Import GraphRAG GraphSpec ClassSpec JsMapFacts.
Local Open Scope nat_scope.

Lemma createNodes_throw (embeddings : list GraphEmbedding.t) :
  forall chunks k g,
    (forall i, k <= i < k + List.length chunks ->
               vectorAt embeddings i <> None) ->
    (exists i v, k <= i < k + List.length chunks
                 /\ vectorAt embeddings i = Some v
                 /\ List.length v <> dimension g) ->
    foldM (createNode embeddings) (indexed_from k chunks) g
    = Throw (Error ("Embedding dimension must be "
                      ++ index_toString (dimension g))).
Proof.
  induction chunks as [|chunk chunks IH]; intros k g Hsome (i & v & Hi & Ev & Lv).
  - simpl in Hi. lia.
  - cbn [indexed_from foldM]. unfold createNode at 1. unfold addNode. cbn.
    destruct (vectorAt embeddings k) as [vk|] eqn:Ek;
      [|exfalso; apply (Hsome k); [simpl; lia | exact Ek]].
    destruct (List.length vk =? dimension g) eqn:Lk; cbn; [|reflexivity].
    apply Nat.eqb_eq in Lk.
    match goal with
    | |- foldM _ _ ?g1 = _ =>
        change (dimension g) with (dimension g1); apply (IH (S k) g1)
    end.
    + intros j Hj. apply Hsome. simpl. lia.
    + exists i, v. cbn. split; [|split; auto].
      destruct (Nat.eq_dec i k) as [->|N]; [congruence | simpl in Hi; lia].
Qed.

(** The node phase on a map that holds none of the index keys to come. *)
Lemma createNodes_nodes (embeddings : list GraphEmbedding.t) :
  forall chunks k g g',
    foldM (createNode embeddings) (indexed_from k chunks) g = Ok g' ->
    (forall i, k <= i -> JsMap.has (index_toString i) (nodes g) = false) ->
    JsMap.keys (nodes g')
    = JsMap.keys (nodes g) ++ map index_toString (seq k (List.length chunks))
    /\ (forall i chunk,
          nth_error chunks i = Some chunk ->
          JsMap.get (index_toString (k + i)) (nodes g')
          = Some (nodeOf embeddings (k + i) chunk))
    /\ (forall s, (forall i, k <= i -> s <> index_toString i) ->
                  JsMap.get s (nodes g') = JsMap.get s (nodes g)).
Proof.
  induction chunks as [|chunk chunks IH]; intros k g g' H Hfresh.
  - cbn in H. injection H as <-. cbn. rewrite app_nil_r.
    split; [reflexivity|]. split; [|reflexivity].
    intros [|i] c; discriminate.
  - cbn [indexed_from foldM] in H. apply bind_ok in H as (g1 & H1 & H2).
    unfold createNode in H1.
    apply CreateGraphFacts.addNode_ok in H1 as (_ & N1 & _ & _ & _).
    cbn [GraphNode.id] in N1.
    fold (nodeOf embeddings k chunk) in N1.
    destruct (IH (S k) g1 g' H2) as (K & G & O).
    { intros i Hi. rewrite N1, has_set, (Hfresh i) by lia.
      rewrite orb_false_r. apply String.eqb_neq. intros E.
      apply index_toString_inj in E. lia. }
    split; [|split].
    + rewrite K, N1, keys_set, (Hfresh k) by lia. cbn.
      now rewrite <- app_assoc.
    + intros [|i] c Hc.
      * cbn in Hc. injection Hc as <-. rewrite Nat.add_0_r.
        rewrite O, N1; [apply get_set_same|].
        intros j Hj E. apply index_toString_inj in E. lia.
      * cbn in Hc. replace (k + S i) with (S k + i) by lia. now apply G.
    + intros s Hs. rewrite O, N1.
      * apply get_set_other. intros E. apply (Hs k); [lia | now symmetry].
      * intros i Hi. apply Hs. lia.
Qed.

Lemma linkPair_nodes (embeddings : list GraphEmbedding.t) (i j : nat) (g g' : t) :
  linkPair embeddings i g j = Ok g' -> nodes g' = nodes g.
Proof.
  unfold linkPair. intros H. apply bind_ok in H as (s & _ & H).
  destruct (greater F64.arith s (threshold g)).
  - apply ClassFacts.addEdge_ok in H as (_ & _ & ->). reflexivity.
  - now injection H as <-.
Qed.

Lemma link_nodes (embeddings : list GraphEmbedding.t) (n : nat) (is_ : list nat)
    (g g' : t) :
  foldM (linkFrom embeddings n) is_ g = Ok g' -> nodes g' = nodes g.
Proof.
  intros H.
  refine (PlaceholderFacts.foldM_invariant _ (fun s => nodes s = nodes g) _ _
            g g' H eq_refl).
  intros i _ s s' Hl Hs. unfold linkFrom in Hl. rewrite <- Hs.
  refine (PlaceholderFacts.foldM_invariant _ (fun s0 => nodes s0 = nodes s) _ _
            s s' Hl eq_refl).
  intros j _ s0 s0' Hp Hs0. rewrite <- Hs0. now apply linkPair_nodes with embeddings i j.
Qed.

Lemma vectorAt_In (embeddings : list GraphEmbedding.t) (e : GraphEmbedding.t) :
  In e embeddings ->
  exists i, i < List.length embeddings
            /\ vectorAt embeddings i = Some (GraphEmbedding.vector e).
Proof.
  intros H. apply In_nth_error in H as [i Hi]. exists i. split.
  - apply nth_error_Some. congruence.
  - unfold vectorAt. now rewrite Hi.
Qed.
Lemma createGraph_dimension_error (dim : nat) (thr : float)
    (chunks : list GraphChunk.t) (embeddings : list GraphEmbedding.t) :
  chunks <> [] -> List.length chunks = List.length embeddings ->
  (exists e, In e embeddings /\ List.length (GraphEmbedding.vector e) <> dim) ->
  createGraph (new dim thr) chunks embeddings
  = Throw (Error ("Embedding dimension must be " ++ index_toString dim)).
Proof.
  intros Hc Hl (e & He & Le). unfold createGraph.
  assert (N0 : (List.length chunks =? 0) = false)
    by (destruct chunks; [congruence | reflexivity]).
  assert (N1 : (List.length embeddings =? 0) = false)
    by (rewrite <- Hl; exact N0).
  rewrite N0, N1, (proj2 (Nat.eqb_eq _ _) Hl). cbn [orb negb].
  unfold indexed. rewrite createNodes_throw; [reflexivity| |].
  - intros i Hi. unfold vectorAt.
    destruct (nth_error embeddings i) eqn:E; [discriminate|].
    apply nth_error_None in E. lia.
  - apply vectorAt_In in He as (i & Hi & Ei).
    exists i, (GraphEmbedding.vector e). split; [lia | auto].
Qed.

Lemma createGraph_nodes (dim : nat) (thr : float)
    (chunks : list GraphChunk.t) (embeddings : list GraphEmbedding.t) (g : t) :
  createGraph (new dim thr) chunks embeddings = Ok g ->
  JsMap.keys (nodes g) = map index_toString (seq 0 (List.length chunks))
  /\ getNodeCount g = List.length chunks
  /\ forall i chunk,
       nth_error chunks i = Some chunk ->
       JsMap.get (index_toString i) (nodes g) = Some (nodeOf embeddings i chunk).
Proof.
  unfold createGraph.
  destruct (_ || _); [discriminate|]. destruct (negb _); [discriminate|].
  intros H. apply bind_ok in H as (g1 & H1 & H2).
  apply link_nodes in H2.
  unfold indexed in H1.
  apply createNodes_nodes in H1 as (K & G & _); [|reflexivity].
  cbn in K. rewrite <- H2 in K, G.
  split; [exact K|]. split; [|exact G].
  unfold getNodeCount, JsMap.size.
  rewrite <- (length_map fst). change (map fst (nodes g)) with (JsMap.keys (nodes g)).
  now rewrite K, length_map, length_seq.
Qed.
End NodeFacts.

(** X8.  [createGraph] on a new graph throws when an array is empty, when
    the arrays differ in length, and (from [addNode]) when an embedding has
    not the graph's dimension.  When it returns, the graph holds one node
    per chunk, under the keys ["0"], ["1"], ... in this order; the node of
    chunk [i] has the chunk's text as content, a copy of its metadata and
    the [i]-th vector as embedding. *)
Theorem createGraph_validation :
  forall (dim : nat) (thr : float)
         (chunks : list GraphChunk.t) (embeddings : list GraphEmbedding.t),
    let fresh := GraphRAG.new dim thr in
    (chunks = [] \/ embeddings = [] ->
     GraphRAG.createGraph fresh chunks embeddings
     = Throw (Error "Chunks and embeddings arrays must not be empty"))
    /\ (chunks <> [] -> embeddings <> [] ->
        List.length chunks <> List.length embeddings ->
        GraphRAG.createGraph fresh chunks embeddings
        = Throw (Error "Chunks and embeddings must have the same length"))
    /\ (chunks <> [] -> List.length chunks = List.length embeddings ->
        (exists e, In e embeddings
                   /\ List.length (GraphEmbedding.vector e) <> dim) ->
        GraphRAG.createGraph fresh chunks embeddings
        = Throw (Error ("Embedding dimension must be " ++ index_toString dim)))
    /\ (forall g,
          GraphRAG.createGraph fresh chunks embeddings = Ok g ->
          JsMap.keys (GraphRAG.nodes g)
          = map index_toString (seq 0 (List.length chunks))
          /\ GraphRAG.getNodeCount g = List.length chunks
          /\ forall i chunk,
               nth_error chunks i = Some chunk ->
               JsMap.get (index_toString i) (GraphRAG.nodes g)
               = Some (ClassSpec.nodeOf embeddings i chunk)).
Proof.
  intros dim thr chunks embeddings fresh. unfold GraphRAG.createGraph.
  split; [|split; [|split]].
  - intros [-> | ->]; cbn; [reflexivity | now rewrite orb_true_r].
  - intros Hc He Hl.
    assert (N0 : (List.length chunks =? 0)%nat = false)
      by (destruct chunks; [congruence | reflexivity]).
    assert (N1 : (List.length embeddings =? 0)%nat = false)
      by (destruct embeddings; [congruence | reflexivity]).
    apply Nat.eqb_neq in Hl. now rewrite N0, N1, Hl.
  - apply NodeFacts.createGraph_dimension_error.
  - apply NodeFacts.createGraph_nodes.
Qed.

Lemma createGraph_validation_witness :
  GraphRAG.createGraph (GraphRAG.new 3 0.7%float) Sample.chunks3 Sample.embeddings3
  = Throw (Error "Embedding dimension must be 3")
  /\ exists g,
       GraphRAG.createGraph (GraphRAG.new 2 0.7%float) Sample.chunks3
                            Sample.embeddings3 = Ok g
       /\ JsMap.keys (GraphRAG.nodes g) = ["0"; "1"; "2"].
Proof.
  split.
  - destruct (createGraph_validation 3 0.7%float Sample.chunks3 Sample.embeddings3)
      as (_ & _ & H & _).
    apply H; [discriminate | reflexivity |].
    exists (Sample.embedding [1; 0]%float). split; [now left | discriminate].
  - destruct (createGraph_validation 2 0.7%float Sample.chunks3 Sample.embeddings3)
      as (_ & _ & _ & H).
    eexists. split; [reflexivity|]. apply (H _ eq_refl).
Defined.

(** ** The random walk: what it records and how much randomness it uses *)

Module VisitFacts.
Import GraphRAG GraphSpec ClassSpec JsMapFacts.
Local Open Scope nat_scope.

Section Walk.
Variable Math_random : nat -> float.
Variable g : t.
Variable startNodeId : string.
Variable restartProb : float.
Variable calls0 : nat.

(** What holds of the loop's variables after [n] iterations. *)
Definition after (n : nat) (st : JsMap.t float * string * nat) : Prop :=
  let '(visits, currentNodeId, calls) := st in
  NoDup (JsMap.keys visits)
  /\ List.length (JsMap.keys visits) <= n
  /\ calls0 + n <= calls <= calls0 + 2 * n
  /\ (n = 0 -> visits = [] /\ currentNodeId = startNodeId)
  /\ (0 < n -> exists rest, JsMap.keys visits = startNodeId :: rest)
  /\ (getNeighbors g startNodeId = [] ->
      currentNodeId = startNodeId
      /\ forall k, In k (JsMap.keys visits) -> k = startNodeId).

Lemma walkStep_after (n : nat) (st : JsMap.t float * string * nat) :
  after n st -> after (S n) (walkStep Math_random g startNodeId restartProb st).
Proof.
  destruct st as [[visits cur] calls].
  intros (Hnd & Hlen & Hcalls & H0 & Hhd & Hiso).
  assert (Hkeys : NoDup (JsMap.keys (JsMap.set cur (bump visits cur) visits))
                  /\ List.length (JsMap.keys (JsMap.set cur (bump visits cur) visits))
                     <= S n
                  /\ (exists rest, JsMap.keys (JsMap.set cur (bump visits cur) visits)
                                   = startNodeId :: rest)
                  /\ (getNeighbors g startNodeId = [] ->
                      forall k, In k (JsMap.keys (JsMap.set cur (bump visits cur) visits)) ->
                                k = startNodeId)).
  { split; [now apply ClassFacts.keys_set_NoDup|].
    rewrite keys_set. destruct (JsMap.has cur visits) eqn:E.
    - split; [lia|]. split.
      + destruct n as [|n]; [|apply Hhd; lia].
        destruct H0 as [-> _]; [reflexivity | discriminate].
      + intros Hi. now apply Hiso.
    - split; [rewrite length_app; simpl; lia|]. split.
      + destruct n as [|n].
        * destruct H0 as [-> ->]; [reflexivity|]. now exists [].
        * destruct Hhd as [rest ->]; [lia|]. now exists (rest ++ [cur]).
      + intros Hi k Hk. destruct (Hiso Hi) as [-> Hall].
        apply in_app_or in Hk as [Hk | [<- | []]]; auto. }
  destruct Hkeys as (K1 & K2 & K3 & K4).
  unfold walkStep.
  destruct (PrimFloat.ltb (Math_random calls) restartProb).
  - repeat split; auto; try lia; try discriminate.
  - destruct (getNeighbors g cur) as [|n0 rest] eqn:En.
    + repeat split; auto; try lia; try discriminate.
    + destruct (WalkFacts.selectWeightedNeighbor_In Math_random (n0 :: rest) (S calls))
        as (nb & Hnb & Hsel & _); [discriminate|].
      rewrite Hsel.
      repeat split; auto; try lia; try discriminate.
      destruct (Hiso H) as [-> _]. congruence.
Qed.

Lemma walkLoop_after (steps : nat) :
  after steps (walkLoop Math_random g startNodeId steps restartProb calls0).
Proof.
  unfold walkLoop. induction steps as [|steps IH].
  - cbn. repeat split; auto; try lia; try constructor.
  - cbn [Nat.iter]. now apply walkStep_after.
Qed.
End Walk.

(** Normalisation keeps the keys and their order. *)
Lemma normalized_keys (total : float) :
  forall (visits acc : JsMap.t float),
    NoDup (JsMap.keys acc ++ JsMap.keys visits) ->
    JsMap.keys
      (fold_left (fun normalizedVisits '(nodeId, count) =>
                    JsMap.set nodeId (PrimFloat.div count total) normalizedVisits)
                 visits acc)
    = JsMap.keys acc ++ JsMap.keys visits.
Proof.
  induction visits as [|[k c] visits IH]; intros acc H.
  - cbn. now rewrite app_nil_r.
  - cbn [fold_left].
    change (JsMap.keys ((k, c) :: visits)) with (k :: JsMap.keys visits) in *.
    assert (Hk : JsMap.has k acc = false).
    { apply ClassFacts.has_false_keys. intros Hin.
      apply NoDup_remove_2 in H. apply H. apply in_or_app. now left. }
    rewrite IH; rewrite keys_set, Hk.
    + now rewrite <- app_assoc.
    + rewrite <- app_assoc. exact H.
Qed.
End VisitFacts.

(** X9.  [randomWalkWithRestart] records at most one key per step and each
    key once; with no step it returns the empty map, and otherwise the seed
    is the first key.  It calls [Math.random()] once or twice per step.  A
    seed without neighbors is the only key of its walk. *)
Theorem randomWalk_visits :
  forall (Math_random : nat -> float) (g : GraphRAG.t) (startNodeId : string)
         (steps : nat) (restartProb : float) (calls : nat),
    let walk := GraphRAG.randomWalkWithRestart Math_random g startNodeId steps
                                               restartProb calls in
    NoDup (JsMap.keys (fst walk))
    /\ (List.length (JsMap.keys (fst walk)) <= steps)%nat
    /\ (calls + steps <= snd walk <= calls + 2 * steps)%nat
    /\ (steps = 0%nat -> fst walk = JsMap.empty)
    /\ ((0 < steps)%nat ->
        exists rest, JsMap.keys (fst walk) = startNodeId :: rest)
    /\ ((0 < steps)%nat -> GraphRAG.getNeighbors g startNodeId = [] ->
        JsMap.keys (fst walk) = [startNodeId]).
Proof.
  intros Math_random g startNodeId steps restartProb calls. cbv zeta.
  unfold GraphRAG.randomWalkWithRestart.
  pose proof (VisitFacts.walkLoop_after Math_random g startNodeId restartProb
                calls steps) as H.
  destruct (GraphRAG.walkLoop Math_random g startNodeId steps restartProb calls)
    as [[visits cur] calls'].
  destruct H as (Hnd & Hlen & Hcalls & H0 & Hhd & Hiso).
  cbn [fst snd].
  rewrite (VisitFacts.normalized_keys _ visits JsMap.empty) by exact Hnd.
  cbn [JsMap.keys JsMap.empty map app].
  change (map fst visits) with (JsMap.keys visits).
  split; [exact Hnd|]. split; [exact Hlen|]. split; [exact Hcalls|].
  split; [|split].
  - intros E. destruct (H0 E) as [-> _]. reflexivity.
  - exact Hhd.
  - intros Hs Hi. destruct (Hhd Hs) as [rest E]. rewrite E in *.
    destruct rest as [|k rest]; [reflexivity|]. exfalso.
    destruct (Hiso Hi) as [_ Hall].
    assert (k = startNodeId) by (apply Hall; simpl; auto). subst k.
    inversion Hnd as [|x l Hx Hl]; subst. apply Hx. now left.
Qed.

Lemma randomWalk_visits_witness :
  JsMap.keys (fst (GraphRAG.randomWalkWithRestart (fun _ => 0.5%float)
                     (GraphRAG.new 2 0.7%float) "0" 10 0.15%float 0))
  = ["0"].
Proof.
  destruct (randomWalk_visits (fun _ => 0.5%float) (GraphRAG.new 2 0.7%float)
              "0" 10 0.15%float 0) as (_ & _ & _ & _ & _ & H).
  apply H; [lia | reflexivity].
Defined.

(** ** [query] on a graph the class has built *)

Module QueryFacts.
Import GraphRAG GraphSpec ClassSpec JsMapFacts.
Local Open Scope nat_scope.

Lemma mapM_total {A B : Type} (f : A -> result B) :
  forall l, (forall a, In a l -> exists b, f a = Ok b) ->
            exists bs, JsArray.mapM f l = Ok bs.
Proof.
  induction l as [|a l IH]; intros H; cbn; [eauto|].
  destruct (H a) as [b ->]; [now left|].
  destruct IH as [bs ->]; [intros a' Ha'; apply H; now right|].
  cbn. eauto.
Qed.

Lemma mapM_map {A B : Type} (f : A -> result B) (h : A -> B) :
  forall l, (forall a, In a l -> f a = Ok (h a)) ->
            JsArray.mapM f l = Ok (map h l).
Proof.
  induction l as [|a l IH]; intros H; cbn; [reflexivity|].
  rewrite (H a) by now left. cbn.
  rewrite IH by (intros a' Ha'; apply H; now right). reflexivity.
Qed.

Lemma values_In (g : t) (node : GraphNode.t) :
  nodesWellFormed g ->
  In node (JsMap.values (nodes g)) ->
  JsMap.get (GraphNode.id node) (nodes g) = Some node
  /\ exists v, GraphNode.embedding node = Some v
               /\ List.length v = dimension g.
Proof.
  intros [Hnd Hn] H. apply in_map_iff in H as ([k n] & E & H).
  cbn in E. subst n. apply ClassFacts.In_get in H; [|exact Hnd].
  destruct (Hn k node H) as [Ek Hv]. rewrite Ek. auto.
Qed.

Section Labels.
Variables A L : Type.
Variable label : A -> L.
Variable comparefn : A -> A -> float.

Lemma insert_NoDup (x : A) (l : list A) :
  NoDup (map label (x :: l)) ->
  NoDup (map label (JsArray.insert comparefn x l)).
Proof.
  induction l as [|y l IH]; intros H; [exact H|].
  cbn [JsArray.insert]. destruct (PrimFloat.ltb 0 (comparefn x y)); [|exact H].
  cbn [map] in *. inversion H as [|a la Hx Hyl]; subst.
  inversion Hyl as [|b lb Hy Hl]; subst. constructor.
  - intros Hin. apply in_map_iff in Hin as (a & Ea & Ha).
    apply HybridFacts.insert_In in Ha as [-> | Ha].
    + apply Hx. left. now symmetry.
    + apply Hy. rewrite <- Ea. now apply in_map.
  - apply IH. constructor; [|exact Hl].
    intros Hin. apply Hx. now right.
Qed.

Lemma sort_NoDup (l : list A) :
  NoDup (map label l) -> NoDup (map label (JsArray.sort comparefn l)).
Proof.
  unfold JsArray.sort. induction l as [|x l IH]; intros H; [constructor|].
  cbn [fold_right]. apply insert_NoDup. cbn [map] in *.
  inversion H as [|a la Hx Hl]; subst. constructor; [|now apply IH].
  intros Hin. apply Hx. apply in_map_iff in Hin as (a & Ea & Ha).
  apply (HybridFacts.sort_In comparefn a l) in Ha. rewrite <- Ea. now apply in_map.
Qed.
End Labels.

Lemma firstn_NoDup {A : Type} (k : nat) :
  forall l : list A, NoDup l -> NoDup (firstn k l).
Proof.
  induction k as [|k IH]; intros l H; [constructor|].
  destruct l as [|a l]; [constructor|]. cbn [firstn].
  inversion H as [|x la Hx Hl]; subst. constructor; [|now apply IH].
  intros Hin. apply Hx. revert Hin. clear. revert l.
  induction k as [|k IH]; intros l; [intros []|].
  destruct l as [|b l]; [intros []|]. cbn [firstn].
  intros [-> | Hin]; [now left | right; now apply IH].
Qed.

(** The map [rerankedNodes] of [query]: keys pairwise distinct, and under
    each key the node the graph holds under it. *)
Definition rerankedOk (g : t) (rerankedNodes : JsMap.t Reranked.t) : Prop :=
  NoDup (JsMap.keys rerankedNodes)
  /\ forall k r, In (k, r) rerankedNodes ->
       exists node, Reranked.node r = Some node
                    /\ JsMap.get k (nodes g) = Some node.

Lemma accumulate_ok (g : t) (similarity : float)
    (rerankedNodes : JsMap.t Reranked.t) (entry : string * float) :
  rerankedOk g rerankedNodes ->
  JsMap.has (fst entry) (nodes g) = true ->
  rerankedOk g (accumulate g similarity rerankedNodes entry).
Proof.
  destruct entry as [nodeId walkScore]. intros [Hnd Hr] Hhas.
  unfold accumulate. split; [now apply ClassFacts.keys_set_NoDup|].
  intros k r Hin. apply ClassFacts.In_set in Hin as [E | Hin]; [|now apply Hr].
  injection E as -> ->. cbn in *. unfold JsMap.has in Hhas.
  destruct (JsMap.get nodeId (nodes g)) as [node|]; [eauto | discriminate].
Qed.

Lemma accumulate_all_ok (g : t) (similarity : float) :
  forall (walkScores : JsMap.t float) (rerankedNodes : JsMap.t Reranked.t),
    rerankedOk g rerankedNodes ->
    (forall k, In k (JsMap.keys walkScores) -> JsMap.has k (nodes g) = true) ->
    rerankedOk g (fold_left (accumulate g similarity) walkScores rerankedNodes).
Proof.
  induction walkScores as [|entry walkScores IH]; intros R HR Hk; [exact HR|].
  cbn [fold_left]. apply IH.
  - apply accumulate_ok; [exact HR|]. apply Hk. now left.
  - intros k Hin. apply Hk. now right.
Qed.

Lemma rerankFrom_ok (Math_random : nat -> float) (g : t)
    (randomWalkSteps : nat) (restartProb : float)
    (st : JsMap.t Reranked.t * nat) (top : Similarity.t) :
  closed g ->
  JsMap.has (GraphNode.id (Similarity.node top)) (nodes g) = true ->
  rerankedOk g (fst st) ->
  rerankedOk g (fst (rerankFrom Math_random g randomWalkSteps restartProb st top)).
Proof.
  intros Hc Hs HR. destruct st as [R calls]. unfold rerankFrom.
  pose proof (WalkFacts.randomWalk_onGraph Math_random g
                (GraphNode.id (Similarity.node top)) randomWalkSteps restartProb
                calls Hc Hs) as Hw.
  destruct (randomWalkWithRestart Math_random g _ randomWalkSteps restartProb calls)
    as [walkScores calls'].
  cbn [fst] in *. now apply accumulate_all_ok.
Qed.

Lemma rerank_all_ok (Math_random : nat -> float) (g : t)
    (randomWalkSteps : nat) (restartProb : float) :
  closed g ->
  forall (topNodes : list Similarity.t) (st : JsMap.t Reranked.t * nat),
    (forall top, In top topNodes ->
       JsMap.has (GraphNode.id (Similarity.node top)) (nodes g) = true) ->
    rerankedOk g (fst st) ->
    rerankedOk g (fst (fold_left (rerankFrom Math_random g randomWalkSteps restartProb)
                                 topNodes st)).
Proof.
  intros Hc. induction topNodes as [|top topNodes IH]; intros st Ht HR; [exact HR|].
  cbn [fold_left]. apply IH.
  - intros top' Hin. apply Ht. now right.
  - apply rerankFrom_ok; [exact Hc | apply Ht; now left | exact HR].
Qed.

(** On such a map, the nodes of the values are labelled by the keys. *)
Lemma rerankedOk_values (g : t) (rerankedNodes : JsMap.t Reranked.t) :
  nodesWellFormed g -> rerankedOk g rerankedNodes ->
  NoDup (map rerankedId (JsMap.values rerankedNodes))
  /\ forall r, In r (JsMap.values rerankedNodes) ->
       exists node, Reranked.node r = Some node
                    /\ JsMap.get (GraphNode.id node) (nodes g) = Some node.
Proof.
  intros [_ Hn] [Hnd Hr].
  assert (Hid : forall k r, In (k, r) rerankedNodes -> rerankedId r = k).
  { intros k r Hin. destruct (Hr k r Hin) as (node & En & Hg).
    unfold rerankedId. rewrite En. now apply (Hn k node). }
  split.
  - replace (map rerankedId (JsMap.values rerankedNodes))
      with (JsMap.keys rerankedNodes); [exact Hnd|].
    unfold JsMap.keys, JsMap.values. rewrite map_map.
    apply map_ext_in. intros [k r] Hin. cbn. symmetry. now apply Hid.
  - intros r Hin. apply in_map_iff in Hin as ([k r'] & E & Hin). cbn in E. subst r'.
    destruct (Hr k r Hin) as (node & En & Hg). exists node. split; [exact En|].
    destruct (Hn k node Hg) as [-> _]. exact Hg.
Qed.
(** [query] on a graph whose edges join its nodes and whose nodes are
    well formed. *)
Lemma query_wellFormed (Math_random : nat -> float) (g : t) (query : list float)
    (topK randomWalkSteps : nat) (restartProb : float) (calls : nat) :
  closed g -> nodesWellFormed g ->
  List.length query = dimension g ->
  exists results calls',
    GraphRAG.query Math_random g query topK randomWalkSteps restartProb calls
    = (Ok results, calls')
    /\ List.length results <= topK
    /\ List.length results <= getNodeCount g
    /\ NoDup (map RankedNode.id results)
    /\ forall r, In r results ->
         exists node,
           JsMap.get (RankedNode.id r) (nodes g) = Some node
           /\ r = ranked node (RankedNode.score r).
Proof.
  intros Hc Hwf Hlen. rename randomWalkSteps into steps.
  unfold GraphRAG.query. rewrite (proj2 (Nat.eqb_eq _ _) Hlen). cbn [negb].
  set (score := fun node : GraphNode.t =>
                  similarity <- GraphRAG.cosineSimilarity (Some query)
                                  (GraphNode.embedding node) ;;
                  Ok {| GraphRAG.Similarity.node := node;
                        GraphRAG.Similarity.similarity := similarity |}).
  destruct (mapM_total score (JsMap.values (GraphRAG.nodes g)))
    as [similarities Hs].
  { intros node Hin. destruct (values_In g node Hwf Hin) as (_ & v & Ev & Lv).
    unfold score. rewrite Ev.
    destruct (cosineSimilarity_total F64.arith query v) as [s Es]; [congruence|].
    unfold GraphRAG.cosineSimilarity. rewrite Es. cbn. eauto. }
  rewrite Hs.
  set (topNodes := JsArray.slice0 topK _).
  pose proof (rerank_all_ok Math_random g steps restartProb Hc topNodes
                (JsMap.empty, calls)) as HR.
  destruct (fold_left _ topNodes (JsMap.empty, calls)) as [rerankedNodes calls'].
  cbn [fst] in HR.
  assert (HR' : rerankedOk g rerankedNodes).
  { apply HR.
    - intros top Hin. apply HybridFacts.slice0_In in Hin.
      apply HybridFacts.sort_In in Hin.
      destruct (HybridFacts.mapM_In _ _ _ Hs top Hin) as (node & Hnode & Hsc).
      unfold score in Hsc. apply bind_ok in Hsc as (s & _ & Hsc).
      injection Hsc as <-. cbn.
      destruct (values_In g node Hwf Hnode) as [Hg _].
      unfold JsMap.has. now rewrite Hg.
    - split; [constructor | intros k r []]. }
  destruct (rerankedOk_values g rerankedNodes Hwf HR') as [Hnd Hval].
  set (sorted := JsArray.sort _ (JsMap.values rerankedNodes)).
  set (final := JsArray.slice0 topK sorted).
  assert (Hfinal : forall r, In r final -> In r (JsMap.values rerankedNodes)).
  { intros r Hin. apply HybridFacts.slice0_In in Hin.
    now apply HybridFacts.sort_In in Hin. }
  set (h := fun r : GraphRAG.Reranked.t =>
              match GraphRAG.Reranked.node r with
              | Some node => ClassSpec.ranked node (GraphRAG.Reranked.score r)
              | None => ClassSpec.ranked
                          {| GraphNode.id := ""; GraphNode.content := VUndefined;
                             GraphNode.embedding := None;
                             GraphNode.metadata := VUndefined |}
                          (GraphRAG.Reranked.score r)
              end).
  assert (Hm : JsArray.mapM GraphRAG.toRanked final = Ok (map h final)).
  { apply mapM_map. intros r Hin.
    destruct (Hval r (Hfinal r Hin)) as (node & En & _).
    unfold GraphRAG.toRanked, h. now rewrite En. }
  rewrite Hm. exists (map h final), calls'. split; [reflexivity|].
  assert (Hids : map RankedNode.id (map h final) = map ClassSpec.rerankedId final).
  { rewrite map_map. apply map_ext_in. intros r Hin.
    destruct (Hval r (Hfinal r Hin)) as (node & En & _).
    unfold h, ClassSpec.rerankedId. now rewrite En. }
  assert (Hndf : NoDup (map ClassSpec.rerankedId final)).
  { unfold final, JsArray.slice0. rewrite <- firstn_map.
    apply firstn_NoDup. now apply sort_NoDup. }
  split; [|split; [|split]].
  - rewrite length_map. apply RankFacts.slice0_length.
  - rewrite length_map.
    assert (Hk : (List.length (map ClassSpec.rerankedId final)
                  <= List.length (JsMap.keys (GraphRAG.nodes g)))%nat).
    { apply NoDup_incl_length; [exact Hndf|].
      intros k Hk. apply in_map_iff in Hk as (r & <- & Hin).
      destruct (Hval r (Hfinal r Hin)) as (node & En & Hg).
      unfold ClassSpec.rerankedId. rewrite En.
      apply ClassFacts.has_keys. unfold JsMap.has. now rewrite Hg. }
    rewrite length_map in Hk. unfold GraphRAG.getNodeCount, JsMap.size.
    unfold JsMap.keys in Hk. now rewrite length_map in Hk.
  - now rewrite Hids.
  - intros r Hin. apply in_map_iff in Hin as (r0 & <- & Hin).
    destruct (Hval r0 (Hfinal r0 Hin)) as (node & En & Hg).
    exists node. unfold h. rewrite En. cbn. auto.
Qed.
Lemma query_wrong_dimension (Math_random : nat -> float) (g : t)
    (query : list float) (topK randomWalkSteps : nat) (restartProb : float)
    (calls : nat) :
  List.length query <> dimension g ->
  GraphRAG.query Math_random g query topK randomWalkSteps restartProb calls
  = (Throw (Error ("Query embedding must have dimension "
                     ++ index_toString (dimension g))), calls).
Proof.
  intros N. unfold GraphRAG.query. apply Nat.eqb_neq in N. now rewrite N.
Qed.
End QueryFacts.

(** X10.  On a graph obtained from a new one by [addNode], [addEdge] and
    [createGraph], [query] with an embedding of the graph's dimension always
    returns: no similarity computation and no lookup of a visited node
    fails.  It returns at most [topK] results, no node twice, and each
    result carries the id, content and metadata of the node the graph holds
    under that id. *)
Theorem query_returns_nodes :
  forall (Math_random : nat -> float) (g : GraphRAG.t) (query : list float)
         (topK randomWalkSteps : nat) (restartProb : float) (calls : nat),
    ClassSpec.built g ->
    List.length query = GraphRAG.dimension g ->
    exists results calls',
      GraphRAG.query Math_random g query topK randomWalkSteps restartProb calls
      = (Ok results, calls')
      /\ (List.length results <= topK)%nat
      /\ (List.length results <= GraphRAG.getNodeCount g)%nat
      /\ NoDup (map RankedNode.id results)
      /\ forall r, In r results ->
           exists node,
             JsMap.get (RankedNode.id r) (GraphRAG.nodes g) = Some node
             /\ r = ClassSpec.ranked node (RankedNode.score r).
Proof.
  intros Math_random g query topK steps restartProb calls Hb Hlen.
  destruct (ClassFacts.built_invariant g Hb) as (Hc & _ & _ & Hwf).
  destruct (QueryFacts.query_wellFormed Math_random g query topK steps
              restartProb calls Hc Hwf Hlen)
    as (results & calls' & Hq & H).
  exists results, calls'. split; [exact Hq | exact H].
Qed.

Lemma query_returns_nodes_witness :
  exists g results calls',
    GraphRAG.createGraph (GraphRAG.new 2 0.7%float) Sample.chunks3 Sample.embeddings3
    = Ok g
    /\ GraphRAG.query (fun _ => 0.5%float) g [1; 0]%float 2 10 0.15%float 0
       = (Ok results, calls')
    /\ (List.length results <= 2)%nat
    /\ NoDup (map RankedNode.id results).
Proof.
  eexists.
  assert (Hg : GraphRAG.createGraph (GraphRAG.new 2 0.7%float) Sample.chunks3
                                    Sample.embeddings3 = Ok _) by reflexivity.
  destruct (query_returns_nodes (fun _ => 0.5%float) _ [1; 0]%float 2 10
              0.15%float 0
              (ClassFacts.createGraph_built _ _ _ _ Hg (ClassSpec.built_new 2 0.7%float))
              eq_refl)
    as (results & calls' & Hq & Hl & _ & Hnd & _).
  exists results, calls'. split; [exact Hg|]. split; [exact Hq|].
  split; [exact Hl | exact Hnd].
Defined.

(* ================================================================== *)
(** * [youtubeGraphRAGTool.execute]: exits, reuse of the cache, builds *)

Module ToolFacts.
Import GraphTool CacheSpec.
Local Open Scope nat_scope.

Lemma prefix_append (s t : string) : String.prefix s (s ++ t) = true.
Proof.
  induction s as [|ch s IH]; cbn; [now destruct t|].
  destruct (Ascii.ascii_dec ch ch); [exact IH | congruence].
Qed.

Lemma get_filter_removed {V : Type} (p : string -> bool) (k : string)
    (m : JsMap.t V) :
  p k = true ->
  JsMap.get k (filter (fun entry => negb (p (fst entry))) m) = None.
Proof.
  intros Hp. induction m as [|[k' v] m IH]; cbn; [reflexivity|].
  destruct (p k') eqn:E; cbn; [exact IH|].
  destruct (String.eqb k k') eqn:Ek; [|exact IH].
  apply String.eqb_eq in Ek. congruence.
Qed.

(** The key of an index is removed by [clearGraphCache] of that index and
    by [clearGraphCache()]. *)
Lemma get_cleared (B : Builtins) (indexName : string) (threshold : float)
    (arg : option string) (graphCache : JsMap.t GraphCache.t) :
  arg = None \/ arg = Some indexName ->
  JsMap.get (cacheKey B indexName threshold) (clearGraphCache arg graphCache)
  = None.
Proof.
  intros [-> | ->]; [reflexivity|].
  destruct indexName as [|ch rest]; [reflexivity|].
  unfold clearGraphCache. apply get_filter_removed.
  unfold cacheKey. apply prefix_append.
Qed.

Lemma toEmbedding_length (rows : list QueryResult.t) :
  (forall r, In r rows ->
     exists v, QueryResult.vector r = Some v /\ List.length v = 1536) ->
  forall e, In e (map toEmbedding rows) ->
            List.length (GraphEmbedding.vector e) = 1536.
Proof.
  intros H e He. apply in_map_iff in He as (r & <- & Hr).
  destruct (H r Hr) as (v & Ev & Lv). unfold toEmbedding. cbn. now rewrite Ev.
Qed.

Lemma toEmbedding_bad (rows : list QueryResult.t) (r : QueryResult.t) :
  In r rows ->
  QueryResult.vector r = None
  \/ (exists v, QueryResult.vector r = Some v /\ List.length v <> 1536) ->
  exists e, In e (map toEmbedding rows)
            /\ List.length (GraphEmbedding.vector e) <> 1536.
Proof.
  intros Hr Hbad. exists (toEmbedding r). split; [now apply in_map|].
  unfold toEmbedding. cbn. destruct Hbad as [-> | (v & -> & Lv)]; [cbn; lia | exact Lv].
Qed.

(** Every outcome of the build branch reports a miss. *)
Lemma execute_miss (B : Builtins) (h : Host.t) (c : Context.t) (w w' : World.t)
    (out : Output.t) :
  JsMap.get (cacheKey B (Context.indexName c) (Context.threshold c))
            (World.graphCache w) = None ->
  execute B h c w = (Ok out, w') ->
  GraphStats.cacheHit (Output.graphStats out) = false.
Proof.
  intros Hget. unfold execute.
  destruct (Host.POSTGRES_CONNECTION_STRING h) as [[|ch cs]|]; try discriminate.
  destruct (Host.embed h (Context.queryText c)) as [qe|e]; [|discriminate].
  unfold acquire. rewrite Hget. cbn [isCacheValid].
  destruct (build B h c qe w) as [[[graphRAG|graphRAG buildTimeMs|]|e] w1] eqn:Eb.
  - exfalso. unfold build in Eb.
    destruct (Host.pgVector_query h _); [|discriminate].
    destruct (_ =? 0); [discriminate|].
    destruct (GraphRAG.createGraph _ _ _); discriminate.
  - intros H. apply CacheFacts.answer_cache in H as (_ & _ & H).
    now destruct (H out eq_refl).
  - intros H. injection H as <- _. reflexivity.
  - discriminate.
Qed.
End ToolFacts.

(** X11.  The calls of the graph tool that end before a graph exists.
    Without a connection string (unset or empty) it throws before anything
    else; a failure of the embedding call is rethrown; and when the
    candidate fetch returns no row it returns the empty answer with zero
    counts, [cacheHit = false] and [buildTimeMs = 0].  In the three cases
    the cache, and the rest of the process state, is what it was. *)
Theorem graph_execute_early_exits :
  forall (B : Builtins) (h : GraphTool.Host.t) (c : GraphTool.Context.t)
         (w : GraphTool.World.t),
    (GraphTool.Host.POSTGRES_CONNECTION_STRING h = None
     \/ GraphTool.Host.POSTGRES_CONNECTION_STRING h = Some "" ->
     GraphTool.execute B h c w
     = (Throw (Error "POSTGRES_CONNECTION_STRING is not set"), w))
    /\ (forall (s : string) (e : error),
          GraphTool.Host.POSTGRES_CONNECTION_STRING h = Some s -> s <> "" ->
          GraphTool.Host.embed h (GraphTool.Context.queryText c) = Throw e ->
          GraphTool.execute B h c w = (Throw e, w))
    /\ (forall (s : string) (queryEmbedding : list float),
          GraphTool.Host.POSTGRES_CONNECTION_STRING h = Some s -> s <> "" ->
          GraphTool.Host.embed h (GraphTool.Context.queryText c)
          = Ok queryEmbedding ->
          GraphTool.isCacheValid
            (JsMap.get (GraphTool.cacheKey B (GraphTool.Context.indexName c)
                                           (GraphTool.Context.threshold c))
                       (GraphTool.World.graphCache w))
            (GraphTool.Context.rebuildGraph c) (GraphTool.Host.new_Date h)
          = false ->
          GraphTool.Host.pgVector_query h (CacheSpec.graphQuery c queryEmbedding)
          = Ok [] ->
          GraphTool.execute B h c w = (Ok GraphTool.emptyOutput, w)
          /\ GraphTool.Output.sources GraphTool.emptyOutput = []
          /\ GraphTool.GraphStats.nodeCount
               (GraphTool.Output.graphStats GraphTool.emptyOutput) = 0%nat).
Proof.
  intros B h c w. split; [|split].
  - unfold GraphTool.execute. intros [-> | ->]; reflexivity.
  - intros s e Hs Hne He. unfold GraphTool.execute. rewrite Hs, He.
    destruct s; [congruence | reflexivity].
  - intros s qe Hs Hne He Hinv Hq.
    rewrite (CacheFacts.execute_steps B h c w s qe Hs Hne He).
    rewrite (CacheFacts.acquire_invalid B h c qe w Hinv).
    unfold GraphTool.build. fold (CacheSpec.graphQuery c qe). rewrite Hq.
    cbn. auto.
Qed.

Lemma graph_execute_early_exits_witness :
  GraphTool.execute Sample.builtins (Sample.graphHost Sample.t1 [])
                    Sample.graphContext Sample.emptyWorld
  = (Ok GraphTool.emptyOutput, Sample.emptyWorld).
Proof.
  destruct (graph_execute_early_exits Sample.builtins (Sample.graphHost Sample.t1 [])
              Sample.graphContext Sample.emptyWorld) as (_ & _ & H).
  destruct (H "postgres://localhost/yt" (Sample.vector1536 0.1%float)
              eq_refl ltac:(discriminate) eq_refl eq_refl eq_refl) as [E _].
  exact E.
Defined.

(** X12.  On a cache hit the answer is computed on the stored graph: the
    vector store is not asked, and neither the filter nor [maxGraphNodes]
    of the request has any effect.  The entry is found under the index name
    and the threshold alone, so it is the graph built for whatever query
    text and filter the building call had. *)
Theorem cache_hit_ignores_filter :
  forall (B : Builtins) (h : GraphTool.Host.t) (c : GraphTool.Context.t)
         (w : GraphTool.World.t) (s : string) (queryEmbedding : list float)
         (entry : GraphTool.GraphCache.t)
         (filter' : value) (maxGraphNodes' : nat)
         (pgVector_query' : QueryArgs.t -> result (list QueryResult.t))
         (buildStart' buildEnd' : float),
    GraphTool.Host.POSTGRES_CONNECTION_STRING h = Some s -> s <> "" ->
    GraphTool.Host.embed h (GraphTool.Context.queryText c) = Ok queryEmbedding ->
    JsMap.get (GraphTool.cacheKey B (GraphTool.Context.indexName c)
                                  (GraphTool.Context.threshold c))
              (GraphTool.World.graphCache w) = Some entry ->
    GraphTool.Context.rebuildGraph c = false ->
    PrimFloat.ltb (GraphTool.Host.new_Date h - GraphTool.GraphCache.createdAt entry)
                  GraphTool.CACHE_TTL_MS = true ->
    let c' := {| GraphTool.Context.queryText := GraphTool.Context.queryText c;
                 GraphTool.Context.indexName := GraphTool.Context.indexName c;
                 GraphTool.Context.topK := GraphTool.Context.topK c;
                 GraphTool.Context.filter := filter';
                 GraphTool.Context.randomWalkSteps :=
                   GraphTool.Context.randomWalkSteps c;
                 GraphTool.Context.restartProb := GraphTool.Context.restartProb c;
                 GraphTool.Context.threshold := GraphTool.Context.threshold c;
                 GraphTool.Context.maxGraphNodes := maxGraphNodes';
                 GraphTool.Context.rebuildGraph := GraphTool.Context.rebuildGraph c |} in
    let h' := {| GraphTool.Host.POSTGRES_CONNECTION_STRING :=
                   GraphTool.Host.POSTGRES_CONNECTION_STRING h;
                 GraphTool.Host.embed := GraphTool.Host.embed h;
                 GraphTool.Host.pgVector_query := pgVector_query';
                 GraphTool.Host.new_Date := GraphTool.Host.new_Date h;
                 GraphTool.Host.buildStart := buildStart';
                 GraphTool.Host.buildEnd := buildEnd';
                 GraphTool.Host.Math_random := GraphTool.Host.Math_random h |} in
    GraphTool.execute B h c w
    = GraphTool.answer h c queryEmbedding (GraphTool.GraphCache.graph entry)
                       true None w
    /\ GraphTool.execute B h' c' w = GraphTool.execute B h c w.
Proof.
  intros B h c w s qe entry filter' maxGraphNodes' pgVector_query'
         buildStart' buildEnd' Hs Hne He Hget Hre Hage c' h'.
  assert (E : GraphTool.execute B h c w
              = GraphTool.answer h c qe (GraphTool.GraphCache.graph entry)
                                 true None w).
  { rewrite (CacheFacts.execute_steps B h c w s qe Hs Hne He).
    now rewrite (CacheFacts.acquire_hit B h c qe w entry Hget Hre Hage). }
  split; [exact E|]. rewrite E.
  rewrite (CacheFacts.execute_steps B h' c' w s qe Hs Hne He).
  now rewrite (CacheFacts.acquire_hit B h' c' qe w entry Hget Hre Hage).
Qed.

(** X13.  A build needs a vector of 1536 numbers in every row: when the
    fetch returns a row without vector, or with a vector of another length,
    [execute] throws [Embedding dimension must be 1536] (raised by [addNode]
    under [createGraph]) and stores nothing. *)
Theorem graph_execute_requires_vectors :
  forall (B : Builtins) (h : GraphTool.Host.t) (c : GraphTool.Context.t)
         (w : GraphTool.World.t) (s : string) (queryEmbedding : list float)
         (rows : list QueryResult.t),
    GraphTool.Host.POSTGRES_CONNECTION_STRING h = Some s -> s <> "" ->
    GraphTool.Host.embed h (GraphTool.Context.queryText c) = Ok queryEmbedding ->
    GraphTool.isCacheValid
      (JsMap.get (GraphTool.cacheKey B (GraphTool.Context.indexName c)
                                     (GraphTool.Context.threshold c))
                 (GraphTool.World.graphCache w))
      (GraphTool.Context.rebuildGraph c) (GraphTool.Host.new_Date h) = false ->
    GraphTool.Host.pgVector_query h (CacheSpec.graphQuery c queryEmbedding)
    = Ok rows ->
    (exists r, In r rows
               /\ (QueryResult.vector r = None
                   \/ exists v, QueryResult.vector r = Some v
                                /\ List.length v <> 1536%nat)) ->
    exists w',
      GraphTool.execute B h c w
      = (Throw (Error "Embedding dimension must be 1536"), w')
      /\ GraphTool.World.graphCache w' = GraphTool.World.graphCache w.
Proof.
  intros B h c w s qe rows Hs Hne He Hinv Hq (r & Hr & Hbad).
  rewrite (CacheFacts.execute_steps B h c w s qe Hs Hne He).
  rewrite (CacheFacts.acquire_invalid B h c qe w Hinv).
  unfold GraphTool.build. fold (CacheSpec.graphQuery c qe). rewrite Hq.
  destruct rows as [|r0 rows0]; [destruct Hr|].
  cbn [List.length Nat.eqb].
  rewrite (NodeFacts.createGraph_dimension_error 1536 (GraphTool.Context.threshold c)
             (map GraphTool.toChunk (r0 :: rows0))
             (map GraphTool.toEmbedding (r0 :: rows0))).
  - eexists. split; reflexivity.
  - discriminate.
  - now rewrite !length_map.
  - now apply ToolFacts.toEmbedding_bad with r.
Qed.

Lemma graph_execute_requires_vectors_witness :
  exists w',
    GraphTool.execute Sample.builtins (Sample.graphHost Sample.t1 Sample.badRows)
                      Sample.graphContext Sample.emptyWorld
    = (Throw (Error "Embedding dimension must be 1536"), w')
    /\ GraphTool.World.graphCache w' = [].
Proof.
  apply (graph_execute_requires_vectors Sample.builtins
           (Sample.graphHost Sample.t1 Sample.badRows) Sample.graphContext
           Sample.emptyWorld "postgres://localhost/yt" (Sample.vector1536 0.1%float)
           Sample.badRows eq_refl ltac:(discriminate) eq_refl eq_refl eq_refl).
  exists (Sample.row "r1" [1; 2]%float). split; [now left|].
  right. exists [1; 2]%float. split; [reflexivity | discriminate].
Defined.

Lemma cache_hit_ignores_filter_witness :
  let B := Sample.builtins in
  let c := Sample.graphContext in
  let w1 := snd (GraphTool.execute B (Sample.graphHost Sample.t1 Sample.rows) c
                                   Sample.emptyWorld) in
  GraphTool.execute B
    {| GraphTool.Host.POSTGRES_CONNECTION_STRING := Some "postgres://localhost/yt";
       GraphTool.Host.embed := fun _ => Ok (Sample.vector1536 0.1%float);
       GraphTool.Host.pgVector_query := fun _ => Throw (Error "store is down");
       GraphTool.Host.new_Date := Sample.t2;
       GraphTool.Host.buildStart := 0%float;
       GraphTool.Host.buildEnd := 0%float;
       GraphTool.Host.Math_random := fun _ => 0.5%float |}
    {| GraphTool.Context.queryText := "graph search";
       GraphTool.Context.indexName := "yt_index";
       GraphTool.Context.topK := 2;
       GraphTool.Context.filter := VObj [("channelId", VStr "UC1")];
       GraphTool.Context.randomWalkSteps := 5;
       GraphTool.Context.restartProb := 0.15%float;
       GraphTool.Context.threshold := 0.7%float;
       GraphTool.Context.maxGraphNodes := 10;
       GraphTool.Context.rebuildGraph := false |}
    w1
  = GraphTool.execute B (Sample.graphHost Sample.t2 Sample.rows) c w1.
Proof.
  intros B c w1.
  exact (proj2 (cache_hit_ignores_filter B (Sample.graphHost Sample.t2 Sample.rows)
                  c w1 "postgres://localhost/yt" (Sample.vector1536 0.1%float)
                  (CacheSpec.entryFor c Sample.t1
                     {| GraphTool.GraphObject.address := 0;
                        GraphTool.GraphObject.object := Sample.graph |})
                  (VObj [("channelId", VStr "UC1")]) 10
                  (fun _ => Throw (Error "store is down")) 0%float 0%float
                  eq_refl ltac:(discriminate) eq_refl eq_refl eq_refl eq_refl)).
Defined.

(** X14.  A build from a non-empty fetch whose rows all carry a vector of
    1536 numbers completes and is stored under the key before the graph is
    queried; the graph has one node per row.  If the query embedding has
    not 1536 numbers, [execute] then throws from [query], and the new graph
    stays in the cache.  Otherwise [execute] returns: it reports a miss and
    as many nodes as rows, returns at most [topK] sources, no row twice,
    and each source is a row of the fetch: its id is the rank of the row in
    the fetch, its text and metadata are those taken from the row. *)
Theorem graph_execute_build :
  forall (B : Builtins) (h : GraphTool.Host.t) (c : GraphTool.Context.t)
         (w : GraphTool.World.t) (s : string) (queryEmbedding : list float)
         (rows : list QueryResult.t),
    GraphTool.Host.POSTGRES_CONNECTION_STRING h = Some s -> s <> "" ->
    GraphTool.Host.embed h (GraphTool.Context.queryText c) = Ok queryEmbedding ->
    GraphTool.isCacheValid
      (JsMap.get (GraphTool.cacheKey B (GraphTool.Context.indexName c)
                                     (GraphTool.Context.threshold c))
                 (GraphTool.World.graphCache w))
      (GraphTool.Context.rebuildGraph c) (GraphTool.Host.new_Date h) = false ->
    GraphTool.Host.pgVector_query h (CacheSpec.graphQuery c queryEmbedding)
    = Ok rows ->
    rows <> [] ->
    (forall r, In r rows ->
       exists v, QueryResult.vector r = Some v /\ List.length v = 1536%nat) ->
    exists g r w',
      CacheSpec.buildFrom c rows = Ok g
      /\ GraphRAG.getNodeCount g = List.length rows
      /\ GraphTool.execute B h c w = (r, w')
      /\ GraphTool.World.graphCache w'
         = JsMap.set (GraphTool.cacheKey B (GraphTool.Context.indexName c)
                                         (GraphTool.Context.threshold c))
                     (CacheSpec.entryFor c (GraphTool.Host.new_Date h)
                        {| GraphTool.GraphObject.address :=
                             GraphTool.World.allocations w;
                           GraphTool.GraphObject.object := g |})
                     (GraphTool.World.graphCache w)
      /\ (List.length queryEmbedding <> 1536%nat ->
          r = Throw (Error "Query embedding must have dimension 1536"))
      /\ (List.length queryEmbedding = 1536%nat ->
          exists out,
            r = Ok out
            /\ GraphTool.GraphStats.nodeCount (GraphTool.Output.graphStats out)
               = List.length rows
            /\ GraphTool.GraphStats.cacheHit (GraphTool.Output.graphStats out)
               = false
            /\ (List.length (GraphTool.Output.sources out)
                <= GraphTool.Context.topK c)%nat
            /\ NoDup (map GraphTool.Source.id (GraphTool.Output.sources out))
            /\ forall src, In src (GraphTool.Output.sources out) ->
                 exists i row,
                   nth_error rows i = Some row
                   /\ GraphTool.Source.id src = index_toString i
                   /\ GraphTool.Source.text src
                      = GraphChunk.text (GraphTool.toChunk row)
                   /\ GraphTool.Source.metadata src
                      = spread (GraphChunk.metadata (GraphTool.toChunk row))).
Proof.
  intros B h c w s qe rows Hs Hne He Hinv Hq Hrows Hvec.
  destruct (LinkFacts.createGraph_total 1536 (GraphTool.Context.threshold c)
              (map GraphTool.toChunk rows) (map GraphTool.toEmbedding rows))
    as [g Hg].
  { destruct rows; [congruence | discriminate]. }
  { now rewrite !length_map. }
  { now apply ToolFacts.toEmbedding_length. }
  fold (CacheSpec.buildFrom c rows) in Hg.
  pose proof Hg as Hnodes. unfold CacheSpec.buildFrom in Hnodes.
  apply NodeFacts.createGraph_nodes in Hnodes as (Hkeys & Hcount & Hget).
  rewrite length_map in Hkeys, Hcount.
  pose proof Hg as Hdim. unfold CacheSpec.buildFrom in Hdim.
  apply LinkFacts.createGraph_spec in Hdim as (_ & _ & _ & Hdim & _).
  assert (Hc : GraphSpec.closed g)
    by (now apply WalkFacts.createGraph_closed
          with 1536%nat (GraphTool.Context.threshold c)
               (map GraphTool.toChunk rows) (map GraphTool.toEmbedding rows)).
  assert (Hwf : ClassSpec.nodesWellFormed g).
  { apply ClassFacts.built_invariant.
    apply (ClassFacts.createGraph_built _ g _ _ Hg). constructor. }
  exists g.
  destruct (GraphTool.execute B h c w) as [r w'] eqn:Ex. exists r, w'.
  split; [exact Hg|]. split; [exact Hcount|]. split; [reflexivity|].
  rewrite (CacheFacts.execute_steps B h c w s qe Hs Hne He) in Ex.
  rewrite (CacheFacts.acquire_invalid B h c qe w Hinv) in Ex.
  rewrite (CacheFacts.build_ok B h c qe w rows g Hq Hrows Hg) in Ex.
  cbv iota in Ex. unfold GraphTool.answer in Ex.
  cbn [GraphTool.GraphObject.object GraphTool.World.randomCalls
       GraphTool.World.graphCache GraphTool.World.allocations] in Ex.
  split; [|split].
  - destruct (GraphRAG.query _ _ _ _ _ _ _) as [[ranked|e] calls];
      injection Ex as _ <-; reflexivity.
  - intros Hl.
    rewrite QueryFacts.query_wrong_dimension in Ex by congruence.
    injection Ex as <- _. now rewrite Hdim.
  - intros Hl.
    destruct (QueryFacts.query_wellFormed (GraphTool.Host.Math_random h) g qe
                (GraphTool.Context.topK c) (GraphTool.Context.randomWalkSteps c)
                (GraphTool.Context.restartProb c) (GraphTool.World.randomCalls w)
                Hc Hwf)
      as (results & calls' & Hquery & Hlen & _ & Hnd & Hres); [congruence|].
    rewrite Hquery in Ex. injection Ex as <- _.
    eexists. split; [reflexivity|]. cbn.
    split; [exact Hcount|]. split; [reflexivity|].
    split; [now rewrite length_map|].
    split.
    { rewrite map_map. cbn. exact Hnd. }
    intros src Hin. apply in_map_iff in Hin as (rk & <- & Hin).
    destruct (Hres rk Hin) as (node & Hnode & Erk).
    assert (Hk : In (RankedNode.id rk) (JsMap.keys (GraphRAG.nodes g))).
    { apply ClassFacts.has_keys. unfold JsMap.has. now rewrite Hnode. }
    rewrite Hkeys in Hk. apply in_map_iff in Hk as (i & Ei & Hi).
    apply in_seq in Hi.
    destruct (nth_error rows i) as [row|] eqn:Erow;
      [|apply nth_error_None in Erow; lia].
    exists i, row. split; [exact Erow|]. split; [now symmetry|].
    assert (Hn : node = ClassSpec.nodeOf (map GraphTool.toEmbedding rows) i
                          (GraphTool.toChunk row)).
    { rewrite <- Ei in Hnode.
      rewrite (Hget i (GraphTool.toChunk row)) in Hnode.
      - now injection Hnode as <-.
      - now rewrite nth_error_map, Erow. }
    rewrite Erk, Hn. cbn. auto.
Qed.

Lemma graph_execute_build_witness :
  exists out w',
    GraphTool.execute Sample.builtins (Sample.graphHost Sample.t1 Sample.rows)
                      Sample.graphContext Sample.emptyWorld = (Ok out, w')
    /\ GraphTool.GraphStats.nodeCount (GraphTool.Output.graphStats out) = 2%nat
    /\ NoDup (map GraphTool.Source.id (GraphTool.Output.sources out)).
Proof.
  destruct (graph_execute_build Sample.builtins
              (Sample.graphHost Sample.t1 Sample.rows) Sample.graphContext
              Sample.emptyWorld "postgres://localhost/yt"
              (Sample.vector1536 0.1%float) Sample.rows
              eq_refl ltac:(discriminate) eq_refl eq_refl eq_refl
              ltac:(discriminate))
    as (g & r & w' & _ & _ & Ex & _ & _ & H).
  - intros r [<- | [<- | []]]; eexists; split; reflexivity.
  - destruct (H eq_refl) as (out & -> & Hn & _ & _ & Hnd & _).
    exists out, w'. split; [exact Ex|]. split; [exact Hn | exact Hnd].
Defined.

(** X15.  After [clearGraphCache()], and after [clearGraphCache(indexName)]
    for the index of the request, the key of the request has no entry, so
    the next call of the tool for that index goes to the store and reports
    [cacheHit = false] whenever it returns. *)
Theorem clearGraphCache_forces_rebuild :
  forall (B : Builtins) (h : GraphTool.Host.t) (c : GraphTool.Context.t)
         (w : GraphTool.World.t) (arg : option string),
    arg = None \/ arg = Some (GraphTool.Context.indexName c) ->
    let cleared :=
      {| GraphTool.World.graphCache :=
           GraphTool.clearGraphCache arg (GraphTool.World.graphCache w);
         GraphTool.World.allocations := GraphTool.World.allocations w;
         GraphTool.World.randomCalls := GraphTool.World.randomCalls w |} in
    JsMap.get (GraphTool.cacheKey B (GraphTool.Context.indexName c)
                                  (GraphTool.Context.threshold c))
              (GraphTool.World.graphCache cleared) = None
    /\ (forall queryEmbedding,
          GraphTool.acquire B h c queryEmbedding cleared
          = GraphTool.build B h c queryEmbedding cleared)
    /\ (forall out w',
          GraphTool.execute B h c cleared = (Ok out, w') ->
          GraphTool.GraphStats.cacheHit (GraphTool.Output.graphStats out) = false).
Proof.
  intros B h c w arg Harg cleared.
  assert (Hget : JsMap.get (GraphTool.cacheKey B (GraphTool.Context.indexName c)
                                               (GraphTool.Context.threshold c))
                           (GraphTool.World.graphCache cleared) = None)
    by (now apply ToolFacts.get_cleared).
  split; [exact Hget|]. split.
  - intros qe. apply CacheFacts.acquire_invalid. now rewrite Hget.
  - intros out w'. now apply ToolFacts.execute_miss.
Qed.

Lemma clearGraphCache_forces_rebuild_witness :
  let B := Sample.builtins in
  let c := Sample.graphContext in
  let w1 := snd (GraphTool.execute B (Sample.graphHost Sample.t1 Sample.rows) c
                                   Sample.emptyWorld) in
  let cleared :=
    {| GraphTool.World.graphCache :=
         GraphTool.clearGraphCache (Some "yt_index") (GraphTool.World.graphCache w1);
       GraphTool.World.allocations := GraphTool.World.allocations w1;
       GraphTool.World.randomCalls := GraphTool.World.randomCalls w1 |} in
  GraphTool.acquire B (Sample.graphHost Sample.t2 Sample.rows) c
                    (Sample.vector1536 0.1%float) cleared
  = GraphTool.build B (Sample.graphHost Sample.t2 Sample.rows) c
                    (Sample.vector1536 0.1%float) cleared.
Proof.
  intros B c w1 cleared.
  destruct (clearGraphCache_forces_rebuild B (Sample.graphHost Sample.t2 Sample.rows)
              c w1 (Some "yt_index") (or_intror eq_refl)) as (_ & H & _).
  apply H.
Defined.

(* ================================================================== *)
(** * The hybrid tool: filters applied, filters dropped, and the scorer *)

Module ApplyFacts.
Import HybridTool HybridSpec.
Local Open Scope nat_scope.




(** What [execute] has done when it returns. *)
Lemma execute_ok (B : Builtins) (h : Host.t) (c : Context.t) (out : Output.t) :
  execute B h c = Ok out ->
  exists embedding filterConditions appliedFilters results scoredResults,
    Host.embed h (Context.queryText c) = Ok embedding
    /\ HybridTool.filterConditions B (Context.filter c)
       = Ok (filterConditions, appliedFilters)
    /\ Host.pgVector_query h (storeQuery c embedding filterConditions) = Ok results
    /\ JsArray.mapM (scoreResult B h c) (indexed results) = Ok scoredResults
    /\ Output.sources out
       = map (toSource c) (rank (Context.topK c) scoredResults)
    /\ QueryMetadata.filtersApplied (Output.queryMetadata out) = appliedFilters.
Proof.
  unfold execute.
  destruct (Host.POSTGRES_CONNECTION_STRING h) as [[|ch cs]|]; try discriminate.
  intros H.
  apply bind_ok in H as (embedding & He & H).
  apply bind_ok in H as ([fc applied] & Hf & H).
  apply bind_ok in H as (results & Hq & H).
  apply bind_ok in H as (scored & Hs & H).
  injection H as <-. exists embedding, fc, applied, results, scored.
  repeat split; auto.
Qed.
End ApplyFacts.



(** ** Filters of plain values *)

Module PlainFacts.
Import HybridTool HybridSpec.
Local Open Scope nat_scope.

Lemma processFilter_plain (B : Builtins)
    (recur : value -> nat -> result Compiled.t) :
  forall (props : list (string * value)) (acc : Acc.t),
    Forall plain props ->
    foldM (processFilter B recur) props acc
    = Ok {| Acc.conditions :=
              Acc.conditions acc ++ equalities (Acc.currentIndex acc) props;
            Acc.params :=
              Acc.params acc
              ++ map (fun kv => VStr (Coerce.String_ B (snd kv))) props;
            Acc.currentIndex := Acc.currentIndex acc + List.length props |}.
Proof.
  induction props as [|[key v] props IH]; intros acc H.
  - cbn. rewrite !app_nil_r, Nat.add_0_r. now destruct acc.
  - inversion H as [|e l (Hk & Hv) Hl]; subst. cbn [fst snd] in Hk, Hv. cbn [foldM].
    rewrite (FilterFacts.processFilter_field B recur key v acc Hk).
    assert (E : processField B key v acc
                = Ok (emit ("metadata->>'" ++ key ++ "' = "
                              ++ placeholder (Acc.currentIndex acc))
                           [VStr (Coerce.String_ B v)] 1 acc))
      by (destruct v; [reflexivity .. | contradiction]).
    rewrite E. cbn [bind]. rewrite (IH _ Hl). unfold emit.
    cbn [Acc.conditions Acc.params Acc.currentIndex equalities map List.length snd].
    rewrite <- !app_assoc, Nat.add_1_r. cbn [app].
    do 2 f_equal. lia.
Qed.
End PlainFacts.

(** X17.  A filter object whose values are all plain (no object as value,
    no logical operator as key) compiles, without throwing, to the
    conjunction of one equality per field, in the order of the fields, with
    placeholders numbered from [paramIndex]; every parameter is the value
    converted to a string ([String(value)]), whatever its type. *)
Theorem buildFilterQuery_plain_values :
  forall (B : Builtins) (props : list (string * value)) (paramIndex : nat),
    Forall HybridSpec.plain props ->
    HybridTool.buildFilterQuery B (VObj props) paramIndex
    = Ok {| HybridTool.Compiled.query :=
              String.concat " AND " (HybridSpec.equalities paramIndex props);
            HybridTool.Compiled.params :=
              map (fun kv => VStr (Coerce.String_ B (snd kv))) props;
            HybridTool.Compiled.nextIndex := (paramIndex + List.length props)%nat |}.
Proof.
  intros B props paramIndex H. cbn [HybridTool.buildFilterQuery].
  rewrite (PlainFacts.processFilter_plain B (HybridTool.buildFilterQuery B) props
             (HybridTool.start paramIndex) H).
  reflexivity.
Qed.

Lemma buildFilterQuery_plain_values_witness :
  HybridTool.buildFilterQuery Sample.builtins
    (VObj [("channelId", VStr "UC1"); ("tags", VArr [VStr "ai"; VStr "ml"])]) 1
  = Ok {| HybridTool.Compiled.query :=
            "metadata->>'channelId' = $1 AND metadata->>'tags' = $2";
          HybridTool.Compiled.params := [VStr "UC1"; VStr "ai,ml"];
          HybridTool.Compiled.nextIndex := 3 |}.
Proof.
  apply (buildFilterQuery_plain_values Sample.builtins
           [("channelId", VStr "UC1"); ("tags", VArr [VStr "ai"; VStr "ml"])] 1).
  repeat constructor.
Defined.

(** ** The tag score *)

Module TagFacts.
Import HybridTool HybridSpec.
Local Open Scope nat_scope.








End TagFacts.



(** ** Ranges of the score components, and what the scorer needs *)

Module ScoreFacts.
Import HybridTool.
Local Open Scope float_scope.

Lemma max0_nonneg (x : float) :
  is_nan (F64.max 0 x) = true \/ (0 <=? F64.max 0 x) = true.
Proof.
  unfold F64.max. change (is_nan 0) with false. cbv [orb].
  destruct (is_nan x) eqn:Nx; [left; reflexivity|].
  destruct (0 <? x) eqn:L; [right; now apply F64Facts.ltb_leb|].
  destruct (x <? 0); [right; reflexivity|].
  change (is_zero 0 && get_sign 0) with false. cbv iota. right. reflexivity.
Qed.

Lemma min1_le (y : float) :
  is_nan (F64.min 1 y) = true \/ (F64.min 1 y <=? 1) = true.
Proof.
  unfold F64.min. change (is_nan 1) with false. cbv [orb].
  destruct (is_nan y) eqn:Ny; [left; reflexivity|].
  destruct (1 <? y) eqn:L; [right; reflexivity|].
  change (is_zero 1 && get_sign 1) with false.
  assert (E : (if y <? 1 then y else y) = y) by now destruct (y <? 1).
  cbv iota. rewrite E. right. apply F64Facts.ltb_false_leb; auto.
Qed.

Lemma mapM_all_ok {A B : Type} (f : A -> result B) :
  forall (l : list A) (bs : list B),
    JsArray.mapM f l = Ok bs ->
    forall a, In a l -> exists b, f a = Ok b.
Proof.
  induction l as [|a0 l IH]; cbn; intros bs H a Ha; [destruct Ha|].
  apply bind_ok in H as (b0 & Hb0 & H).
  apply bind_ok in H as (bs0 & Hbs0 & H).
  destruct Ha as [<- | Ha]; [eauto | now apply (IH bs0)].
Qed.

Lemma In_indexed_from {A : Type} (a : A) :
  forall (l : list A) (i : nat), In a l -> exists k, In (k, a) (indexed_from i l).
Proof.
  induction l as [|x l IH]; intros i H; [destruct H|]. cbn.
  destruct H as [-> | H]; [eauto|].
  destruct (IH (S i) H) as [k Hk]. eauto.
Qed.

Lemma lowerTag_strings (items : list value) (tags : list string) :
  JsArray.mapM lowerTag items = Ok tags ->
  Forall (fun t => exists s, t = VStr s) items.
Proof.
  intros H. apply Forall_forall. intros t Ht.
  destruct (mapM_all_ok lowerTag items tags H t Ht) as [s Hs].
  destruct t; cbn in Hs; try discriminate. eauto.
Qed.

(** What a candidate's metadata must be for [calculateHybridScore] to
    return. *)
Lemma calculateHybridScore_ok (B : Builtins) (now vectorScore : float)
    (metadata : value) (queryText : string) (weights : Weights float)
    (s : float) :
  calculateHybridScore B now vectorScore metadata queryText weights = Ok s ->
  metadata <> VUndefined /\ metadata <> VNull
  /\ (truthy (optField metadata "tags") = false
      \/ exists items, optField metadata "tags" = VArr items
                       /\ Forall (fun t => exists s, t = VStr s) items).
Proof.
  unfold calculateHybridScore. intros H.
  apply bind_ok in H as (f & Hf & H).
  apply bind_ok in H as (p & Hp & H).
  apply bind_ok in H as (t & Ht & _).
  split; [intros ->; discriminate|]. split; [intros ->; discriminate|].
  unfold tagScore in Ht. apply bind_ok in Ht as (tags & Htags & Ht).
  apply bind_ok in Ht as (lowered & Hl & _).
  assert (E : tags = optField metadata "tags")
    by (destruct metadata; cbn in Htags; try discriminate; now injection Htags).
  subst tags. unfold orElse in Hl.
  destruct (truthy (optField metadata "tags")) eqn:Tr; [right | now left].
  destruct (optField metadata "tags") as [| | | | |items|]; try discriminate.
  exists items. split; [reflexivity|]. now apply lowerTag_strings with lowered.
Qed.
End ScoreFacts.

(** X19.  Ranges of two components of the hybrid score.  The freshness a
    candidate gets is NaN or at least 0, and it is above 1 for a candidate
    published in the future (here thirty days ahead): the formula has a
    floor and no ceiling.  The popularity is NaN or at most 1; it is 0 when
    [viewCount] is missing or falsy, and when it is a number that is not
    above 0. *)
Theorem score_component_ranges :
  forall (B : Builtins) (now : float) (metadata : value),
    (forall f, HybridTool.freshnessScore B now metadata = Ok f ->
               is_nan f = true \/ PrimFloat.leb 0 f = true)
    /\ PrimFloat.ltb 1
         (HybridTool.freshness
            (HybridTool.daysSince 1700000000000
               (1700000000000 + 30 * HybridTool.MS_PER_DAY))) = true
    /\ (forall p, HybridTool.popularityScore B metadata = Ok p ->
                  is_nan p = true \/ PrimFloat.leb p 1 = true)
    /\ (forall props,
          metadata = VObj props ->
          truthy (lookup "viewCount" props) = false ->
          HybridTool.popularityScore B metadata = Ok 0%float)
    /\ (forall props n,
          metadata = VObj props ->
          lookup "viewCount" props = VNum n ->
          PrimFloat.ltb 0 n = false ->
          HybridTool.popularityScore B metadata = Ok 0%float).
Proof.
  intros B now metadata. split; [|split; [|split; [|split]]].
  - intros f H. unfold HybridTool.freshnessScore in H.
    apply bind_ok in H as (publishedAt & _ & H). injection H as <-.
    apply ScoreFacts.max0_nonneg.
  - reflexivity.
  - intros p H. unfold HybridTool.popularityScore in H.
    apply bind_ok in H as (viewCount & _ & H).
    destruct (PrimFloat.ltb 0 _); injection H as <-;
      [apply ScoreFacts.min1_le | right; reflexivity].
  - intros props -> H. unfold HybridTool.popularityScore.
    cbn [field optField bind]. unfold orElse. rewrite H. reflexivity.
  - intros props n -> H L. unfold HybridTool.popularityScore.
    cbn [field optField bind]. rewrite H. unfold orElse.
    destruct (truthy (VNum n)); cbn [Coerce.toNumber]; [now rewrite L | reflexivity].
Qed.

Lemma score_component_ranges_witness :
  HybridTool.popularityScore Sample.builtins (VObj [("title", VStr "intro")])
  = Ok 0%float
  /\ HybridTool.popularityScore Sample.builtins
       (VObj [("viewCount", VNum (-5)%float)]) = Ok 0%float.
Proof.
  split.
  - destruct (score_component_ranges Sample.builtins 0%float
                (VObj [("title", VStr "intro")])) as (_ & _ & _ & H & _).
    apply (H [("title", VStr "intro")] eq_refl eq_refl).
  - destruct (score_component_ranges Sample.builtins 0%float
                (VObj [("viewCount", VNum (-5)%float)])) as (_ & _ & _ & _ & H).
    apply (H [("viewCount", VNum (-5)%float)] (-5)%float eq_refl eq_refl eq_refl).
Defined.

(** X20.  What a returned search implies about the candidates.  Without a
    connection string the tool throws before anything else.  When it
    returns, every candidate the store returned had metadata other than
    [null] and [undefined], and [tags] that are falsy or an array of
    strings: one candidate without metadata, or with tags of another kind,
    makes the whole search throw. *)
Theorem hybrid_execute_needs_metadata :
  forall (B : Builtins) (h : HybridTool.Host.t) (c : HybridTool.Context.t),
    (HybridTool.Host.POSTGRES_CONNECTION_STRING h = None
     \/ HybridTool.Host.POSTGRES_CONNECTION_STRING h = Some "" ->
     HybridTool.execute B h c
     = Throw (Error "POSTGRES_CONNECTION_STRING is not set"))
    /\ (forall out,
          HybridTool.execute B h c = Ok out ->
          exists embedding filterConditions appliedFilters results,
            HybridTool.Host.embed h (HybridTool.Context.queryText c) = Ok embedding
            /\ HybridTool.filterConditions B (HybridTool.Context.filter c)
               = Ok (filterConditions, appliedFilters)
            /\ HybridTool.Host.pgVector_query h
                 (HybridTool.storeQuery c embedding filterConditions) = Ok results
            /\ forall r, In r results ->
                 QueryResult.metadata r <> VUndefined
                 /\ QueryResult.metadata r <> VNull
                 /\ (truthy (optField (QueryResult.metadata r) "tags") = false
                     \/ exists items,
                          optField (QueryResult.metadata r) "tags" = VArr items
                          /\ Forall (fun t => exists s, t = VStr s) items)).
Proof.
  intros B h c. split.
  - unfold HybridTool.execute. intros [-> | ->]; reflexivity.
  - intros out H.
    apply ApplyFacts.execute_ok in H
      as (embedding & fc & applied & results & scored & He & Hf & Hq & Hs & _).
    exists embedding, fc, applied, results.
    split; [exact He|]. split; [exact Hf|]. split; [exact Hq|].
    intros r Hr.
    destruct (ScoreFacts.In_indexed_from r results 0 Hr) as [k Hk].
    destruct (ScoreFacts.mapM_all_ok _ _ _ Hs (k, r) Hk) as [sc Hsc].
    unfold HybridTool.scoreResult in Hsc.
    apply bind_ok in Hsc as (hs & Hcalc & _).
    now apply ScoreFacts.calculateHybridScore_ok in Hcalc.
Qed.

Lemma hybrid_execute_needs_metadata_witness :
  HybridTool.execute Sample.builtins
    {| HybridTool.Host.POSTGRES_CONNECTION_STRING := Some "";
       HybridTool.Host.embed := fun _ => Ok [0.1%float];
       HybridTool.Host.pgVector_query := fun _ => Ok [];
       HybridTool.Host.new_Date := fun _ => 0%float |}
    Sample.hybridContext
  = Throw (Error "POSTGRES_CONNECTION_STRING is not set").
Proof.
  destruct (hybrid_execute_needs_metadata Sample.builtins
              {| HybridTool.Host.POSTGRES_CONNECTION_STRING := Some "";
                 HybridTool.Host.embed := fun _ => Ok [0.1%float];
                 HybridTool.Host.pgVector_query := fun _ => Ok [];
                 HybridTool.Host.new_Date := fun _ => 0%float |}
              Sample.hybridContext) as [H _].
  apply H. right. reflexivity.
Defined.

(** ** The query text of a compiled filter *)

Module ShapeFacts.
Import HybridTool HybridSpec.
Local Open Scope nat_scope.

(** Two states of the compiler with the same conditions and index. *)
Definition accEq (acc acc' : Acc.t) : Prop :=
  Acc.conditions acc = Acc.conditions acc'
  /\ Acc.currentIndex acc = Acc.currentIndex acc'.

Lemma sameShape_obj (props props' : list (string * value)) :
  sameShape (VObj props) (VObj props') = all2 sameEntry props props'.
Proof. reflexivity. Qed.

Lemma placeholders_length (i : nat) :
  forall (items items' : list value) (j : nat),
    List.length items = List.length items' ->
    map (fun '(k, _) => placeholder (i + k)) (indexed_from j items)
    = map (fun '(k, _) => placeholder (i + k)) (indexed_from j items').
Proof.
  induction items as [|x items IH]; intros [|x' items'] j H;
    try discriminate; [reflexivity|].
  cbn. f_equal. apply IH. now injection H.
Qed.

Ltac emitted H H' :=
  injection H as <-; injection H' as <-;
  split; cbn [emit Acc.conditions Acc.currentIndex]; congruence.

Lemma processOperator_shape (B : Builtins) (key : string)
    (entry entry' : string * value) (acc acc' a a' : Acc.t) :
  sameOperand entry entry' -> accEq acc acc' ->
  processOperator B key acc entry = Ok a ->
  processOperator B key acc' entry' = Ok a' ->
  accEq a a'.
Proof.
  destruct entry as [op val], entry' as [op' val'].
  intros [Eop Hs] [Hc Hi] H H'. cbn [fst snd] in Eop, Hs. subst op'.
  unfold processOperator in H, H'. rewrite <- Hi in H'.
  destruct (String.eqb op "$eq"); [emitted H H'|].
  destruct (String.eqb op "$ne"); [emitted H H'|].
  destruct (String.eqb op "$gt"); [emitted H H'|].
  destruct (String.eqb op "$gte"); [emitted H H'|].
  destruct (String.eqb op "$lt"); [emitted H H'|].
  destruct (String.eqb op "$lte"); [emitted H H'|].
  destruct (String.eqb op "$in").
  { destruct val as [| | | | |items|]; try contradiction.
    destruct val' as [| | | | |items'|]; try contradiction.
    unfold indexed in H, H'.
    rewrite (placeholders_length _ items items' 0 Hs) in H.
    injection H as <-; injection H' as <-.
    split; cbn [emit Acc.conditions Acc.currentIndex]; congruence. }
  destruct (String.eqb op "$between").
  { apply bind_ok in H as (lower & _ & H). apply bind_ok in H as (upper & _ & H).
    apply bind_ok in H' as (lower' & _ & H').
    apply bind_ok in H' as (upper' & _ & H').
    emitted H H'. }
  destruct (String.eqb op "$contains"); [emitted H H'|].
  destruct (String.eqb op "$startsWith"); [emitted H H'|].
  destruct (String.eqb op "$endsWith"); [emitted H H'|].
  injection H as <-; injection H' as <-. now split.
Qed.

Lemma operators_shape (B : Builtins) (key : string) :
  forall (ops ops' : list (string * value)) (acc acc' a a' : Acc.t),
    all2 sameOperand ops ops' -> accEq acc acc' ->
    foldM (processOperator B key) ops acc = Ok a ->
    foldM (processOperator B key) ops' acc' = Ok a' ->
    accEq a a'.
Proof.
  induction ops as [|e ops IH]; intros [|e' ops'] acc acc' a a' Hs He H H';
    try contradiction.
  - cbn in H, H'. injection H as <-. now injection H' as <-.
  - destruct Hs as [Hs Hrest]. cbn [foldM] in H, H'.
    apply bind_ok in H as (a1 & H1 & H). apply bind_ok in H' as (a1' & H1' & H').
    apply (IH ops' a1 a1' a a' Hrest); auto.
    now apply (processOperator_shape B key e e' acc acc').
Qed.

Lemma processField_shape (B : Builtins) (key : string) (v v' : value)
    (acc acc' a a' : Acc.t) :
  sameField v v' -> accEq acc acc' ->
  processField B key v acc = Ok a ->
  processField B key v' acc' = Ok a' ->
  accEq a a'.
Proof.
  intros Hs [Hc Hi] H H'.
  destruct v as [| | | | | |ops]; destruct v' as [| | | | | |ops'];
    try contradiction;
    try (cbn [processField] in H, H'; rewrite <- Hi in H'; emitted H H').
  cbn [processField] in H, H'.
  now apply (operators_shape B key ops ops' acc acc').
Qed.

(** The property proved by induction on the filter. *)
Definition sameQuery (B : Builtins) (filter : value) : Prop :=
  forall filter' paramIndex r r',
    sameShape filter filter' ->
    buildFilterQuery B filter paramIndex = Ok r ->
    buildFilterQuery B filter' paramIndex = Ok r' ->
    Compiled.query r = Compiled.query r'
    /\ Compiled.nextIndex r = Compiled.nextIndex r'.

Lemma compileSub_shape (B : Builtins) :
  forall (items items' : list value)
         (subs subs' : list string) (acc acc' : Acc.t)
         (st st' : list string * Acc.t),
    Forall (sameQuery B) items ->
    all2 sameShape items items' ->
    subs = subs' -> accEq acc acc' ->
    foldM (compileSub (buildFilterQuery B)) items (subs, acc) = Ok st ->
    foldM (compileSub (buildFilterQuery B)) items' (subs', acc') = Ok st' ->
    fst st = fst st' /\ accEq (snd st) (snd st').
Proof.
  induction items as [|x items IH];
    intros [|x' items'] subs subs' acc acc' st st' HQ Hs Esubs Hacc H H';
    try contradiction.
  - cbn in H, H'. injection H as <-. injection H' as <-. auto.
  - destruct Hs as [Hx Hrest]. inversion HQ as [|y l Qx Ql]; subst.
    cbn [foldM] in H, H'.
    apply bind_ok in H as ([subs1 acc1] & H1 & H).
    apply bind_ok in H' as ([subs1' acc1'] & H1' & H').
    unfold compileSub in H1, H1'.
    apply bind_ok in H1 as (r & Hr & H1).
    apply bind_ok in H1' as (r' & Hr' & H1').
    destruct Hacc as [Hc Hi]. rewrite <- Hi in Hr'.
    destruct (Qx x' (Acc.currentIndex acc) r r' Hx Hr Hr') as [Eq En].
    injection H1 as <- <-. injection H1' as <- <-.
    eapply IH; [exact Ql | exact Hrest | | | exact H | exact H'].
    + now rewrite Eq.
    + split; cbn; auto.
Qed.

Lemma processLogical_shape (B : Builtins) (connective : string)
    (items items' : list value) (acc acc' a a' : Acc.t) :
  Forall (sameQuery B) items ->
  all2 sameShape items items' -> accEq acc acc' ->
  processLogical (buildFilterQuery B) connective (VArr items) acc = Ok a ->
  processLogical (buildFilterQuery B) connective (VArr items') acc' = Ok a' ->
  accEq a a'.
Proof.
  intros HQ Hs Hacc H H'. cbn [processLogical] in H, H'.
  apply bind_ok in H as ([subs1 acc1] & H1 & H).
  apply bind_ok in H' as ([subs1' acc1'] & H1' & H').
  destruct (compileSub_shape B items items' [] [] acc acc' _ _ HQ Hs eq_refl Hacc
              H1 H1') as [Esubs [Ec Ei]].
  cbn [fst snd] in Esubs, Ec, Ei.
  injection H as <-. injection H' as <-. split; cbn; congruence.
Qed.

Lemma entries_shape (B : Builtins) :
  forall (props props' : list (string * value)) (acc acc' a a' : Acc.t),
    Forall (fun kv => sameQuery B (snd kv)
                      /\ match snd kv with
                         | VArr items => Forall (sameQuery B) items
                         | _ => True
                         end) props ->
    all2 sameEntry props props' -> accEq acc acc' ->
    foldM (processFilter B (buildFilterQuery B)) props acc = Ok a ->
    foldM (processFilter B (buildFilterQuery B)) props' acc' = Ok a' ->
    accEq a a'.
Proof.
  induction props as [|[key v] props IH];
    intros [|[key' v'] props'] acc acc' a a' HP Hs Hacc H H'; try contradiction.
  - cbn in H, H'. injection H as <-. now injection H' as <-.
  - destruct Hs as [[Ekey Hv] Hrest]. cbn [fst snd] in Ekey, Hv. subst key'.
    inversion HP as [|y l [Qv Qitems] Pl]; subst. cbn [snd] in Qv, Qitems.
    cbn [foldM] in H, H'.
    apply bind_ok in H as (a1 & H1 & H). apply bind_ok in H' as (a1' & H1' & H').
    apply (IH props' a1 a1' a a' Pl Hrest); auto.
    clear IH H H' Hrest Pl HP.
    unfold processFilter in H1, H1'.
    destruct (String.eqb key "$and") eqn:Eand.
    { cbn [orb] in Hv.
      destruct v as [| | | | |items|]; try contradiction.
      destruct v' as [| | | | |items'|]; try contradiction.
      now apply (processLogical_shape B " AND " items items' acc acc'). }
    destruct (String.eqb key "$or") eqn:Eor.
    { cbn [orb] in Hv.
      destruct v as [| | | | |items|]; try contradiction.
      destruct v' as [| | | | |items'|]; try contradiction.
      now apply (processLogical_shape B " OR " items items' acc acc'). }
    cbn [orb] in Hv.
    destruct (String.eqb key "$not") eqn:Enot.
    { apply bind_ok in H1 as (r & Hr & H1).
      apply bind_ok in H1' as (r' & Hr' & H1').
      destruct Hacc as [Hc Hi]. rewrite <- Hi in Hr'.
      destruct (Qv v' (Acc.currentIndex acc) r r' Hv Hr Hr') as [Eq En].
      injection H1 as <-. injection H1' as <-. split; cbn; congruence. }
    now apply (processField_shape B key v v' acc acc').
Qed.

Lemma buildFilterQuery_shape (B : Builtins) (filter : value) :
  sameQuery B filter.
Proof.
  refine (proj1 (PlaceholderFacts.value_induction
                   (fun v => sameQuery B v
                             /\ match v with
                                | VArr items => Forall (sameQuery B) items
                                | _ => True
                                end) _ _ _ _ _ _ _ filter)).
  1-5: split; [intros filter' i r r' H; destruct H | exact I].
  - intros items HP. split; [intros filter' i r r' H; destruct H|].
    apply Forall_forall. intros x Hx. rewrite Forall_forall in HP.
    now destruct (HP x Hx).
  - intros props HP. split; [|exact I].
    intros filter' i r r' Hs H H'.
    destruct filter' as [| | | | | |props']; try contradiction.
    rewrite sameShape_obj in Hs.
    cbn [buildFilterQuery] in H, H'.
    apply bind_ok in H as (a & Ha & H). apply bind_ok in H' as (a' & Ha' & H').
    destruct (entries_shape B props props' (start i) (start i) a a' HP Hs
                (conj eq_refl eq_refl) Ha Ha') as [Ec Ei].
    injection H as <-. injection H' as <-. unfold finish. cbn. split; congruence.
Qed.
End ShapeFacts.

(** X21.  The query text [buildFilterQuery] compiles, and the index it
    hands back, depend on the shape of the filter only: two filter objects
    with the same keys and operators in the same order (and, under [$in],
    arrays of the same length) compile to the same text with the same number
    of parameters, whatever their operand values.  Operand values reach the
    result through [params] alone. *)
Theorem buildFilterQuery_text_from_shape :
  forall (B : Builtins) (filter filter' : value) (paramIndex : nat)
         (r r' : HybridTool.Compiled.t),
    HybridSpec.sameShape filter filter' ->
    HybridTool.buildFilterQuery B filter paramIndex = Ok r ->
    HybridTool.buildFilterQuery B filter' paramIndex = Ok r' ->
    HybridTool.Compiled.query r = HybridTool.Compiled.query r'
    /\ HybridTool.Compiled.nextIndex r = HybridTool.Compiled.nextIndex r'
    /\ List.length (HybridTool.Compiled.params r)
       = List.length (HybridTool.Compiled.params r').
Proof.
  intros B filter filter' paramIndex r r' Hs H H'.
  destruct (ShapeFacts.buildFilterQuery_shape B filter filter' paramIndex r r'
              Hs H H') as [Eq En].
  split; [exact Eq|]. split; [exact En|].
  pose proof (proj1 (PlaceholderFacts.buildFilterQuery_numbered B filter)
                paramIndex r H) as N.
  pose proof (proj1 (PlaceholderFacts.buildFilterQuery_numbered B filter')
                paramIndex r' H') as N'.
  rewrite En, N' in N. lia.
Qed.

Lemma buildFilterQuery_text_from_shape_witness :
  exists r r',
    HybridTool.buildFilterQuery Sample.builtins
      (VObj [("$and", VArr [VObj [("viewCount", VObj [("$gte", VNum 1000%float)])];
                            VObj [("tags", VObj [("$in", VArr [VStr "a"; VStr "b"])])]])])
      1 = Ok r
    /\ HybridTool.buildFilterQuery Sample.builtins
         (VObj [("$and", VArr [VObj [("viewCount", VObj [("$gte", VStr "1 OR 1=1")])];
                               VObj [("tags", VObj [("$in", VArr [VNull; VNum 3%float])])]])])
         1 = Ok r'
    /\ HybridTool.Compiled.query r = HybridTool.Compiled.query r'
    /\ HybridTool.Compiled.query r
       = "((CAST(metadata->>'viewCount' AS NUMERIC) >= $1) AND (metadata->>'tags' IN ($2, $3)))".
Proof.
  eexists. eexists. split; [reflexivity|]. split; [reflexivity|].
  split; [|reflexivity].
  refine (proj1 (buildFilterQuery_text_from_shape Sample.builtins
                   (VObj [("$and", VArr [VObj [("viewCount", VObj [("$gte", VNum 1000%float)])];
                                         VObj [("tags", VObj [("$in", VArr [VStr "a"; VStr "b"])])]])])
                   (VObj [("$and", VArr [VObj [("viewCount", VObj [("$gte", VStr "1 OR 1=1")])];
                                         VObj [("tags", VObj [("$in", VArr [VNull; VNum 3%float])])]])])
                   1 _ _ _ eq_refl eq_refl)).
  cbn. repeat split.
Defined.

(* ================================================================== *)
(** * The chapter chunker *)

Module ChunkFacts.
Import Chunker ChunkerSpec.
Local Open Scope nat_scope.

Lemma chunkChapter_spec (h : Host.t) (videoTitle : option string)
    (config : Config.t) (chunks chunks' : list Chunk.t) (total total' : nat)
    (chapterIndex : nat) (chapter : Chapter.t) :
  chunkChapter h videoTitle config (chunks, total) (chapterIndex, chapter)
  = Ok (chunks', total') ->
  exists additionalKeywords summary,
    extract h config chapterIndex chapter = Ok (additionalKeywords, summary)
    /\ chunks' = chunks ++ [chunkFor videoTitle chapterIndex chapter
                                     additionalKeywords summary]
    /\ total' = total + String.length (Chapter.transcript chapter).
Proof.
  unfold chunkChapter. intros H.
  apply bind_ok in H as ([kws summary] & He & H). injection H as <- <-.
  exists kws, summary. auto.
Qed.

(** The loop from chapter [k] on. *)
Lemma loop_spec (h : Host.t) (videoTitle : option string) (config : Config.t) :
  forall (chapters : list Chapter.t) (k : nat)
         (chunks chunks' : list Chunk.t) (total total' : nat),
    foldM (chunkChapter h videoTitle config) (indexed_from k chapters)
          (chunks, total) = Ok (chunks', total') ->
    exists new,
      chunks' = chunks ++ new
      /\ List.length new = List.length chapters
      /\ total' = total + totalLength chapters
      /\ forall i chapter,
           nth_error chapters i = Some chapter ->
           exists additionalKeywords summary,
             extract h config (k + i) chapter = Ok (additionalKeywords, summary)
             /\ nth_error new i
                = Some (chunkFor videoTitle (k + i) chapter
                                 additionalKeywords summary).
Proof.
  induction chapters as [|chapter chapters IH]; intros k chunks chunks' total total' H.
  - cbn in H. injection H as <- <-. exists []. rewrite app_nil_r. cbn.
    repeat split; auto. intros [|i] c; discriminate.
  - cbn [indexed_from foldM] in H.
    apply bind_ok in H as ([chunks1 total1] & H1 & H).
    apply chunkChapter_spec in H1 as (kws & summary & He & -> & ->).
    apply IH in H as (new & -> & Hlen & -> & Hnth).
    exists (chunkFor videoTitle k chapter kws summary :: new).
    split; [now rewrite <- app_assoc|]. split; [cbn; now rewrite Hlen|].
    split; [cbn [totalLength fold_right]; unfold totalLength; lia|].
    intros [|i] c Hc.
    + cbn in Hc. injection Hc as <-. rewrite Nat.add_0_r. exists kws, summary. auto.
    + cbn in Hc. destruct (Hnth i c Hc) as (kws' & summary' & He' & Hn').
      exists kws', summary'. replace (k + S i) with (S k + i) by lia. auto.
Qed.

(** What [execute] has done when it returns. *)
Lemma chunker_execute_ok (h : Host.t) (c : Context.t) (out : Output.t) :
  execute h c = Ok out ->
  exists config,
    Host.chunkingConfigSchema_parse h
      (match Context.config c with VUndefined => VObj [] | config => config end)
    = Ok config
    /\ List.length (Output.chunks out) = List.length (Context.chapters c)
    /\ Output.stats out
       = {| Stats.totalChapters := List.length (Context.chapters c);
            Stats.totalChunks := List.length (Context.chapters c);
            Stats.chaptersChunked := 0;
            Stats.averageChunkSize :=
              Host.Math_round h
                (PrimFloat.div
                   (Coerce.ofNat (totalLength (Context.chapters c)))
                   (Coerce.ofNat (List.length (Context.chapters c)))) |}
    /\ forall i chapter,
         nth_error (Context.chapters c) i = Some chapter ->
         exists additionalKeywords summary,
           extract h config i chapter = Ok (additionalKeywords, summary)
           /\ nth_error (Output.chunks out) i
              = Some (chunkFor (Context.videoTitle c) i chapter
                               additionalKeywords summary).
Proof.
  unfold execute. intros H.
  apply bind_ok in H as (config & Hp & H).
  apply bind_ok in H as ([chunks total] & Hl & H). injection H as <-.
  unfold indexed in Hl. apply loop_spec in Hl as (new & -> & Hlen & -> & Hnth).
  cbn [app Output.chunks Output.stats Nat.add] in *.
  exists config. split; [exact Hp|]. split; [exact Hlen|].
  split; [now rewrite Hlen|]. exact Hnth.
Qed.


End ChunkFacts.





(** ** Keywords without repetition *)

Module UniqueFacts.
Import Chunker ChunkerSpec.
Local Open Scope nat_scope.

Lemma indexOf_bound (k : string) :
  forall arr j, indexOf k arr = Some j -> j < List.length arr.
Proof.
  induction arr as [|x arr IH]; intros j H; [discriminate|]. cbn in *.
  destruct (String.eqb x k); [injection H as <-; lia|].
  destruct (indexOf k arr) as [j'|]; [|discriminate].
  injection H as <-. specialize (IH j' eq_refl). lia.
Qed.

Lemma indexOf_seen (k : string) :
  forall pre, existsb (String.eqb k) pre = true ->
              forall l, exists j, indexOf k (pre ++ l) = Some j
                                  /\ j < List.length pre.
Proof.
  induction pre as [|x pre IH]; intros H l; [discriminate|]. cbn in *.
  rewrite (String.eqb_sym x k).
  destruct (String.eqb k x); [exists 0; split; [reflexivity | lia]|].
  destruct (IH H l) as (j & -> & Hj). exists (S j). split; [reflexivity | lia].
Qed.

Lemma indexOf_new (k : string) :
  forall pre, existsb (String.eqb k) pre = false ->
              forall l, indexOf k (pre ++ k :: l) = Some (List.length pre).
Proof.
  induction pre as [|x pre IH]; intros H l; cbn in *.
  - now rewrite String.eqb_refl.
  - rewrite (String.eqb_sym x k). apply orb_false_elim in H as [-> H].
    now rewrite (IH H l).
Qed.

(** The filter of [unique], from position [length pre] on. *)
Lemma unique_from :
  forall (l pre : list string),
    map snd
        (filter (fun '(i, k) =>
                   match indexOf k (pre ++ l) with
                   | Some j => j =? i
                   | None => false
                   end)
                (indexed_from (List.length pre) l))
    = firsts pre l.
Proof.
  induction l as [|x l IH]; intros pre; [reflexivity|].
  cbn [indexed_from filter firsts].
  specialize (IH (pre ++ [x])). rewrite <- app_assoc in IH. cbn [app] in IH.
  rewrite length_app in IH. cbn [List.length] in IH.
  rewrite Nat.add_1_r in IH.
  destruct (existsb (String.eqb x) pre) eqn:E.
  - destruct (indexOf_seen x pre E (x :: l)) as (j & -> & Hj).
    assert (N : (j =? List.length pre) = false) by (apply Nat.eqb_neq; lia).
    rewrite N. exact IH.
  - rewrite (indexOf_new x pre E l), Nat.eqb_refl. cbn [map snd]. now rewrite IH.
Qed.

Lemma unique_firsts (arr : list string) : unique arr = firsts [] arr.
Proof. unfold unique, indexed. exact (unique_from arr []). Qed.

Lemma existsb_eqb (k : string) (l : list string) :
  existsb (String.eqb k) l = true <-> In k l.
Proof.
  rewrite existsb_exists. split.
  - intros (x & Hx & E). apply String.eqb_eq in E. now subst.
  - intros H. exists k. split; [exact H | apply String.eqb_refl].
Qed.

Lemma In_firsts (k : string) :
  forall l seen, In k (firsts seen l) <-> In k l /\ ~ In k seen.
Proof.
  induction l as [|x l IH]; intros seen; cbn [firsts]; [cbn; tauto|].
  destruct (existsb (String.eqb x) seen) eqn:E.
  - apply existsb_eqb in E. rewrite IH. cbn [In]. rewrite in_app_iff. cbn [In].
    split.
    + intros [H N]. split; [tauto|]. intros Hs. apply N. now left.
    + intros [[<- | H] N]; [tauto|]. split; [exact H|]. intros [Hs | [<- | []]]; tauto.
  - assert (N : ~ In x seen).
    { intros H. apply existsb_eqb in H. congruence. }
    cbn [In]. rewrite IH, in_app_iff. cbn [In]. split.
    + intros [<- | [H Hn]]; [tauto|]. split; [tauto|]. intros Hs. apply Hn. now left.
    + intros [[<- | H] Hn]; [now left|].
      destruct (String.eqb_spec x k) as [->|Ne]; [now left|].
      right. split; [exact H|]. intros [Hs | [E' | []]]; tauto.
Qed.

Lemma NoDup_firsts :
  forall l seen, NoDup (firsts seen l).
Proof.
  induction l as [|x l IH]; intros seen; cbn [firsts]; [constructor|].
  destruct (existsb (String.eqb x) seen); [apply IH|].
  constructor; [|apply IH].
  rewrite In_firsts, in_app_iff. cbn [In]. tauto.
Qed.

Lemma firsts_app :
  forall a seen b, firsts seen (a ++ b) = firsts seen a ++ firsts (seen ++ a) b.
Proof.
  induction a as [|x a IH]; intros seen b; cbn [app firsts].
  - now rewrite app_nil_r.
  - rewrite IH, <- app_assoc. cbn [app].
    now destruct (existsb (String.eqb x) seen).
Qed.

(** On a list without repetition [firsts] keeps everything not seen. *)
Lemma firsts_NoDup :
  forall l seen, NoDup l -> (forall k, In k l -> ~ In k seen) ->
                 firsts seen l = l.
Proof.
  induction l as [|x l IH]; intros seen Hnd Hs; [reflexivity|]. cbn [firsts].
  inversion Hnd as [|y l' Hx Hl]; subst.
  destruct (existsb (String.eqb x) seen) eqn:E.
  - apply existsb_eqb in E. exfalso. apply (Hs x); [now left | exact E].
  - f_equal. apply IH; [exact Hl|].
    intros k Hk Hin. apply in_app_or in Hin as [Hin | [<- | []]]; [|contradiction].
    apply (Hs k); [now right | exact Hin].
Qed.
End UniqueFacts.

(** X24.  The duplicate filter on keywords keeps the first occurrence of
    each keyword: its result has no repetition, holds exactly the keywords
    of its input, in the order of their first occurrence, and filtering
    again changes nothing.  So in every chunk the chapter's own keywords
    come first, without repetition, followed by the extracted keywords that
    the chapter had not yet. *)
Theorem chunk_keywords_unique :
  (forall arr : list string,
      NoDup (Chunker.unique arr)
      /\ (forall k, In k (Chunker.unique arr) <-> In k arr)
      /\ Chunker.unique (Chunker.unique arr) = Chunker.unique arr
      /\ (NoDup arr -> Chunker.unique arr = arr))
  /\ (forall a b : list string,
        exists added,
          Chunker.unique (a ++ b) = Chunker.unique a ++ added
          /\ forall k, In k added <-> In k b /\ ~ In k a)
  /\ (forall (h : Chunker.Host.t) (c : Chunker.Context.t) (out : Chunker.Output.t)
             (i : nat) (chapter : Chunker.Chapter.t) (chunk : Chunker.Chunk.t),
        Chunker.execute h c = Ok out ->
        nth_error (Chunker.Context.chapters c) i = Some chapter ->
        nth_error (Chunker.Output.chunks out) i = Some chunk ->
        NoDup (Chunker.Chunk.keywords chunk)
        /\ (forall k, In k (Chunker.Chapter.keywords chapter) ->
                      In k (Chunker.Chunk.keywords chunk))
        /\ exists added,
             Chunker.Chunk.keywords chunk
             = Chunker.unique (Chunker.Chapter.keywords chapter) ++ added
             /\ forall k, In k added ->
                          ~ In k (Chunker.Chapter.keywords chapter)).
Proof.
  assert (U1 : forall arr, NoDup (Chunker.unique arr)).
  { intros arr. rewrite UniqueFacts.unique_firsts. apply UniqueFacts.NoDup_firsts. }
  assert (U2 : forall arr k, In k (Chunker.unique arr) <-> In k arr).
  { intros arr k. rewrite UniqueFacts.unique_firsts, UniqueFacts.In_firsts.
    cbn [In]. tauto. }
  assert (U3 : forall arr, NoDup arr -> Chunker.unique arr = arr).
  { intros arr H. rewrite UniqueFacts.unique_firsts.
    apply UniqueFacts.firsts_NoDup; [exact H | intros k _ []]. }
  assert (U4 : forall a b, exists added,
               Chunker.unique (a ++ b) = Chunker.unique a ++ added
               /\ forall k, In k added <-> In k b /\ ~ In k a).
  { intros a b. exists (ChunkerSpec.firsts a b).
    rewrite !UniqueFacts.unique_firsts, UniqueFacts.firsts_app. cbn [app].
    split; [reflexivity|]. intros k. apply UniqueFacts.In_firsts. }
  split; [|split].
  - intros arr. split; [apply U1|]. split; [apply U2|].
    split; [apply U3, U1 | apply U3].
  - exact U4.
  - intros h c out i chapter chunk Hex Hc Hk.
    apply ChunkFacts.chunker_execute_ok in Hex as (config & _ & _ & _ & Hnth).
    destruct (Hnth i chapter Hc) as (kws & summary & _ & Hn).
    rewrite Hn in Hk. injection Hk as <-. cbn [Chunker.Chunk.keywords ChunkerSpec.chunkFor].
    split; [apply U1|]. split.
    + intros k Hin. apply U2. apply in_or_app. now left.
    + destruct (U4 (Chunker.Chapter.keywords chapter) kws) as (added & E & Ha).
      exists added. split; [exact E|]. intros k Hin. now apply Ha.
Qed.

Lemma chunk_keywords_unique_witness :
  exists out chunk,
    Chunker.execute Sample.chunkerHost Sample.chunkerContext = Ok out
    /\ nth_error (Chunker.Output.chunks out) 1 = Some chunk
    /\ Chunker.Chunk.keywords chunk = ["rag"; "search"]
    /\ NoDup (Chunker.Chunk.keywords chunk).
Proof.
  eexists. eexists. split; [reflexivity|]. split; [reflexivity|].
  split; [reflexivity|].
  destruct chunk_keywords_unique as (_ & _ & H).
  exact (proj1 (H Sample.chunkerHost Sample.chunkerContext _ 1%nat _ _
                  eq_refl eq_refl eq_refl)).
Defined.

(** ** Slugs and chunk ids *)

Module SlugFacts.
Import Chunker ChunkerSpec.
Local Open Scope nat_scope.
Local Open Scope string_scope.


(** *** Prefixes and suffixes keep the shape *)

Lemma allChars_app (p : ascii -> bool) (a b : string) :
  allChars p (a ++ b) = allChars p a && allChars p b.
Proof.
  induction a as [|c a IH]; cbn; [reflexivity|]. now rewrite IH, andb_assoc.
Qed.











(** *** The first replacement *)








(** *** Reading the index back from an id *)

Lemma uint_no_dash (d : Decimal.uint) :
  allChars (fun c => negb (isDash c)) (NilEmpty.string_of_uint d) = true.
Proof. induction d; cbn; auto. Qed.

Lemma afterLastDash_id :
  forall slug digits,
    allChars (fun c => negb (isDash c)) digits = true ->
    afterLastDash (slug ++ "-" ++ digits) = digits.
Proof.
  induction slug as [|c slug IH]; intros digits H.
  - cbn. now rewrite H.
  - cbn [append afterLastDash]. rewrite allChars_app. cbn.
    rewrite andb_false_r. cbn. now apply IH.
Qed.

Lemma id_index (slug : string) (i : nat) :
  afterLastDash (slug ++ "-" ++ index_toString i) = index_toString i.
Proof. apply afterLastDash_id, uint_no_dash. Qed.
End SlugFacts.



(** X26.  The ids of the chunks of one run are pairwise distinct, also
    when chapters share a title or have titles with the same slug: the part
    of an id after its last dash is the chapter's index in decimal. *)
Theorem chunk_ids_distinct :
  forall (h : Chunker.Host.t) (c : Chunker.Context.t) (out : Chunker.Output.t),
    Chunker.execute h c = Ok out ->
    NoDup (map Chunker.Chunk.id (Chunker.Output.chunks out))
    /\ forall i chunk,
         nth_error (Chunker.Output.chunks out) i = Some chunk ->
         ChunkerSpec.afterLastDash (Chunker.Chunk.id chunk) = index_toString i.
Proof.
  intros h c out H.
  apply ChunkFacts.chunker_execute_ok in H as (config & _ & Hlen & _ & Hnth).
  assert (Hid : forall i chunk,
            nth_error (Chunker.Output.chunks out) i = Some chunk ->
            ChunkerSpec.afterLastDash (Chunker.Chunk.id chunk) = index_toString i).
  { intros i chunk Hi.
    destruct (nth_error (Chunker.Context.chapters c) i) as [chapter|] eqn:Ec.
    - destruct (Hnth i chapter Ec) as (kws & summary & _ & Hn).
      rewrite Hn in Hi. injection Hi as <-.
      cbn [Chunker.Chunk.id ChunkerSpec.chunkFor]. apply SlugFacts.id_index.
    - apply nth_error_None in Ec.
      assert (i < List.length (Chunker.Output.chunks out))%nat
        by (apply nth_error_Some; congruence).
      lia. }
  split; [|exact Hid].
  apply NoDup_nth_error. intros i j Hi E. rewrite length_map in Hi.
  rewrite !nth_error_map in E.
  destruct (nth_error (Chunker.Output.chunks out) i) as [ci|] eqn:Ei;
    [|apply nth_error_None in Ei; lia].
  destruct (nth_error (Chunker.Output.chunks out) j) as [cj|] eqn:Ej;
    [|discriminate].
  cbn in E. injection E as E.
  apply index_toString_inj.
  rewrite <- (Hid i ci Ei), <- (Hid j cj Ej). now rewrite E.
Qed.

Lemma chunk_ids_distinct_witness :
  exists out,
    Chunker.execute Sample.chunkerHost Sample.chunkerContext = Ok out
    /\ NoDup (map Chunker.Chunk.id (Chunker.Output.chunks out)).
Proof.
  eexists. split; [reflexivity|].
  exact (proj1 (chunk_ids_distinct Sample.chunkerHost Sample.chunkerContext _ eq_refl)).
Defined.

(* ================================================================== *)
(** * The search presets *)

Module PresetFacts.
Import HybridTool PresetSpec.
Local Open Scope nat_scope.

(** A search whose filter compiles to a query that is not empty. *)
Lemma execute_searched (B : Builtins) (h : Host.t) (c : Context.t)
    (out : Output.t) (keys : list string) :
  truthy (Context.filter c) = true ->
  Object_keys (Context.filter c) = keys ->
  filterConditions B (Context.filter c) = Ok (Context.filter c, List.length keys) ->
  execute B h c = Ok out ->
  searched h (Context.queryText c) (Context.indexName c) (Context.topK c)
           (Context.filter c) keys out.
Proof.
  intros Ht Hk Hf H.
  apply ApplyFacts.execute_ok in H
    as (embedding & fc & applied & results & scored & He & Hf' & Hq & Hs & Hsrc & Ha).
  rewrite Hf in Hf'. injection Hf' as <- <-.
  exists embedding, results. split; [exact He|]. split; [exact Hq|].
  split; [exact Ha|]. rewrite Hsrc. split.
  - rewrite length_map. apply RankFacts.rank_length.
  - intros s Hin. apply in_map_iff in Hin as (sc & <- & Hsc).
    unfold toSource. cbn [Source.matchedFilters Source.id].
    rewrite Ht, Hk. split; [reflexivity|].
    apply HybridFacts.rank_In in Hsc.
    destruct (HybridFacts.mapM_In _ _ _ Hs sc Hsc) as ([k r] & Hkr & Hscore).
    apply HybridFacts.indexed_from_In in Hkr.
    unfold scoreResult in Hscore.
    apply bind_ok in Hscore as (hs & _ & Hscore). injection Hscore as <-.
    exists r. split; [exact Hkr | reflexivity].
Qed.

(** The empty filter object compiles to the empty query. *)
Lemma filterConditions_empty (B : Builtins) :
  filterConditions B (VObj []) = Ok (VObj [], 0).
Proof. reflexivity. Qed.

Lemma orElse_truthy (x d : float) :
  F64.truthy d = true -> F64.truthy (F64.orElse x d) = true.
Proof. unfold F64.orElse. intros H. now destruct (F64.truthy x) eqn:E. Qed.

Lemma weightOr_truthy (w : option float) (d : float) :
  F64.truthy d = true -> F64.truthy (Presets.weightOr w d) = true.
Proof. destruct w; cbn; [apply orElse_truthy | auto]. Qed.

Lemma weightOr_falsy (w : option float) (d : float) :
  match w with Some w => F64.truthy w = false | None => True end ->
  Presets.weightOr w d = d.
Proof. destruct w; cbn; [|reflexivity]. unfold F64.orElse. now intros ->. Qed.
End PresetFacts.

(** X27.  The filters of the trending, viral and tag presets always reach
    the store: whenever one of these presets returns, the store was
    searched once, for twice [topK] candidates ([topK] is 10 unless given),
    with the preset's filter as written ([viewCount >= minViews], with
    [engagementRate >= minEngagementRate] for the viral preset, and
    [tags in tags], also for an empty list of tags); the filter's keys are
    counted and listed with every source, and at most [topK] sources come
    back.  The [days] option of the trending preset changes nothing. *)
Theorem preset_filters_reach_store :
  forall (B : Builtins) (h : HybridTool.Host.t) (query : string),
    (forall options out,
        Presets.searchTrendingVideos B h query options = Ok out ->
        PresetSpec.searched h query (Presets.TrendingOptions.indexName options)
          (Presets.withDefault (Presets.TrendingOptions.topK options) 10%nat)
          (VObj [("viewCount",
                  VObj [("$gte",
                         VNum (Presets.withDefault
                                 (Presets.TrendingOptions.minViews options)
                                 10000%float))])])
          ["viewCount"] out)
    /\ (forall options days,
          Presets.searchTrendingVideos B h query
            {| Presets.TrendingOptions.indexName :=
                 Presets.TrendingOptions.indexName options;
               Presets.TrendingOptions.topK := Presets.TrendingOptions.topK options;
               Presets.TrendingOptions.days := days;
               Presets.TrendingOptions.minViews :=
                 Presets.TrendingOptions.minViews options |}
          = Presets.searchTrendingVideos B h query options)
    /\ (forall options out,
          Presets.searchViralContent B h query options = Ok out ->
          PresetSpec.searched h query (Presets.ViralOptions.indexName options)
            (Presets.withDefault (Presets.ViralOptions.topK options) 10%nat)
            (VObj [("viewCount",
                    VObj [("$gte",
                           VNum (Presets.withDefault
                                   (Presets.ViralOptions.minViews options)
                                   100000%float))]);
                   ("engagementRate",
                    VObj [("$gte",
                           VNum (Presets.withDefault
                                   (Presets.ViralOptions.minEngagementRate options)
                                   10%float))])])
            ["viewCount"; "engagementRate"] out)
    /\ (forall options out,
          Presets.searchByTags B h query options = Ok out ->
          PresetSpec.searched h query (Presets.TagsOptions.indexName options)
            (Presets.withDefault (Presets.TagsOptions.topK options) 10%nat)
            (VObj [("tags",
                    VObj [("$in",
                           VArr (map VStr (Presets.TagsOptions.tags options)))])])
            ["tags"] out).
Proof.
  intros B h query. split; [|split; [|split]].
  - intros options out H.
    apply (PresetFacts.execute_searched B h (Presets.trendingContext query options)
             out ["viewCount"]); [reflexivity | reflexivity | reflexivity | exact H].
  - reflexivity.
  - intros options out H.
    apply (PresetFacts.execute_searched B h (Presets.viralContext query options)
             out ["viewCount"; "engagementRate"]);
      [reflexivity | reflexivity | reflexivity | exact H].
  - intros options out H.
    apply (PresetFacts.execute_searched B h (Presets.tagsContext query options)
             out ["tags"]); [reflexivity | reflexivity | reflexivity | exact H].
Qed.

Lemma preset_filters_reach_store_witness :
  exists out,
    Presets.searchTrendingVideos Sample.builtins Sample.hybridHost "graph search"
      Sample.trendingOptions = Ok out
    /\ PresetSpec.searched Sample.hybridHost "graph search" "yt_index" 3
         (VObj [("viewCount", VObj [("$gte", VNum 10000%float)])])
         ["viewCount"] out.
Proof.
  eexists. split; [reflexivity|].
  exact (proj1 (preset_filters_reach_store Sample.builtins Sample.hybridHost
                  "graph search")
               Sample.trendingOptions _ eq_refl).
Defined.

(** X28.  The custom preset never hands the scorer a weight that is 0 or
    NaN: a weight given as a number other than 0 and NaN is used as given,
    and every other one (left out, 0, NaN) is replaced by its default 0.6,
    0.2, 0.15 or 0.05, so a component of the score cannot be switched off
    through this preset; without [scoringWeights] the defaults are used.  With [filters] left out, or [{}], the search runs
    unfiltered: no filter is counted and every source lists no matched
    filter. *)
Theorem custom_preset_weights :
  forall (query : string) (options : Presets.CustomOptions.t),
    let c := Presets.customContext query options in
    (F64.truthy (w_vector (HybridTool.Context.scoringWeights c)) = true
     /\ F64.truthy (w_freshness (HybridTool.Context.scoringWeights c)) = true
     /\ F64.truthy (w_popularity (HybridTool.Context.scoringWeights c)) = true
     /\ F64.truthy (w_tags (HybridTool.Context.scoringWeights c)) = true)
    /\ (forall given,
          Presets.CustomOptions.scoringWeights options = Some given ->
          (forall x, Presets.PartialWeights.vector given = Some x ->
                     F64.truthy x = true ->
                     w_vector (HybridTool.Context.scoringWeights c) = x)
          /\ (forall x, Presets.PartialWeights.freshness given = Some x ->
                        F64.truthy x = true ->
                        w_freshness (HybridTool.Context.scoringWeights c) = x)
          /\ (forall x, Presets.PartialWeights.popularity given = Some x ->
                        F64.truthy x = true ->
                        w_popularity (HybridTool.Context.scoringWeights c) = x)
          /\ (forall x, Presets.PartialWeights.tags given = Some x ->
                        F64.truthy x = true ->
                        w_tags (HybridTool.Context.scoringWeights c) = x))
    /\ (forall given,
          Presets.CustomOptions.scoringWeights options = Some given ->
          (match Presets.PartialWeights.vector given with
           | Some x => F64.truthy x = false
           | None => True
           end -> w_vector (HybridTool.Context.scoringWeights c) = 0.6%float)
          /\ (match Presets.PartialWeights.freshness given with
              | Some x => F64.truthy x = false
              | None => True
              end -> w_freshness (HybridTool.Context.scoringWeights c) = 0.2%float)
          /\ (match Presets.PartialWeights.popularity given with
              | Some x => F64.truthy x = false
              | None => True
              end -> w_popularity (HybridTool.Context.scoringWeights c) = 0.15%float)
          /\ (match Presets.PartialWeights.tags given with
              | Some x => F64.truthy x = false
              | None => True
              end -> w_tags (HybridTool.Context.scoringWeights c) = 0.05%float))
    /\ (Presets.CustomOptions.scoringWeights options = None ->
        HybridTool.Context.scoringWeights c = HybridTool.defaultWeights)
    /\ (Presets.CustomOptions.filters options = VUndefined
        \/ Presets.CustomOptions.filters options = VObj [] ->
        forall (B : Builtins) (h : HybridTool.Host.t) (out : HybridTool.Output.t),
          Presets.searchWithCustomPreset B h query options = Ok out ->
          (exists embedding results,
              HybridTool.Host.embed h query = Ok embedding
              /\ HybridTool.Host.pgVector_query h
                   {| QueryArgs.indexName := Presets.CustomOptions.indexName options;
                      QueryArgs.queryVector := embedding;
                      QueryArgs.filter := VObj [];
                      QueryArgs.topK :=
                        (Presets.withDefault (Presets.CustomOptions.topK options)
                                             10 * 2)%nat;
                      QueryArgs.includeVector := false |} = Ok results)
          /\ HybridTool.QueryMetadata.filtersApplied
               (HybridTool.Output.queryMetadata out) = 0%nat
          /\ forall s, In s (HybridTool.Output.sources out) ->
               HybridTool.Source.matchedFilters s = Some []).
Proof.
  intros query options c. split; [|split; [|split; [|split]]].
  - subst c. unfold Presets.customContext, Presets.completeWeights.
    cbn [HybridTool.Context.scoringWeights w_vector w_freshness w_popularity w_tags].
    repeat split; apply PresetFacts.weightOr_truthy; reflexivity.
  - intros given Hg. subst c. unfold Presets.customContext, Presets.completeWeights.
    rewrite Hg.
    cbn [Presets.withDefault HybridTool.Context.scoringWeights
         w_vector w_freshness w_popularity w_tags].
    repeat split; intros x -> Hx; cbn [Presets.weightOr]; unfold F64.orElse;
      now rewrite Hx.
  - intros given Hg. subst c. unfold Presets.customContext, Presets.completeWeights.
    rewrite Hg.
    cbn [Presets.withDefault HybridTool.Context.scoringWeights
         w_vector w_freshness w_popularity w_tags].
    repeat split; apply PresetFacts.weightOr_falsy.
  - intros Hn. subst c. unfold Presets.customContext. now rewrite Hn.
  - intros Hfil B h out H. unfold Presets.searchWithCustomPreset in H.
    assert (Ec : HybridTool.Context.filter c = VObj []).
    { subst c. unfold Presets.customContext. cbn [HybridTool.Context.filter].
      destruct Hfil as [-> | ->]; reflexivity. }
    fold c in H.
    apply ApplyFacts.execute_ok in H
      as (embedding & fc & applied & results & scored & He & Hf & Hq & _ & Hsrc & Ha).
    rewrite Ec, PresetFacts.filterConditions_empty in Hf. injection Hf as <- <-.
    split; [|split].
    + exists embedding, results. split; [exact He | exact Hq].
    + exact Ha.
    + intros s Hin. rewrite Hsrc in Hin. apply in_map_iff in Hin as (sc & <- & _).
      unfold HybridTool.toSource. cbn [HybridTool.Source.matchedFilters].
      now rewrite Ec.
Qed.

Lemma custom_preset_weights_witness :
  HybridTool.Context.scoringWeights
    (Presets.customContext "graph search" Sample.customOptions)
  = {| w_vector := 1%float; w_freshness := 0.2%float;
       w_popularity := 0.15%float; w_tags := 0.05%float |}
  /\ exists out,
       Presets.searchWithCustomPreset Sample.builtins Sample.hybridHost
         "graph search" Sample.customOptions = Ok out
       /\ HybridTool.QueryMetadata.filtersApplied
            (HybridTool.Output.queryMetadata out) = 0%nat.
Proof.
  split; [reflexivity|].
  eexists. split; [reflexivity|].
  destruct (custom_preset_weights "graph search" Sample.customOptions)
    as (_ & _ & _ & _ & H).
  exact (proj1 (proj2 (H (or_introl eq_refl) Sample.builtins Sample.hybridHost
                         _ eq_refl))).
Defined.

(* ================================================================== *)
(** * The search step of the workflow *)

Module WorkflowFacts.
Import HybridTool Workflow WorkflowSpec.
Local Open Scope nat_scope.

Section Run.
Variable B : Builtins.
Variable host : nat -> Host.t.

(** What the planned search [p], made as call [k], adds to [allResults]. *)
Definition outcome (k : nat) (p : Strategy.t * string) : list SearchResult.t :=
  match execute B (host k) (searchContext (fst p) (snd p)) with
  | Ok searchResult =>
      [{| SearchResult.query := snd p;
          SearchResult.indexName := Strategy.indexName (fst p);
          SearchResult.results := Output.sources searchResult |}]
  | Throw _ => []
  end.

Fixpoint outcomes (k : nat) (plan : list (Strategy.t * string))
  : list SearchResult.t :=
  match plan with
  | [] => []
  | p :: plan' => outcome k p ++ outcomes (S k) plan'
  end.

Lemma outcomes_app :
  forall a b k, outcomes k (a ++ b) = outcomes k a ++ outcomes (k + List.length a) b.
Proof.
  induction a as [|p a IH]; intros b k; cbn.
  - now rewrite Nat.add_0_r.
  - rewrite IH, <- app_assoc. now replace (S k + List.length a) with (k + S (List.length a)) by lia.
Qed.

Lemma queries_fold (strategy : Strategy.t) :
  forall queries acc k,
    fold_left (search B host strategy) queries (acc, k)
    = (acc ++ outcomes k (map (pair strategy) queries), k + List.length queries).
Proof.
  induction queries as [|q queries IH]; intros acc k; cbn [fold_left map outcomes].
  - now rewrite app_nil_r, Nat.add_0_r.
  - unfold search at 2, outcome. cbn [fst snd List.length].
    destruct (execute B (host k) (searchContext strategy q)) as [out|e];
      rewrite IH; cbn [app]; rewrite ?app_nil_r, <- ?app_assoc;
      f_equal; lia.
Qed.

Lemma strategies_fold (availableIndexes : list string) :
  forall searchStrategies acc k,
    fold_left (searchStrategy B host availableIndexes) searchStrategies (acc, k)
    = (acc ++ outcomes k (planned searchStrategies availableIndexes),
       k + List.length (planned searchStrategies availableIndexes)).
Proof.
  induction searchStrategies as [|s rest IH]; intros acc k;
    cbn [fold_left planned flat_map].
  - cbn. now rewrite app_nil_r, Nat.add_0_r.
  - fold (planned rest availableIndexes). unfold searchStrategy at 2.
    destruct (existsb (String.eqb (Strategy.indexName s)) availableIndexes);
      cbn [negb].
    + rewrite queries_fold, IH, outcomes_app, length_app, <- app_assoc.
      rewrite !length_map. f_equal. lia.
    + cbn [app]. apply IH.
Qed.

Lemma executeSearches_outcomes (searchStrategies : list Strategy.t)
    (availableIndexes : list string) :
  executeSearches B host searchStrategies availableIndexes
  = outcomes 0 (planned searchStrategies availableIndexes).
Proof. unfold executeSearches. now rewrite strategies_fold. Qed.

Lemma outcomes_subseq :
  forall plan k, Subseq (map resultKey (outcomes k plan)) (map planKey plan).
Proof.
  induction plan as [|p plan IH]; intros k; cbn [outcomes map]; [constructor|].
  unfold outcome.
  destruct (execute B (host k) (searchContext (fst p) (snd p))); cbn [app map].
  - apply Subseq_keep, IH.
  - apply Subseq_skip, IH.
Qed.

Lemma outcomes_all_ok :
  forall plan k,
    (forall i p, In p plan ->
       exists out, execute B (host i) (searchContext (fst p) (snd p)) = Ok out) ->
    map resultKey (outcomes k plan) = map planKey plan.
Proof.
  induction plan as [|p plan IH]; intros k H; cbn [outcomes map]; [reflexivity|].
  unfold outcome. destruct (H k p (or_introl eq_refl)) as [out ->].
  cbn [app map]. f_equal. apply IH. intros i q Hq. apply H. now right.
Qed.

Lemma outcomes_all_fail :
  forall plan k,
    (forall i p, exists e, execute B (host i) (searchContext (fst p) (snd p)) = Throw e) ->
    outcomes k plan = [].
Proof.
  induction plan as [|p plan IH]; intros k H; cbn [outcomes]; [reflexivity|].
  unfold outcome. destruct (H k p) as [e ->]. cbn [app]. now apply IH.
Qed.

Lemma outcomes_In (r : SearchResult.t) :
  forall plan k,
    In r (outcomes k plan) ->
    exists i p out,
      In p plan
      /\ execute B (host i) (searchContext (fst p) (snd p)) = Ok out
      /\ r = {| SearchResult.query := snd p;
                SearchResult.indexName := Strategy.indexName (fst p);
                SearchResult.results := Output.sources out |}.
Proof.
  induction plan as [|p plan IH]; intros k H; cbn [outcomes] in H; [destruct H|].
  apply in_app_or in H as [H | H].
  - unfold outcome in H.
    destruct (execute B (host k) (searchContext (fst p) (snd p))) as [out|e] eqn:E;
      [|destruct H].
    destruct H as [<- | []]. exists k, p, out. split; [now left | auto].
  - destruct (IH (S k) H) as (i & q & out & Hq & He & Hr).
    exists i, q, out. split; [now right | auto].
Qed.
End Run.

Lemma planned_In (searchStrategies : list Strategy.t)
    (availableIndexes : list string) (p : Strategy.t * string) :
  In p (planned searchStrategies availableIndexes) ->
  In (fst p) searchStrategies
  /\ In (Strategy.indexName (fst p)) availableIndexes
  /\ In (snd p) (Strategy.queries (fst p)).
Proof.
  unfold planned. intros H. apply in_flat_map in H as (s & Hs & H).
  destruct (existsb (String.eqb (Strategy.indexName s)) availableIndexes) eqn:E;
    [|destruct H].
  apply in_map_iff in H as (q & <- & Hq). cbn [fst snd].
  split; [exact Hs|]. split; [|exact Hq].
  apply existsb_exists in E as (x & Hx & E). apply String.eqb_eq in E.
  now rewrite E.
Qed.

Lemma sources_length (B : Builtins) (h : Host.t) (c : Context.t) (out : Output.t) :
  execute B h c = Ok out -> List.length (Output.sources out) <= Context.topK c.
Proof.
  intros H.
  apply ApplyFacts.execute_ok in H as (? & ? & ? & ? & scored & _ & _ & _ & _ & -> & _).
  rewrite length_map. apply RankFacts.rank_length.
Qed.
End WorkflowFacts.

(** X29.  The search step never fails and returns its entries in the order
    of the plan: the entries are, with some possibly left out, the queries
    of the strategies whose index is among the available ones, in order.
    Every entry is a search that returned, on an available index, and
    holds at most 5 sources; a search that throws leaves no entry and does
    not stop the others.  When every planned search returns there is one
    entry per planned query; when the connection string is not set there
    is none, and no error either. *)
Theorem executeSearches_results :
  forall (B : Builtins) (host : nat -> HybridTool.Host.t)
         (searchStrategies : list Workflow.Strategy.t)
         (availableIndexes : list string),
    let allResults :=
      Workflow.executeSearches B host searchStrategies availableIndexes in
    let plan := WorkflowSpec.planned searchStrategies availableIndexes in
    WorkflowSpec.Subseq (map WorkflowSpec.resultKey allResults)
                        (map WorkflowSpec.planKey plan)
    /\ (forall r, In r allResults ->
          In (Workflow.SearchResult.indexName r) availableIndexes
          /\ (List.length (Workflow.SearchResult.results r) <= 5)%nat
          /\ exists strategy k out,
               In strategy searchStrategies
               /\ Workflow.Strategy.indexName strategy
                  = Workflow.SearchResult.indexName r
               /\ In (Workflow.SearchResult.query r)
                     (Workflow.Strategy.queries strategy)
               /\ HybridTool.execute B (host k)
                    (Workflow.searchContext strategy (Workflow.SearchResult.query r))
                  = Ok out
               /\ Workflow.SearchResult.results r = HybridTool.Output.sources out)
    /\ ((forall k p, In p plan ->
           exists out,
             HybridTool.execute B (host k)
               (Workflow.searchContext (fst p) (snd p)) = Ok out) ->
        map WorkflowSpec.resultKey allResults = map WorkflowSpec.planKey plan)
    /\ ((forall k,
           HybridTool.Host.POSTGRES_CONNECTION_STRING (host k) = None) ->
        allResults = []).
Proof.
  intros B host searchStrategies availableIndexes allResults plan.
  subst allResults plan. rewrite WorkflowFacts.executeSearches_outcomes.
  split; [apply WorkflowFacts.outcomes_subseq|]. split; [|split].
  - intros r Hr.
    apply WorkflowFacts.outcomes_In in Hr as (k & [s q] & out & Hp & He & ->).
    apply WorkflowFacts.planned_In in Hp as (Hs & Ha & Hq).
    cbn [fst snd Workflow.SearchResult.indexName Workflow.SearchResult.results
         Workflow.SearchResult.query] in *.
    split; [exact Ha|]. split.
    + apply (WorkflowFacts.sources_length B (host k) _ _ He).
    + exists s, k, out. auto.
  - apply WorkflowFacts.outcomes_all_ok.
  - intros H. apply WorkflowFacts.outcomes_all_fail. intros i p.
    unfold HybridTool.execute. rewrite H. eauto.
Qed.

Lemma executeSearches_results_witness :
  map WorkflowSpec.resultKey
      (Workflow.executeSearches Sample.builtins (fun _ => Sample.hybridHost)
         Sample.strategies ["yt_index"; "yt_other"])
  = [("what is rag", "yt_index"); ("graph search", "yt_index")].
Proof.
  destruct (executeSearches_results Sample.builtins (fun _ => Sample.hybridHost)
              Sample.strategies ["yt_index"; "yt_other"]) as (_ & _ & H & _).
  apply H. intros k p [<- | [<- | []]]; eexists; reflexivity.
Defined.

(* ================================================================== *)
(** * The index list *)

Module IndexListFacts.
Import IndexList IndexListSpec.
Local Open Scope nat_scope.
Local Open Scope string_scope.

Lemma replaceUnderscores_none (s : string) :
  noUnderscore (replaceUnderscores s) = true.
Proof.
  unfold noUnderscore. induction s as [|c s IH]; [reflexivity|].
  cbn [replaceUnderscores ChunkerSpec.allChars]. rewrite IH, andb_true_r.
  destruct (Ascii.eqb c "_"%char) eqn:E; [reflexivity | now rewrite E].
Qed.

Lemma replaceUnderscores_id (s : string) :
  noUnderscore s = true -> replaceUnderscores s = s.
Proof.
  unfold noUnderscore. induction s as [|c s IH]; [reflexivity|]. cbn.
  intros H. apply andb_true_iff in H as [Hc Hs]. apply negb_true_iff in Hc.
  now rewrite Hc, IH.
Qed.

Lemma replaceUnderscores_length (s : string) :
  String.length (replaceUnderscores s) = String.length s.
Proof. induction s as [|c s IH]; cbn; [reflexivity | now rewrite IH]. Qed.

Lemma dropPrefix_length :
  forall prefix s rest,
    dropPrefix prefix s = Some rest ->
    String.length s = String.length prefix + String.length rest.
Proof.
  induction prefix as [|a prefix IH]; intros s rest H.
  - cbn in H. now injection H as <-.
  - destruct s as [|b s]; [discriminate|]. cbn in *.
    destruct (Ascii.eqb a b); [|discriminate]. now rewrite (IH s rest H).
Qed.

Lemma removePrefix_length (prefix s : string) :
  String.length (removePrefix prefix s) <= String.length s.
Proof.
  unfold removePrefix. destruct (dropPrefix prefix s) as [rest|] eqn:E; [|lia].
  apply dropPrefix_length in E. lia.
Qed.

Lemma prefix_split :
  forall p s, String.prefix p s = true -> exists t, s = p ++ t.
Proof.
  induction p as [|a p IH]; intros s H; [now exists s|].
  destruct s as [|b s]; [discriminate|]. cbn in H.
  destruct (Ascii.ascii_dec a b) as [->|]; [|discriminate].
  destruct (IH s H) as [t ->]. now exists t.
Qed.

(** A string without underscore holds no word with an underscore. *)
Lemma includes_underscore (sub : string) :
  noUnderscore sub = false ->
  forall s, noUnderscore s = true -> JsString.includes s sub = false.
Proof.
  intros Hsub. unfold noUnderscore in *.
  assert (P : forall s, ChunkerSpec.allChars (fun c => negb (Ascii.eqb c "_"%char)) s = true ->
                        String.prefix sub s = false).
  { intros s Hs. destruct (String.prefix sub s) eqn:E; [|reflexivity].
    apply prefix_split in E as [t ->]. rewrite SlugFacts.allChars_app in Hs.
    apply andb_true_iff in Hs as [Hs _]. congruence. }
  induction s as [|c s IH]; intros Hs.
  - cbn [JsString.includes]. now rewrite (P "" Hs).
  - cbn [JsString.includes]. rewrite (P _ Hs). cbn in Hs.
    apply andb_true_iff in Hs as [_ Hs]. now rewrite (IH Hs).
Qed.

Lemma categoryOf_none (indexName : string) :
  noUnderscore (categoryOf indexName) = true.
Proof.
  unfold categoryOf.
  destruct (JsString.includes indexName "youtube_"); [apply replaceUnderscores_none|].
  destruct (JsString.includes indexName "yt_"); apply replaceUnderscores_none.
Qed.

Lemma categoryOf_length (indexName : string) :
  String.length (categoryOf indexName) <= String.length indexName.
Proof.
  unfold categoryOf.
  destruct (JsString.includes indexName "youtube_");
    [rewrite replaceUnderscores_length; apply removePrefix_length|].
  destruct (JsString.includes indexName "yt_"); rewrite replaceUnderscores_length;
    [apply removePrefix_length | lia].
Qed.

Lemma removePrefix_other (prefix s : string) :
  String.prefix prefix s = false -> removePrefix prefix s = s.
Proof.
  unfold removePrefix. revert s.
  assert (H : forall p s, String.prefix p s = false -> dropPrefix p s = None).
  { induction p as [|a p IH]; intros s H; [destruct s; discriminate|].
    destruct s as [|b s]; [reflexivity|]. cbn in *.
    destruct (Ascii.ascii_dec a b) as [->|Ne].
    - rewrite Ascii.eqb_refl. now apply IH.
    - destruct (Ascii.eqb_spec a b); [contradiction | reflexivity]. }
  intros s Hs. now rewrite (H prefix s Hs).
Qed.

Lemma prefix_app (p t : string) : String.prefix p (p ++ t) = true.
Proof.
  induction p as [|a p IH]; [now destruct t|]. cbn.
  destruct (Ascii.ascii_dec a a); [exact IH | contradiction].
Qed.

Lemma includes_prefix (s sub : string) :
  String.prefix sub s = true -> JsString.includes s sub = true.
Proof. destruct s; cbn [JsString.includes]; now intros ->. Qed.

Lemma dropPrefix_app (p t : string) : dropPrefix p (p ++ t) = Some t.
Proof.
  induction p as [|a p IH]; [reflexivity|]. cbn. now rewrite Ascii.eqb_refl.
Qed.

Lemma categoryOf_youtube (rest : string) :
  categoryOf ("youtube_" ++ rest) = replaceUnderscores rest.
Proof.
  unfold categoryOf, removePrefix.
  now rewrite (includes_prefix _ _ (prefix_app "youtube_" rest)), dropPrefix_app.
Qed.
End IndexListFacts.

(** X30.  The index list tool.  Without a connection string it throws, and
    a failure of [listIndexes] is rethrown; otherwise it always returns,
    one entry per index in the order of the store, [totalIndexes] their
    number: the statistics of an entry are those of [describeIndex], or
    none when that call fails or [includeStats] is off.  A category never
    holds an underscore and is never longer than the name; it is the name
    itself when the name has no underscore, and the rest of the name, with
    spaces for underscores, when the name starts with [youtube_].  The
    prefix is removed at the start only: a name that holds [youtube_]
    further on keeps everything, also a leading [yt_]. *)
Theorem index_list_entries :
  forall (h : IndexList.Host.t) (includeStats : bool),
    (IndexList.Host.POSTGRES_CONNECTION_STRING h = None
     \/ IndexList.Host.POSTGRES_CONNECTION_STRING h = Some "" ->
     IndexList.execute h includeStats
     = Throw (Error "POSTGRES_CONNECTION_STRING is not set in environment variables"))
    /\ (forall connectionString,
          IndexList.Host.POSTGRES_CONNECTION_STRING h = Some connectionString ->
          connectionString <> "" ->
          match IndexList.Host.listIndexes h with
          | Throw e => IndexList.execute h includeStats = Throw e
          | Ok names =>
              exists out,
                IndexList.execute h includeStats = Ok out
                /\ map IndexList.Entry.name (IndexList.Output.indexes out) = names
                /\ IndexList.Output.totalIndexes out = List.length names
                /\ forall entry,
                     In entry (IndexList.Output.indexes out) ->
                     IndexList.Entry.category entry
                     = IndexList.categoryOf (IndexList.Entry.name entry)
                     /\ IndexList.Entry.stats entry
                        = if includeStats then
                            match IndexList.Host.describeIndex h
                                    (IndexList.Entry.name entry) with
                            | Ok stats => Some stats
                            | Throw _ => None
                            end
                          else None
          end)
    /\ (forall indexName,
          IndexListSpec.noUnderscore (IndexList.categoryOf indexName) = true
          /\ (String.length (IndexList.categoryOf indexName)
              <= String.length indexName)%nat
          /\ (IndexListSpec.noUnderscore indexName = true ->
              IndexList.categoryOf indexName = indexName)
          /\ IndexList.categoryOf ("youtube_" ++ indexName)
             = IndexList.replaceUnderscores indexName
          /\ (String.prefix "youtube_" indexName = false ->
              JsString.includes indexName "youtube_" = true ->
              IndexList.categoryOf indexName
              = IndexList.replaceUnderscores indexName)).
Proof.
  intros h includeStats. split; [|split].
  - unfold IndexList.execute. intros [-> | ->]; reflexivity.
  - intros cs Hcs Hne. unfold IndexList.execute. rewrite Hcs.
    destruct cs as [|c cs]; [contradiction|].
    destruct (IndexList.Host.listIndexes h) as [names|e]; [|reflexivity].
    cbn [bind]. eexists. split; [reflexivity|].
    cbn [IndexList.Output.indexes IndexList.Output.totalIndexes].
    split; [|split].
    + rewrite map_map. cbn. apply map_id.
    + apply length_map.
    + intros entry Hin. apply in_map_iff in Hin as (name & <- & _).
      split; reflexivity.
  - intros indexName.
    split; [apply IndexListFacts.categoryOf_none|].
    split; [apply IndexListFacts.categoryOf_length|]. split; [|split].
    + intros H. unfold IndexList.categoryOf.
      rewrite (IndexListFacts.includes_underscore "youtube_" eq_refl _ H).
      rewrite (IndexListFacts.includes_underscore "yt_" eq_refl _ H).
      now apply IndexListFacts.replaceUnderscores_id.
    + apply IndexListFacts.categoryOf_youtube.
    + intros Hp Hi. unfold IndexList.categoryOf. rewrite Hi.
      now rewrite IndexListFacts.removePrefix_other.
Qed.

Lemma index_list_entries_witness :
  exists out,
    IndexList.execute
      {| IndexList.Host.POSTGRES_CONNECTION_STRING := Some "postgres://localhost/yt";
         IndexList.Host.listIndexes :=
           Ok ["youtube_ai_news"; "yt_youtube_talks"; "cooking"];
         IndexList.Host.describeIndex := fun _ => Throw (Error "no such index") |}
      true = Ok out
    /\ map IndexList.Entry.category (IndexList.Output.indexes out)
       = ["ai news"; "yt youtube talks"; "cooking"]
    /\ IndexList.Output.totalIndexes out = 3%nat.
Proof.
  eexists. split; [reflexivity|]. split; [reflexivity|].
  pose proof (proj1 (proj2 (index_list_entries
    {| IndexList.Host.POSTGRES_CONNECTION_STRING := Some "postgres://localhost/yt";
       IndexList.Host.listIndexes :=
         Ok ["youtube_ai_news"; "yt_youtube_talks"; "cooking"];
       IndexList.Host.describeIndex := fun _ => Throw (Error "no such index") |}
    true)) "postgres://localhost/yt" eq_refl ltac:(discriminate)) as H.
  cbn [IndexList.Host.listIndexes] in H.
  destruct H as (out & Hex & _ & Ht & _).
  injection Hex as <-. exact Ht.
Defined.
